(** * RO-Crate Explorer: the crate graph engine

    A shallow embedding of the algorithmic core of the explorer and the
    properties its description states about it:
    - the search service (src/services/searchService.ts): flattening of
      entities and the index kept per crate;
    - the loader (src/services/crateLoader.ts): validation and fetch;
    - from the script of src/App.vue: the hierarchy ([fileTree] and its
      [buildTree]), the link hints ([buildLinkedDataHints]), and the
      navigation between packages ([processCrateData], [loadFromUrl],
      [handleSubcrateOpen], [goToBreadcrumb], [goBack], [resetApp]).
    - the other sources of a crate: files and archives ([loadCrateFromFile],
      [extractFromZip], [handleFileUpload]) and pasted text
      ([loadFromPastedJson]); the selection ([selectEntity],
      [handleSearchSelect]) and the local search ([localSearch]).
    The fuzzy matching of fuse.js is a parameter of the search.  Shared
    crates, the remote search and the presentation are not embedded.

    Conventions.
    - A JavaScript value that came out of [JSON.parse] is a [json] tree.
      [undefined] is not a JSON value: an expression that may evaluate to
      [undefined] has type [option json], [None] standing for [undefined].
    - A number is kept as the text [String(n)] produces for it, so that no
      floating point arithmetic is needed: the code only stringifies numbers
      and tests them for truthiness.
    - An object is the list of its own enumerable entries in the order
      [Object.entries] yields them; its keys are distinct.
    - A string is a [string] of bytes, the UTF-8 encoding of the JavaScript
      string.  The class [\s] and the characters [trim] removes are those of
      the language, each recognized by its encoding.  Case is folded on the
      ASCII letters only, which is what the patterns with the flag [i] do to
      the file name they look for, and what [toLowerCase] comes to before
      [endsWith] with that name.
    - Code that can throw returns a [Res]; [NoFuel] is an artefact of the
      embedding (recursion that Rocq cannot see to be structural is driven
      by a counter) and is shown never to occur at the counter the
      definitions use.
    - What the host and the libraries decide (the network, [URL] parsing,
      JSON-LD expansion, the [ROCrate] constructor, collation, and the
      order in which [Array.prototype.sort] calls its comparator) is a
      parameter of the definitions that depend on it. *)

From Stdlib Require Import String Ascii List ZArith Lia Bool Sorted.
From stdpp Require Import base option list gmap strings sets pretty.
Import ListNotations.
Local Open Scope string_scope.

(** ** Results of computations that may throw *)

Inductive Res (A : Type) : Type :=
| Ok (a : A)
| Throw (msg : string)
| NoFuel.
Arguments Ok {A} a.
Arguments Throw {A} msg.
Arguments NoFuel {A}.

Definition res_bind {A B} (r : Res A) (k : A -> Res B) : Res B :=
  match r with
  | Ok a => k a
  | Throw m => Throw m
  | NoFuel => NoFuel
  end.

Declare Scope res_scope.
Delimit Scope res_scope with res.
Notation "'let*' x ':=' r 'in' k" := (res_bind r (fun x => k))
  (at level 10, x pattern, r at level 100, k at level 200) : res_scope.
Local Open Scope res_scope.

Fixpoint res_mapM {A B} (f : A -> Res B) (l : list A) : Res (list B) :=
  match l with
  | [] => Ok []
  | x :: xs =>
      let* y := f x in
      let* ys := res_mapM f xs in
      Ok (y :: ys)
  end.

(** ** JSON values and the JavaScript operations the code applies to them *)

#[warnings="-register-all"]
Inductive json : Type :=
| JNull
| JBool (b : bool)
| JNum (repr : string)
| JStr (s : string)
| JArr (items : list json)
| JObj (fields : list (string * json)).

(** [Record<string, any>] *)
Definition jobject : Type := list (string * json).

(** Own property lookup on an entry list. *)
Fixpoint lookupField (k : string) (fields : jobject) : option json :=
  match fields with
  | [] => None
  | (k', v) :: rest => if String.eqb k k' then Some v else lookupField k rest
  end.

(** [v[k]] for a property name [k] that is neither an index nor ["length"]:
    reading a property of [null] throws, a primitive or an array has no such
    property. *)
Definition getProp (v : json) (k : string) : Res (option json) :=
  match v with
  | JNull => Throw "TypeError: Cannot read properties of null"
  | JObj fields => Ok (lookupField k fields)
  | _ => Ok None
  end.

(** [v?.[k]] *)
Definition getPropOpt (v : json) (k : string) : option json :=
  match v with
  | JObj fields => lookupField k fields
  | _ => None
  end.

(** [k in v], for a [v] that passed [typeof v === 'object'] and is not null. *)
Definition hasKey (k : string) (fields : jobject) : bool :=
  match lookupField k fields with Some _ => true | None => false end.

Definition truthy (v : json) : bool :=
  match v with
  | JNull => false
  | JBool b => b
  | JNum r => negb (String.eqb r "0")
  | JStr s => negb (String.eqb s "")
  | JArr _ => true
  | JObj _ => true
  end.

Definition truthyOpt (v : option json) : bool :=
  match v with Some x => truthy x | None => false end.

Definition isString (v : json) : bool :=
  match v with JStr _ => true | _ => false end.

(** [a === b] on values of two parsed documents: primitives compare by value,
    two objects or arrays are never the same reference. *)
Definition strictEq (a b : option json) : bool :=
  match a, b with
  | None, None => true
  | Some JNull, Some JNull => true
  | Some (JBool x), Some (JBool y) => Bool.eqb x y
  | Some (JNum x), Some (JNum y) => String.eqb x y
  | Some (JStr x), Some (JStr y) => String.eqb x y
  | _, _ => false
  end.

Definition isStr (a : option json) (s : string) : bool := strictEq a (Some (JStr s)).

(** [Array.prototype.join] on strings. *)
Fixpoint join (sep : string) (l : list string) : string :=
  match l with
  | [] => ""
  | [x] => x
  | x :: rest => x ++ sep ++ join sep rest
  end.

(** [String(v)], also the coercion of [v + "..."]. *)
Fixpoint jsToString (v : json) : string :=
  match v with
  | JNull => "null"
  | JBool true => "true"
  | JBool false => "false"
  | JNum r => r
  | JStr s => s
  | JArr items =>
      join "," (List.map (fun x => match x with
                                   | JNull => ""
                                   | _ => jsToString x
                                   end) items)
  | JObj _ => "[object Object]"
  end.

Definition jsToStringOpt (v : option json) : string :=
  match v with Some x => jsToString x | None => "undefined" end.

(** *** Strings *)

Definition dquote : string := String (ascii_of_nat 34) EmptyString.

Definition backslash : ascii := ascii_of_nat 92.

Definition strNonEmpty (s : string) : bool := negb (String.eqb s "").

Definition startsWith (s p : string) : bool := String.prefix p s.

Fixpoint revString (s : string) : string :=
  match s with
  | EmptyString => EmptyString
  | String c r => revString r ++ String c EmptyString
  end.

Definition endsWith (s p : string) : bool := String.prefix (revString p) (revString s).

Fixpoint includes (s p : string) : bool :=
  String.prefix p s ||
  match s with
  | EmptyString => false
  | String _ r => includes r p
  end.

(** [s.split(sep)] where the separators are the characters [isSep] holds
    of. *)
Fixpoint splitWhen (isSep : ascii -> bool) (s : string) : list string :=
  match s with
  | EmptyString => [EmptyString]
  | String c r =>
      if isSep c then EmptyString :: splitWhen isSep r
      else match splitWhen isSep r with
           | [] => [String c EmptyString]
           | w :: ws => String c w :: ws
           end
  end.

(** [s.split(sep)] for a one-character separator. *)
Fixpoint splitOn (sep : ascii) (s : string) : list string :=
  match s with
  | EmptyString => [EmptyString]
  | String c r =>
      if Ascii.eqb c sep then EmptyString :: splitOn sep r
      else match splitOn sep r with
           | [] => [String c EmptyString]
           | w :: ws => String c w :: ws
           end
  end.

Definition lowerAscii (c : ascii) : ascii :=
  let n := nat_of_ascii c in
  if (65 <=? n)%nat && (n <=? 90)%nat then ascii_of_nat (n + 32) else c.

Fixpoint toLowerCase (s : string) : string :=
  match s with
  | EmptyString => EmptyString
  | String c r => String (lowerAscii c) (toLowerCase r)
  end.

(** *** White space *)

(** The characters of the class [\s], which are also the ones [trim]
    removes: the [WhiteSpace] and [LineTerminator] characters of the
    language, each in its UTF-8 encoding.  They are U+0009 to U+000D, U+0020,
    U+00A0, U+1680, U+2000 to U+200A, U+2028, U+2029, U+202F, U+205F, U+3000
    and U+FEFF. *)
Definition utf8 (bytes : list nat) : string :=
  string_of_list_ascii (List.map ascii_of_nat bytes).

Definition whiteSpaces : list string :=
  ([ utf8 [9]; utf8 [10]; utf8 [11]; utf8 [12]; utf8 [13]; utf8 [32];
     utf8 [194; 160]; utf8 [225; 154; 128] ]
   ++ List.map (fun k => utf8 [226; 128; 128 + k]) (seq 0 11)
   ++ [ utf8 [226; 128; 168]; utf8 [226; 128; 169]; utf8 [226; 128; 175];
        utf8 [226; 129; 159]; utf8 [227; 128; 128]; utf8 [239; 187; 191] ])%list.

(** A byte that continues the encoding of a character begun before it. *)
Definition continues (c : ascii) : bool :=
  (128 <=? nat_of_ascii c)%nat && (nat_of_ascii c <=? 191)%nat.

Fixpoint allContinue (s : string) : bool :=
  match s with
  | EmptyString => true
  | String c r => continues c && allContinue r
  end.

(** The encoding of one character: a byte that continues nothing, and bytes
    that continue it. *)
Definition encodesOne (w : string) : bool :=
  match w with
  | EmptyString => false
  | String c r => negb (continues c) && allContinue r
  end.

(** A character, as far as white space is concerned: a white space
    character in its encoding, or a single byte of any other character. *)
Definition isSpace (c : string) : bool := existsb (String.eqb c) whiteSpaces.

(** The white space character a text starts with, if it starts with one. *)
Definition spaceAhead (s : string) : option string :=
  List.find (fun w => startsWith s w) whiteSpaces.

(** The characters of a text.  [skip] counts the bytes still to pass of the
    white space character that has just been read. *)
Fixpoint chars_from (skip : nat) (s : string) : list string :=
  match s with
  | EmptyString => []
  | String c r =>
      match skip with
      | S k => chars_from k r
      | O =>
          match spaceAhead s with
          | Some w => w :: chars_from (String.length w - 1) r
          | None => String c EmptyString :: chars_from 0 r
          end
      end
  end.

Definition chars (s : string) : list string := chars_from 0 s.

(** The text a list of characters spells. *)
Definition text (cs : list string) : string :=
  List.fold_right String.append EmptyString cs.

(** A list of characters that is read back as it is from the text it
    spells. *)
Definition canon (cs : list string) : Prop := chars (text cs) = cs.

(** [replace(/\s+/g, ' ')] on the characters of a text: every run of white
    space becomes one space. *)
Fixpoint collapseSpaces (inRun : bool) (cs : list string) : list string :=
  match cs with
  | [] => []
  | c :: r =>
      if isSpace c
      then if inRun then collapseSpaces true r
           else " " :: collapseSpaces true r
      else c :: collapseSpaces false r
  end.

(** [s.replace(/\s+/g, ' ')] *)
Definition replaceSpaces (s : string) : string :=
  text (collapseSpaces false (chars s)).

Fixpoint trimStart (cs : list string) : list string :=
  match cs with
  | [] => []
  | c :: r => if isSpace c then trimStart r else cs
  end.

Definition trimEnd (cs : list string) : list string :=
  List.rev (trimStart (List.rev cs)).

(** [s.trim()] *)
Definition trim (s : string) : string :=
  text (trimEnd (trimStart (chars s))).

(** The characters a string yields when it is iterated, one code point
    each: a byte that continues a character stays with the one before
    it. *)
Fixpoint codePoints (s : string) : list string :=
  match s with
  | EmptyString => []
  | String c r =>
      match codePoints r with
      | String d p :: ps =>
          if continues d then String c (String d p) :: ps
          else String c EmptyString :: String d p :: ps
      | ps => String c EmptyString :: ps
      end
  end.

(** [s.length], in the code units of the language: a character outside the
    basic plane, which UTF-8 encodes in four bytes, counts for two. *)
Definition codeUnits (p : string) : nat :=
  match p with
  | String c _ => if (240 <=? nat_of_ascii c)%nat then 2 else 1
  | EmptyString => 0
  end.

Definition utf16Length (s : string) : nat :=
  list_sum (List.map codeUnits (codePoints s)).

(** ** The search service (src/services/searchService.ts) *)

Module SearchService.

(** [flattenValue(value, depth, maxDepth)].  A JavaScript value need not be a
    finite tree, so the recursion is driven by [fuel], one unit per call
    frame, and not by the structure of [value]. *)
Fixpoint flattenValue_fuel (fuel : nat) (value : option json)
    (depth maxDepth : nat) : Res string :=
  match fuel with
  | O => NoFuel
  | S fuel' =>
      if (maxDepth <? depth)%nat then Ok ""
      else
        match value with
        | None | Some JNull => Ok ""
        | Some (JStr s) => Ok s
        | Some (JNum r) => Ok r
        | Some (JBool b) => Ok (jsToString (JBool b))
        | Some (JArr items) =>
            let* parts :=
              res_mapM (fun item =>
                          flattenValue_fuel fuel' (Some item) (depth + 1) maxDepth)
                       items in
            Ok (join " " (List.filter strNonEmpty parts))
        | Some (JObj fields) =>
            let* parts :=
              res_mapM (fun kv : string * json =>
                          let (key, val) := kv in
                          if strNonEmpty key && negb (String.eqb key "@context")
                          then
                            let* flattenedVal :=
                              flattenValue_fuel fuel' (Some val) (depth + 1) maxDepth in
                            Ok (if strNonEmpty flattenedVal
                                then [key; flattenedVal] else [key])
                          else Ok [])
                       fields in
            Ok (join " " (List.concat parts))
        end
  end.

(** The default arguments: [depth = 0], [maxDepth = 10].  A call at depth 11
    returns at once, so no more than twelve frames are ever stacked. *)
Definition defaultMaxDepth : nat := 10.

Definition flattenValue (value : json) : Res string :=
  flattenValue_fuel (defaultMaxDepth + 2) (Some value) 0 defaultMaxDepth.

(** [extractSearchableContent(entity)] *)
Definition extractSearchableContent (entity : jobject) : Res string :=
  let* parts :=
    res_mapM (fun kv : string * json =>
                let (key, value) := kv in
                if String.eqb key "@context" then Ok []
                else
                  let* flattenedValue := flattenValue value in
                  Ok (if strNonEmpty flattenedValue
                      then [key; flattenedValue] else [key]))
             entity in
  Ok (trim (replaceSpaces (join " " (List.concat parts)))).

Record SearchIndexItem : Type := mkItem {
  entityId : json;
  crateId : string;
  searchableContent : string
}.

(** The two module-level variables.  A [Fuse] instance is represented by the
    collection it was constructed over. *)
Record IndexState : Type := mkIndex {
  fuseInstance : option (list SearchIndexItem);
  indexData : list SearchIndexItem
}.

Definition initialIndex : IndexState :=
  {| fuseInstance := None; indexData := [] |}.

(** One turn of the loop [for (const entity of entities)]: the entry pushed
    for [entity], if any. *)
Definition indexEntry (entity : json) (crate : string) : Res (list SearchIndexItem) :=
  let* eid := getProp entity "@id" in
  if negb (truthyOpt eid) then Ok []
  else
    match entity, eid with
    | JObj fields, Some eid' =>
        let* content := extractSearchableContent fields in
        if strNonEmpty content
        then Ok [ {| entityId := eid'; crateId := crate; searchableContent := content |} ]
        else Ok []
    | _, _ => Ok []
    end.

(** The loop, pushing onto [acc]; a throw leaves the entries pushed so far. *)
Fixpoint pushEntries (entities : list json) (crate : string)
    (acc : list SearchIndexItem) : list SearchIndexItem * Res unit :=
  match entities with
  | [] => (acc, Ok tt)
  | entity :: rest =>
      match indexEntry entity crate with
      | Ok items => pushEntries rest crate (acc ++ items)
      | Throw m => (acc, Throw m)
      | NoFuel => (acc, NoFuel)
      end
  end.

(** [buildSearchIndex(entities, crateId)] *)
Definition buildSearchIndex (st : IndexState) (entities : list json)
    (crate : string) : IndexState * Res unit :=
  match pushEntries entities crate [] with
  | (data, Ok _) => ({| fuseInstance := Some data; indexData := data |}, Ok tt)
  | (data, err) => ({| fuseInstance := fuseInstance st; indexData := data |}, err)
  end.

(** [addToIndex(entities, crateId)] *)
Definition addToIndex (st : IndexState) (entities : list json)
    (crate : string) : IndexState * Res unit :=
  match fuseInstance st with
  | None => buildSearchIndex st entities crate
  | Some _ =>
      let kept :=
        List.filter (fun item => negb (String.eqb (crateId item) crate))
                    (indexData st) in
      match pushEntries entities crate kept with
      | (data, Ok _) => ({| fuseInstance := Some data; indexData := data |}, Ok tt)
      | (data, err) => ({| fuseInstance := fuseInstance st; indexData := data |}, err)
      end
  end.

(** [clearSearchIndex()] *)
Definition clearSearchIndex (st : IndexState) : IndexState := initialIndex.

(** The entries a well-typed entity list ([RoCrateEntity[]], a list of
    objects) gives rise to under a crate identifier. *)
Definition entriesOf (entities : list jobject) (crate : string) : list SearchIndexItem :=
  fst (pushEntries (List.map JObj entities) crate []).

(** The entries derived from a list of entities, in the words of the
    description and without the loop: there is one for each entity that has
    an identifier, in the order of the list, and it carries that identifier,
    the crate identifier of the call and the searchable text of the
    entity. *)
Definition identified (entities : list jobject) : list jobject :=
  List.filter (fun e => truthyOpt (lookupField "@id" e)) entities.

Definition derivedFrom (crate : string) (e : jobject) (item : SearchIndexItem) : Prop :=
  lookupField "@id" e = Some (entityId item) /\
  crateId item = crate /\
  extractSearchableContent e = Ok (searchableContent item).

Definition underCrate (crate : string) (data : list SearchIndexItem) : list SearchIndexItem :=
  List.filter (fun item => String.eqb (crateId item) crate) data.

Definition outsideCrate (crate : string) (data : list SearchIndexItem) : list SearchIndexItem :=
  List.filter (fun item => negb (String.eqb (crateId item) crate)) data.

(** [interface SearchResult] *)
Record SearchResult : Type := mkResult {
  resultEntityId : json;
  resultCrateId : string
}.

Section Search.

(** [fuseInstance.search(query, { limit })]: the matching of fuse.js over the
    collection the instance was constructed on. *)
Variable fuseSearch : list SearchIndexItem -> string -> nat -> list SearchIndexItem.

(** [localSearch(query, limit)] *)
Definition localSearch (st : IndexState) (query : string) (limit : nat)
    : list SearchResult :=
  match fuseInstance st with
  | None => []
  | Some docs =>
      if negb (strNonEmpty query) || (String.length (trim query) =? 0)%nat then []
      else List.map (fun item => {| resultEntityId := entityId item;
                                    resultCrateId := crateId item |})
                    (fuseSearch docs query limit)
  end.

End Search.

(** A matcher for the examples: the entries whose content holds the query,
    up to the limit. *)
Definition substringSearch (docs : list SearchIndexItem) (query : string)
    (limit : nat) : list SearchIndexItem :=
  firstn limit (List.filter (fun d => includes (searchableContent d) query) docs).

(** Text in which white space is normalized: every white space character
    of it is a space, no two spaces are adjacent, and there is none at
    either end. *)
Definition whitespaceNormal (s : string) : Prop :=
  let l := chars s in
  (forall c, In c l -> isSpace c = true -> c = " ") /\
  (forall l1 l2, l <> (l1 ++ " " :: " " :: l2)%list) /\
  (forall c l', l = c :: l' -> isSpace c = false) /\
  (forall c l', l = (l' ++ [c])%list -> isSpace c = false).

(** A text made of white space only. *)
Definition blank (s : string) : Prop :=
  Forall (fun c => isSpace c = true) (chars s).

(** The truthy values of ['@id'] in a list of entities, in the order of the
    list. *)
Definition identifiers (entities : list jobject) : list json :=
  List.flat_map (fun e => match lookupField "@id" e with
                          | Some v => if truthy v then [v] else []
                          | None => []
                          end) entities.

(** A value with every property named ['@context'] removed, at every
    depth. *)
Fixpoint stripContext (v : json) : json :=
  match v with
  | JArr items => JArr (List.map stripContext items)
  | JObj fields =>
      JObj ((fix strip (l : list (string * json)) : list (string * json) :=
               match l with
               | [] => []
               | (k, x) :: r =>
                   if String.eqb k "@context" then strip r
                   else (k, stripContext x) :: strip r
               end) fields)
  | _ => v
  end.

Fixpoint stripFields (l : jobject) : jobject :=
  match l with
  | [] => []
  | (k, x) :: r =>
      if String.eqb k "@context" then stripFields r
      else (k, stripContext x) :: stripFields r
  end.

End SearchService.

(** ** The loader (src/services/crateLoader.ts) *)

Module CrateLoader.

(** [entity?.['@id'] === './' || entity?.['@id'] === '.'] *)
Definition isRootEntity (entity : json) : bool :=
  isStr (getPropOpt entity "@id") "./" || isStr (getPropOpt entity "@id") ".".

(** [validateRoCrateJson(data)] *)
Definition validateRoCrateJson (data : json) : Res unit :=
  match data with
  | JNull | JBool _ | JNum _ | JStr _ =>
      Throw "Invalid RO-Crate: data is not an object"
  | JArr _ => Throw "Invalid RO-Crate: missing @context"
  | JObj fields =>
      if negb (hasKey "@context" fields)
      then Throw "Invalid RO-Crate: missing @context"
      else
        match lookupField "@graph" fields with
        | None => Throw "Invalid RO-Crate: missing @graph"
        | Some (JArr graph) =>
            if (length graph =? 0)%nat
            then Throw "Invalid RO-Crate: @graph is empty"
            else if existsb isRootEntity graph then Ok tt
            else Throw ("Invalid RO-Crate: missing root dataset entity with @id "
                        ++ dquote ++ "./" ++ dquote ++ " or " ++ dquote ++ "." ++ dquote)
        | Some _ => Throw "Invalid RO-Crate: @graph is not an array"
        end
  end.

(** What [fetch(url)] followed by [response.json()] can come to: the request
    is rejected, or a response arrives with its [ok] flag, its status line
    and a body that parses as JSON or not. *)
Inductive HttpResponse : Type :=
| NetworkFailure (msg : string)
| Response (ok : bool) (status : string) (body : Res json).

Definition withTrailingSlash (s : string) : string :=
  if endsWith s "/" then s else s ++ "/".

(** [fetchCrateFromUrl(url)]; every failure is rethrown with one prefix. *)
Definition fetchCrateFromUrl (corsProxyUrl : string)
    (httpGet : string -> HttpResponse) (url : string) : Res json :=
  let proxiedUrl := withTrailingSlash corsProxyUrl ++ url in
  let attempt : Res json :=
    match httpGet proxiedUrl with
    | NetworkFailure m => Throw m
    | Response false status _ => Throw ("Failed to fetch crate: " ++ status)
    | Response true _ (Ok data) =>
        let* _ := validateRoCrateJson data in Ok data
    | Response true _ (Throw m) => Throw ("Failed to parse JSON: " ++ m)
    | Response true _ NoFuel => NoFuel
    end in
  match attempt with
  | Throw m => Throw ("Error fetching RO-Crate from URL: " ++ m)
  | r => r
  end.

(** The acceptance condition in the words of the interface description:
    an object with a context, a non-empty graph array and exactly one entity
    whose identifier is ["./"] or ["."]. *)
Definition countRoots (graph : list json) : nat :=
  length (List.filter isRootEntity graph).

Definition describedAsValid (data : json) : bool :=
  match data with
  | JObj fields =>
      hasKey "@context" fields &&
      match lookupField "@graph" fields with
      | Some (JArr graph) => negb (length graph =? 0)%nat && (countRoots graph =? 1)%nat
      | _ => false
      end
  | _ => false
  end.

(** *** Files and archives *)

(** An entry of an archive: a directory or a file, and what
    [async('text')] comes to for it. *)
Record ZipObject : Type := mkZipObject {
  dir : bool;
  asyncText : Res string
}.

(** What [JSZip.loadAsync] hands out: [files] lists the entries in the order
    of [Object.keys(zip.files)], and [file] is [zip.file(name)], which the
    library decides. *)
Record JSZip : Type := mkZip {
  files : list (string * ZipObject);
  file : string -> option ZipObject
}.

(** How the [FileReader] ends: [onload] with [reader.result], a string or
    not, or [onerror] with [reader.error?.message]. *)
Inductive FileRead : Type :=
| Loaded (result : option string)
| ReadError (message : option string).

(** A [File], with what the host makes of reading it and the library of
    opening it as an archive. *)
Record File : Type := mkFile {
  fileName : string;
  fileType : string;
  reading : FileRead;
  loadAsync : Res JSZip
}.

(** [readFileAsText(file)] *)
Definition readFileAsText (f : File) : Res string :=
  match reading f with
  | Loaded (Some result) => Ok result
  | Loaded None => Throw "Failed to read file as text"
  | ReadError message =>
      Throw ("File reading failed: " ++
             match message with
             | Some m => if strNonEmpty m then m else "Unknown error"
             | None => "Unknown error"
             end)
  end.

(** [catch (error) { throw new Error(prefix + error.message) }] *)
Definition rethrow {A} (prefix : string) (r : Res A) : Res A :=
  match r with
  | Throw m => Throw (prefix ++ m)
  | _ => r
  end.

Section Parsing.

(** [JSON.parse] *)
Variable parseJson : string -> Res json.

(** [extractFromZip(file)] *)
Definition extractFromZip (f : File) : Res json :=
  rethrow "Error extracting RO-Crate from ZIP: "
    (let* zip := loadAsync f in
     let metadataFile :=
       match file zip "ro-crate-metadata.json" with
       | Some found => Some found
       | None =>
           match List.find (fun entry : string * ZipObject =>
                              endsWith (fst entry) "ro-crate-metadata.json"
                              && negb (dir (snd entry)))
                           (files zip) with
           | Some (metadataPath, _) => file zip metadataPath
           | None => None
           end
       end in
     match metadataFile with
     | None => Throw "ro-crate-metadata.json not found in ZIP file"
     | Some found =>
         let* text := asyncText found in
         let* data := rethrow "Failed to parse ro-crate-metadata.json: "
                        (parseJson text) in
         let* _ := validateRoCrateJson data in
         Ok data
     end).

(** [loadCrateFromFile(file)] *)
Definition loadCrateFromFile (f : File) : Res json :=
  rethrow "Error loading RO-Crate from file: "
    (if String.eqb (fileType f) "application/zip" || endsWith (fileName f) ".zip"
     then extractFromZip f
     else
       let* text := readFileAsText f in
       let* data := rethrow "Failed to parse JSON: " (parseJson text) in
       let* _ := validateRoCrateJson data in
       Ok data).

End Parsing.

End CrateLoader.

(** ** The hierarchy ([fileTree] in src/App.vue) *)

Module FileTree.

(** [interface TreeNode].  [name] and [type] are declared strings but are
    filled from entity properties, which may hold any value; [type] is
    [undefined] when ["@type"] is an empty array.  [data] is the entity, or
    [null], or [undefined]. *)
#[warnings="-register-all"]
Inductive TreeNode : Type :=
  Node (name : json) (id : string) (type : option json)
       (children : list TreeNode) (data : option json).

Definition name (n : TreeNode) : json := let 'Node x _ _ _ _ := n in x.
Definition id (n : TreeNode) : string := let 'Node _ x _ _ _ := n in x.
Definition type (n : TreeNode) : option json := let 'Node _ _ x _ _ := n in x.
Definition children (n : TreeNode) : list TreeNode := let 'Node _ _ _ x _ := n in x.
Definition data (n : TreeNode) : option json := let 'Node _ _ _ _ x := n in x.

(** [entityMap]: a [Map] filled by [entityMap.set(entity["@id"], entity)] in
    the order of the entity list.  The builder only ever looks up strings, so
    the entries under keys that are not strings are left out. *)
Fixpoint fillEntityMap (entities : list json) (m : gmap string json)
    : Res (gmap string json) :=
  match entities with
  | [] => Ok m
  | entity :: rest =>
      let* key := getProp entity "@id" in
      match key with
      | Some (JStr k) => fillEntityMap rest (<[k := entity]> m)
      | _ => fillEntityMap rest m
      end
  end.

(** [getNodeName(entity, id)] *)
Definition getNodeName (entity : option json) (ident : string) : json :=
  let named :=
    match entity with
    | Some e => if truthy e then getPropOpt e "name" else None
    | None => None
    end in
  match named with
  | Some n => if truthy n then n
              else JStr (List.last
                           (List.filter (fun p => strNonEmpty p && negb (String.eqb p "."))
                                        (splitOn "/" ident))
                           ident)
  | None => JStr (List.last
                    (List.filter (fun p => strNonEmpty p && negb (String.eqb p "."))
                                 (splitOn "/" ident))
                    ident)
  end.

(** [part["@id"] ? part["@id"] : part] *)
Definition partId (part : json) : Res json :=
  let* pid := getProp part "@id" in
  match pid with
  | Some v => Ok (if truthy v then v else part)
  | None => Ok part
  end.

(** [Array.isArray(entity.hasPart) ? entity.hasPart : [entity.hasPart]],
    under the guard [entity && entity.hasPart]. *)
Definition partsOf (entity : option json) : list json :=
  match entity with
  | Some e =>
      if truthy e
      then match getPropOpt e "hasPart" with
           | Some (JArr parts) => parts
           | Some v => if truthy v then [v] else []
           | None => []
           end
      else []
  | None => []
  end.

(** The body of [parts.forEach]: what one element of the part list pushes
    onto [children], [build] being the recursive call. *)
Definition pushPart (build : string -> Res TreeNode) (part : json)
    : Res (list TreeNode) :=
  let* pid := partId part in
  match pid with
  | JStr s => let* child := build s in Ok [child]
  | _ => Ok []
  end.

Definition collectChildren (build : string -> Res TreeNode) (parts : list json)
    : Res (list TreeNode) :=
  let* pushed := res_mapM (pushPart build) parts in
  Ok (List.concat pushed).

(** The type shown for a node that is not a link. *)
Definition typeOf (entity : option json) : option json :=
  match entity with
  | Some e =>
      if truthy e
      then match getPropOpt e "@type" with
           | Some (JArr ts) => List.head ts
           | Some t => if truthy t then Some t else Some (JStr "File")
           | None => Some (JStr "File")
           end
      else Some (JStr "Broken Link")
  | None => Some (JStr "Broken Link")
  end.

(** [Array.prototype.sort(comparefn)] on an array of nodes.  On which pairs
    of elements the comparator is called, and in which order, is left to the
    engine. *)
Definition ArraySort : Type :=
  (TreeNode -> TreeNode -> Res Z) -> list TreeNode -> Res (list TreeNode).

Section Builder.

Variable arraySort : ArraySort.

(** [String.prototype.localeCompare] depends on the locale of the host. *)
Variable localeCompare : string -> string -> Z.

Variable entityMap : gmap string json.

(** The comparator given to [children.sort]. *)
Definition compareNodes (a b : TreeNode) : Res Z :=
  let aIsFolder := isStr (type a) "Dataset" in
  let bIsFolder := isStr (type b) "Dataset" in
  if aIsFolder && negb bIsFolder then Ok (-1)%Z
  else if negb aIsFolder && bIsFolder then Ok 1%Z
  else match name a with
       | JStr an => Ok (localeCompare an (jsToString (name b)))
       | _ => Throw "TypeError: a.name.localeCompare is not a function"
       end.

(** [buildTree(entityId, visited)].  One unit of [fuel] per call frame. *)
Fixpoint buildTree_fuel (fuel : nat) (entityId : string) (visited : gset string)
    : Res TreeNode :=
  match fuel with
  | O => NoFuel
  | S fuel' =>
      let entity := entityMap !! entityId in
      if decide (entityId ∈ visited)
      then Ok (Node (JStr (jsToString (getNodeName entity entityId) ++ " (Link)"))
                    entityId (Some (JStr "Link")) [] entity)
      else
        let currentVisited := {[entityId]} ∪ visited in
        let* children :=
          collectChildren (fun s => buildTree_fuel fuel' s currentVisited)
                          (partsOf entity) in
        let* sorted := arraySort compareNodes children in
        Ok (Node (getNodeName entity entityId) entityId (typeOf entity) sorted
                 (match entity with
                  | Some e => if truthy e then Some e else Some JNull
                  | None => Some JNull
                  end))
  end.

(** Every frame below the first adds an identifier of [entityMap] to
    [visited], so one frame more than there are entities is enough. *)
Definition buildTree (entityId : string) (visited : gset string) : Res TreeNode :=
  buildTree_fuel (S (size entityMap)) entityId visited.

End Builder.

(** A consistent comparator for the elements of a list, in the terms of the
    language.  It answers every pair of them with a number [v a b]; with
    [a < b], [a = b] and [a > b] for a negative, a zero and a positive
    answer: [a = a]; if [a = b] then [b = a]; and each of [=], [<] and [>] is
    transitive. *)
Definition consistentComparator (cmp : TreeNode -> TreeNode -> Res Z)
    (l : list TreeNode) : Prop :=
  exists v : TreeNode -> TreeNode -> Z,
    (forall a b, In a l -> In b l -> cmp a b = Ok (v a b)) /\
    (forall a, In a l -> v a a = 0%Z) /\
    (forall a b, In a l -> In b l -> v a b = 0%Z -> v b a = 0%Z) /\
    (forall a b c, In a l -> In b l -> In c l ->
                   v a b = 0%Z -> v b c = 0%Z -> v a c = 0%Z) /\
    (forall a b c, In a l -> In b l -> In c l ->
                   (v a b < 0)%Z -> (v b c < 0)%Z -> (v a c < 0)%Z) /\
    (forall a b c, In a l -> In b l -> In c l ->
                   (0 < v a b)%Z -> (0 < v b c)%Z -> (0 < v a c)%Z).

(** What the language requires of the sort of every engine.  The result
    holds the elements of the array, each as often as the array does.  The
    sort completes abruptly only with the abrupt completion of a call of the
    comparator on two of the elements.  With a consistent comparator, an
    element that the comparator puts before another stands before it in the
    result. *)
Record conforming (sort : ArraySort) : Prop := mkConforming {
  sort_permutes : forall cmp l out, sort cmp l = Ok out -> out ≡ₚ l;
  sort_throws : forall cmp l msg,
    sort cmp l = Throw msg ->
    exists a b, In a l /\ In b l /\ cmp a b = Throw msg;
  sort_fuel : forall cmp l,
    sort cmp l = NoFuel -> exists a b, In a l /\ In b l /\ cmp a b = NoFuel;
  sort_orders : forall cmp l out,
    consistentComparator cmp l -> sort cmp l = Ok out ->
    forall i j a b z,
      out !! i = Some a -> out !! j = Some b ->
      cmp a b = Ok z -> (z < 0)%Z -> (i < j)%nat
}.

(** An engine for the examples: insertion from the right. *)
Fixpoint insertNode (cmp : TreeNode -> TreeNode -> Res Z) (x : TreeNode)
    (sorted : list TreeNode) : Res (list TreeNode) :=
  match sorted with
  | [] => Ok [x]
  | y :: rest =>
      let* c := cmp x y in
      if (c <=? 0)%Z then Ok (x :: y :: rest)
      else let* rest' := insertNode cmp x rest in Ok (y :: rest')
  end.

Fixpoint insertionSort (cmp : TreeNode -> TreeNode -> Res Z) (l : list TreeNode)
    : Res (list TreeNode) :=
  match l with
  | [] => Ok []
  | x :: rest => let* sorted := insertionSort cmp rest in insertNode cmp x sorted
  end.

(** A collation that orders the strings: [localeCompare] answers [0] for a
    string and itself, and its [=], [<] and [>] are symmetric and transitive
    as those of a consistent comparator are. *)
Definition consistentCollation (localeCompare : string -> string -> Z) : Prop :=
  (forall a, localeCompare a a = 0%Z) /\
  (forall a b, localeCompare a b = 0%Z -> localeCompare b a = 0%Z) /\
  (forall a b c, localeCompare a b = 0%Z -> localeCompare b c = 0%Z ->
                 localeCompare a c = 0%Z) /\
  (forall a b c, (localeCompare a b < 0)%Z -> (localeCompare b c < 0)%Z ->
                 (localeCompare a c < 0)%Z) /\
  (forall a b c, (0 < localeCompare a b)%Z -> (0 < localeCompare b c)%Z ->
                 (0 < localeCompare a c)%Z).

(** [allEntities.value.find((e) => e["@id"] === "./" || e["@id"] === ".")] *)
Fixpoint findRootEntity (entities : list json) : Res (option json) :=
  match entities with
  | [] => Ok None
  | e :: rest =>
      let* i := getProp e "@id" in
      if isStr i "./" || isStr i "." then Ok (Some e) else findRootEntity rest
  end.

Definition rootEntityOf (rootDataset : option json) (allEntities : list json)
    : Res (option json) :=
  if truthyOpt rootDataset then Ok rootDataset
  else findRootEntity allEntities.

(** The computed [fileTree].  [rootDataset] is [crate.value?.rootDataset], an
    entity object handed out by the ro-crate library if there is one.
    [buildTree] is declared on string identifiers and the embedding follows
    the declaration: a root entity whose ["@id"] is not a string is outside
    of it. *)
Definition fileTree (arraySort : ArraySort) (localeCompare : string -> string -> Z)
    (rootDataset : option json) (allEntities : list json)
    (currentCrateName : json) : Res TreeNode :=
  let* rootEntity := rootEntityOf rootDataset allEntities in
  match rootEntity with
  | None => Ok (Node currentCrateName "./" (Some (JStr "Dataset")) [] (Some JNull))
  | Some root =>
      let* entityMap := fillEntityMap allEntities ∅ in
      match getPropOpt root "@id" with
      | Some (JStr rootId) => buildTree arraySort localeCompare entityMap rootId ∅
      | _ => Throw "buildTree is declared on string identifiers"
      end
  end.

(** *** Paths *)

(** [path n p]: [p] lists the nodes met going down from [n], [n] first. *)
Inductive path : TreeNode -> list TreeNode -> Prop :=
| path_here n : path n [n]
| path_down n c p : In c (children n) -> path c p -> path n (n :: p).

Definition isLeaf (n : TreeNode) : Prop := children n = [].

(** A terminal link node, as the loop detection makes them. *)
Definition isLink (n : TreeNode) : Prop :=
  type n = Some (JStr "Link") /\ children n = [].

(** A node whose name is a string. *)
Definition strNamed (n : TreeNode) : Prop := exists s, name n = JStr s.

(** The invariant of the walk.  On every path from [t], the nodes above the
    last carry pairwise distinct identifiers none of which was visited
    before [t], and the last node carries an identifier met before only if it
    is a terminal link. *)
Definition pathsOk (visited : gset string) (t : TreeNode) : Prop :=
  forall q l, path t (q ++ [l]) ->
    List.NoDup (List.map id q) /\
    (forall x, In x (List.map id q) -> x ∉ visited) /\
    (In (id l) (List.map id q) \/ id l ∈ visited -> isLink l).

(** The invariant as the data model words it: no identifier twice on a path
    from the root to a leaf, the leaf included. *)
Definition noRepeatOnPaths (t : TreeNode) : Prop :=
  forall p, path t p -> isLeaf (List.last p t) -> List.NoDup (List.map id p).

(** Documents on which nothing the builder does can throw: no entity is
    [null], no part list holds [null], and a name, where there is one that
    counts, is a string. *)
Definition stringOrFalsy (v : option json) : Prop :=
  match v with
  | Some (JStr _) => True
  | Some x => truthy x = false
  | None => True
  end.

Definition plainEntity (e : json) : Prop :=
  e <> JNull /\
  stringOrFalsy (getPropOpt e "name") /\
  Forall (fun part => part <> JNull) (partsOf (Some e)).

(** The entity of the cycle scenario and a document made of it. *)
Definition selfReferencing (ident : string) : json :=
  JObj [("@id", JStr ident); ("hasPart", JArr [JObj [("@id", JStr ident)]])].

(** The graph of the two-entity scenario: a root with one file part. *)
Definition scenarioGraph : list json :=
  [ JObj [("@id", JStr "./"); ("hasPart", JArr [JObj [("@id", JStr "a.txt")]])];
    JObj [("@id", JStr "a.txt"); ("@type", JStr "File")] ].

(** The order of the code points, which is the order of the encoded bytes:
    a [localeCompare] for the examples. *)
Definition codeUnitCompare (a b : string) : Z :=
  match String.compare a b with
  | Lt => (-1)%Z
  | Eq => 0%Z
  | Gt => 1%Z
  end.

(** *** Order and content of the children *)

(** [a.type === "Dataset"], the test of the comparator. *)
Definition isFolderNode (n : TreeNode) : bool := isStr (type n) "Dataset".

(** A list in which the folders come before everything else. *)
Definition foldersFirst (l : list TreeNode) : Prop :=
  exists folders others,
    l = (folders ++ others)%list /\
    Forall (fun n => isFolderNode n = true) folders /\
    Forall (fun n => isFolderNode n = false) others.

(** The identifiers a part list refers to: those of its elements whose
    [part["@id"] ? part["@id"] : part] is a string. *)
Definition partIds (parts : list json) : list string :=
  List.flat_map (fun part => match partId part with
                             | Ok (JStr s) => [s]
                             | _ => []
                             end) parts.

End FileTree.

(** ** Link hints ([buildLinkedDataHints] in src/App.vue) *)

Module LinkHints.

(** [{ propIri?: string; valueIris: string[] }] *)
Record Hint : Type := mkHint {
  propIri : option string;
  valueIris : list string
}.

(** [Object.keys(v)] for a value that is not [null]. *)
Definition objectKeys (v : json) : list string :=
  match v with
  | JObj fields => List.map fst fields
  | JArr items => List.map (fun i : nat => pretty i) (seq 0 (length items))
  | JStr s => List.map (fun i : nat => pretty i) (seq 0 (utf16Length s))
  | _ => []
  end.

(** [Object.fromEntries(entries)]: a later entry replaces an earlier one. *)
Definition fromEntries {V} (entries : list (string * V)) : gmap string V :=
  list_to_map (List.rev entries).

(** [{ "@context": context, [propName]: "x" }] *)
Definition probe (context : json) (propName : string) : json :=
  if String.eqb propName "@context" then JObj [("@context", JStr "x")]
  else JObj [("@context", context); (propName, JStr "x")].

(** What [expandProperty] makes of the outcome of the expansion of a probe:
    the first key of the first node that does not start with ["@"], and
    [undefined] when the expansion was rejected. *)
Definition iriOfExpansion (outcome : Res (list jobject)) : option string :=
  match outcome with
  | Ok expanded =>
      let node := match expanded with n :: _ => n | [] => [] end in
      List.find (fun k => negb (startsWith k "@")) (List.map fst node)
  | _ => None
  end.

(** The [@id]s of the values of [propIri] in the expanded node that are
    objects. *)
Definition valueIrisOf (expandedNode : jobject) (iri : option string) : list string :=
  match iri with
  | Some i =>
      if strNonEmpty i
      then match lookupField i expandedNode with
           | Some (JArr vs) =>
               List.concat
                 (List.map (fun v => match getPropOpt v "@id" with
                                     | Some (JStr s) => [s]
                                     | _ => []
                                     end) vs)
           | _ => []
           end
      else []
  | None => []
  end.

(** The hint of a property, given the outcome of the expansion of its
    probe. *)
Definition hintOf (outcome : Res (list jobject)) (expandedNode : jobject) : Hint :=
  {| propIri := iriOfExpansion outcome;
     valueIris := valueIrisOf expandedNode (iriOfExpansion outcome) |}.

(** [expandedNodes.find((n) => n["@id"] === entity["@id"]) || {}] *)
Definition expandedNodeFor (expandedNodes : list jobject) (eid : option json) : jobject :=
  match List.find (fun n => strictEq (lookupField "@id" n) eid) expandedNodes with
  | Some n => n
  | None => []
  end.

(** [Object.keys(entity).filter((k) => k !== "@id" && k !== "@type")] *)
Definition propsOf (entity : json) : list string :=
  List.filter (fun k => negb (String.eqb k "@id") && negb (String.eqb k "@type"))
              (objectKeys entity).

(** The key [hints[entity["@id"]]] is stored under. *)
Definition hintKey (eid : option json) : string := jsToStringOpt eid.

(** [for (const entity of json["@graph"] || [])] *)
Definition graphEntities (graph : option json) : Res (list json) :=
  match graph with
  | Some (JArr items) => Ok items
  | Some (JStr s) => Ok (List.map JStr (codePoints s))
  | Some v => if truthy v then Throw "TypeError: object is not iterable" else Ok []
  | None => Ok []
  end.

Section Resolver.

(** [jsonld.expand]: it resolves to an array of node objects or is
    rejected. *)
Variable expand : json -> Res (list jobject).

Variable context : json.

(** [expandProperty(propName)], with [propertyCache] threaded. *)
Definition expandProperty (cache : gmap string (option string)) (propName : string)
    : gmap string (option string) * option string :=
  match cache !! propName with
  | Some iri => (cache, iri)
  | None =>
      let iri := iriOfExpansion (expand (probe context propName)) in
      (<[propName := iri]> cache, iri)
  end.

(** The entries of one entity.  The properties of an entity are distinct,
    so that awaiting them together or one after the other is the same. *)
Fixpoint expandAll (props : list string) (expandedNode : jobject)
    (cache : gmap string (option string))
    : gmap string (option string) * list (string * Hint) :=
  match props with
  | [] => (cache, [])
  | propName :: rest =>
      let '(cache1, iri) := expandProperty cache propName in
      let '(cache2, entries) := expandAll rest expandedNode cache1 in
      (cache2,
       (propName, {| propIri := iri; valueIris := valueIrisOf expandedNode iri |})
         :: entries)
  end.

Fixpoint hintsLoop (expandedNodes : list jobject) (entities : list json)
    (cache : gmap string (option string))
    (hints : gmap string (gmap string Hint))
    : Res (gmap string (gmap string Hint)) :=
  match entities with
  | [] => Ok hints
  | entity :: rest =>
      let* eid := getProp entity "@id" in
      let expandedNode := expandedNodeFor expandedNodes eid in
      let '(cache', entries) := expandAll (propsOf entity) expandedNode cache in
      hintsLoop expandedNodes rest cache'
                (<[hintKey eid := fromEntries entries]> hints)
  end.

(** What the cache holds is what a fresh expansion would give. *)
Definition cacheOk (cache : gmap string (option string)) : Prop :=
  forall p iri, cache !! p = Some iri ->
                iri = iriOfExpansion (expand (probe context p)).

(** The hints of one entity with every probe expanded afresh, and the
    structure the loop is to produce, for comparison with the cached
    computation. *)
Definition entityHints (expandedNodes : list jobject) (entity : json)
    : gmap string Hint :=
  fromEntries
    (List.map (fun propName =>
                 (propName,
                  hintOf (expand (probe context propName))
                         (expandedNodeFor expandedNodes (getPropOpt entity "@id"))))
              (propsOf entity)).

Definition recordEntity (expandedNodes : list jobject)
    (hints : gmap string (gmap string Hint)) (entity : json)
    : gmap string (gmap string Hint) :=
  <[hintKey (getPropOpt entity "@id") := entityHints expandedNodes entity]> hints.

End Resolver.

(** [buildLinkedDataHints(json, expandedNodes)] *)
Definition buildLinkedDataHints (expand : json -> Res (list jobject))
    (doc : json) (expandedNodes : list jobject)
    : Res (gmap string (gmap string Hint)) :=
  let* context := getProp doc "@context" in
  match context with
  | Some ctx =>
      if truthy ctx
      then
        let* graph := getProp doc "@graph" in
        let* entities := graphEntities graph in
        hintsLoop expand ctx expandedNodes entities ∅ ∅
      else Ok ∅
  | None => Ok ∅
  end.

(** The behaviour on a missing context in the words of the description: the
    hint of the property is there, with no value IRI. *)
Definition recordedEmpty (hints : gmap string (gmap string Hint))
    (entityKey propName : string) : Prop :=
  exists m h, hints !! entityKey = Some m /\ m !! propName = Some h /\
              valueIris h = [].

(** A document with a context and one without. *)
Definition withContext : jobject :=
  [("@context", JStr "https://w3id.org/ro/crate/1.1/context");
   ("@graph", JArr [JObj [("@id", JStr "./"); ("name", JStr "crate")]])].

Definition withoutContext : jobject :=
  [("@context", JNull);
   ("@graph", JArr [JObj [("@id", JStr "./"); ("name", JStr "crate")]])].

(** An expansion service that rejects everything. *)
Definition rejectingExpand (doc : json) : Res (list jobject) :=
  Throw "jsonld.SyntaxError".

End LinkHints.

(** ** Navigation and cache (the script of src/App.vue) *)

Module App.

(** *** Collaborators *)

(** A parsed [URL]: what precedes the path, the path, and what follows it.
    Parsing is left to the host; reading [href] and assigning [pathname] are
    concatenation and replacement. *)
Record URLObj : Type := mkURL {
  origin : string;
  pathname : string;
  search : string
}.

Definition href (u : URLObj) : string := origin u ++ pathname u ++ search u.

Definition setPathname (p : string) (u : URLObj) : URLObj :=
  {| origin := origin u; pathname := p; search := search u |}.

(** An [ROCrate] instance, as far as the script looks into it. *)
Record CrateInstance : Type := mkCrate {
  rootDataset : option json
}.

(** The answer of the indexing service to [POST /crates/url]: the request is
    rejected; or the response is ok and its summary names a crate or cannot
    be read; or it is not ok, in which case [alreadyIndexed] is the crate
    identifier found in the message of a 409 answer, if any. *)
Inductive PostResponse : Type :=
| PostRejected (msg : string)
| PostOk (crate_id : Res string)
| PostNotOk (status : string) (alreadyIndexed : option string).

Record Env : Type := mkEnv {
  isStateless : bool;
  indexingServiceUrl : string;
  corsProxyUrl : string;
  httpGet : string -> CrateLoader.HttpResponse;
  postCrateUrl : string -> PostResponse;
  encodeURIComponent : string -> string;
  newURL : string -> option string -> option URLObj;
  expand : json -> Res (list jobject);
  newROCrate : json -> Res CrateInstance
}.

(** *** State *)

Record HistoryItem : Type := mkHistory {
  name : json;
  url : option string
}.

Record CachedCrate : Type := mkCached {
  json_ : json;
  entities : list json;
  cachedExpandedCrate : list jobject;
  cachedLinkedDataHints : gmap string (gmap string LinkHints.Hint);
  crateName : json
}.

(** The refs of the script and the two module-level variables of the search
    service.  [fullCrateJson] keeps the value that is stringified, and
    [selectedEntityData] the entity the view record is extracted from. *)
Record AppState : Type := mkState {
  inputUrl : string;
  currentUrl : option string;
  crate : option CrateInstance;
  currentCrateName : json;
  historyStack : list HistoryItem;
  allEntities : list json;
  expandedCrate : list jobject;
  linkedDataHints : gmap string (gmap string LinkHints.Hint);
  selectedEntityId : string;
  selectedEntityData : option json;
  crateCache : gmap string CachedCrate;
  rootCrateUrl : option string;
  fullCrateJson : option json;
  isLoading : bool;
  baseUrl : string;
  errorMsg : option string;
  searchIndex : SearchService.IndexState
}.

Definition set_inputUrl (v : string) (st : AppState) : AppState :=
  {| inputUrl := v; currentUrl := currentUrl st; crate := crate st;
     currentCrateName := currentCrateName st; historyStack := historyStack
     st; allEntities := allEntities st; expandedCrate := expandedCrate st;
     linkedDataHints := linkedDataHints st; selectedEntityId :=
     selectedEntityId st; selectedEntityData := selectedEntityData st;
     crateCache := crateCache st; rootCrateUrl := rootCrateUrl st;
     fullCrateJson := fullCrateJson st; isLoading := isLoading st; baseUrl
     := baseUrl st; errorMsg := errorMsg st; searchIndex := searchIndex st
     |}.

Definition set_currentUrl (v : option string) (st : AppState) : AppState :=
  {| inputUrl := inputUrl st; currentUrl := v; crate := crate st;
     currentCrateName := currentCrateName st; historyStack := historyStack
     st; allEntities := allEntities st; expandedCrate := expandedCrate st;
     linkedDataHints := linkedDataHints st; selectedEntityId :=
     selectedEntityId st; selectedEntityData := selectedEntityData st;
     crateCache := crateCache st; rootCrateUrl := rootCrateUrl st;
     fullCrateJson := fullCrateJson st; isLoading := isLoading st; baseUrl
     := baseUrl st; errorMsg := errorMsg st; searchIndex := searchIndex st
     |}.

Definition set_crate (v : option CrateInstance) (st : AppState) : AppState :=
  {| inputUrl := inputUrl st; currentUrl := currentUrl st; crate := v;
     currentCrateName := currentCrateName st; historyStack := historyStack
     st; allEntities := allEntities st; expandedCrate := expandedCrate st;
     linkedDataHints := linkedDataHints st; selectedEntityId :=
     selectedEntityId st; selectedEntityData := selectedEntityData st;
     crateCache := crateCache st; rootCrateUrl := rootCrateUrl st;
     fullCrateJson := fullCrateJson st; isLoading := isLoading st; baseUrl
     := baseUrl st; errorMsg := errorMsg st; searchIndex := searchIndex st
     |}.

Definition set_currentCrateName (v : json) (st : AppState) : AppState :=
  {| inputUrl := inputUrl st; currentUrl := currentUrl st; crate := crate
     st; currentCrateName := v; historyStack := historyStack st; allEntities
     := allEntities st; expandedCrate := expandedCrate st; linkedDataHints
     := linkedDataHints st; selectedEntityId := selectedEntityId st;
     selectedEntityData := selectedEntityData st; crateCache := crateCache
     st; rootCrateUrl := rootCrateUrl st; fullCrateJson := fullCrateJson st;
     isLoading := isLoading st; baseUrl := baseUrl st; errorMsg := errorMsg
     st; searchIndex := searchIndex st |}.

Definition set_historyStack (v : list HistoryItem) (st : AppState) : AppState :=
  {| inputUrl := inputUrl st; currentUrl := currentUrl st; crate := crate
     st; currentCrateName := currentCrateName st; historyStack := v;
     allEntities := allEntities st; expandedCrate := expandedCrate st;
     linkedDataHints := linkedDataHints st; selectedEntityId :=
     selectedEntityId st; selectedEntityData := selectedEntityData st;
     crateCache := crateCache st; rootCrateUrl := rootCrateUrl st;
     fullCrateJson := fullCrateJson st; isLoading := isLoading st; baseUrl
     := baseUrl st; errorMsg := errorMsg st; searchIndex := searchIndex st
     |}.

Definition set_allEntities (v : list json) (st : AppState) : AppState :=
  {| inputUrl := inputUrl st; currentUrl := currentUrl st; crate := crate
     st; currentCrateName := currentCrateName st; historyStack :=
     historyStack st; allEntities := v; expandedCrate := expandedCrate st;
     linkedDataHints := linkedDataHints st; selectedEntityId :=
     selectedEntityId st; selectedEntityData := selectedEntityData st;
     crateCache := crateCache st; rootCrateUrl := rootCrateUrl st;
     fullCrateJson := fullCrateJson st; isLoading := isLoading st; baseUrl
     := baseUrl st; errorMsg := errorMsg st; searchIndex := searchIndex st
     |}.

Definition set_expandedCrate (v : list jobject) (st : AppState) : AppState :=
  {| inputUrl := inputUrl st; currentUrl := currentUrl st; crate := crate
     st; currentCrateName := currentCrateName st; historyStack :=
     historyStack st; allEntities := allEntities st; expandedCrate := v;
     linkedDataHints := linkedDataHints st; selectedEntityId :=
     selectedEntityId st; selectedEntityData := selectedEntityData st;
     crateCache := crateCache st; rootCrateUrl := rootCrateUrl st;
     fullCrateJson := fullCrateJson st; isLoading := isLoading st; baseUrl
     := baseUrl st; errorMsg := errorMsg st; searchIndex := searchIndex st
     |}.

Definition set_linkedDataHints (v : gmap string (gmap string LinkHints.Hint)) (st : AppState) : AppState :=
  {| inputUrl := inputUrl st; currentUrl := currentUrl st; crate := crate
     st; currentCrateName := currentCrateName st; historyStack :=
     historyStack st; allEntities := allEntities st; expandedCrate :=
     expandedCrate st; linkedDataHints := v; selectedEntityId :=
     selectedEntityId st; selectedEntityData := selectedEntityData st;
     crateCache := crateCache st; rootCrateUrl := rootCrateUrl st;
     fullCrateJson := fullCrateJson st; isLoading := isLoading st; baseUrl
     := baseUrl st; errorMsg := errorMsg st; searchIndex := searchIndex st
     |}.

Definition set_selectedEntityId (v : string) (st : AppState) : AppState :=
  {| inputUrl := inputUrl st; currentUrl := currentUrl st; crate := crate
     st; currentCrateName := currentCrateName st; historyStack :=
     historyStack st; allEntities := allEntities st; expandedCrate :=
     expandedCrate st; linkedDataHints := linkedDataHints st;
     selectedEntityId := v; selectedEntityData := selectedEntityData st;
     crateCache := crateCache st; rootCrateUrl := rootCrateUrl st;
     fullCrateJson := fullCrateJson st; isLoading := isLoading st; baseUrl
     := baseUrl st; errorMsg := errorMsg st; searchIndex := searchIndex st
     |}.

Definition set_selectedEntityData (v : option json) (st : AppState) : AppState :=
  {| inputUrl := inputUrl st; currentUrl := currentUrl st; crate := crate
     st; currentCrateName := currentCrateName st; historyStack :=
     historyStack st; allEntities := allEntities st; expandedCrate :=
     expandedCrate st; linkedDataHints := linkedDataHints st;
     selectedEntityId := selectedEntityId st; selectedEntityData := v;
     crateCache := crateCache st; rootCrateUrl := rootCrateUrl st;
     fullCrateJson := fullCrateJson st; isLoading := isLoading st; baseUrl
     := baseUrl st; errorMsg := errorMsg st; searchIndex := searchIndex st
     |}.

Definition set_crateCache (v : gmap string CachedCrate) (st : AppState) : AppState :=
  {| inputUrl := inputUrl st; currentUrl := currentUrl st; crate := crate
     st; currentCrateName := currentCrateName st; historyStack :=
     historyStack st; allEntities := allEntities st; expandedCrate :=
     expandedCrate st; linkedDataHints := linkedDataHints st;
     selectedEntityId := selectedEntityId st; selectedEntityData :=
     selectedEntityData st; crateCache := v; rootCrateUrl := rootCrateUrl
     st; fullCrateJson := fullCrateJson st; isLoading := isLoading st;
     baseUrl := baseUrl st; errorMsg := errorMsg st; searchIndex :=
     searchIndex st |}.

Definition set_rootCrateUrl (v : option string) (st : AppState) : AppState :=
  {| inputUrl := inputUrl st; currentUrl := currentUrl st; crate := crate
     st; currentCrateName := currentCrateName st; historyStack :=
     historyStack st; allEntities := allEntities st; expandedCrate :=
     expandedCrate st; linkedDataHints := linkedDataHints st;
     selectedEntityId := selectedEntityId st; selectedEntityData :=
     selectedEntityData st; crateCache := crateCache st; rootCrateUrl := v;
     fullCrateJson := fullCrateJson st; isLoading := isLoading st; baseUrl
     := baseUrl st; errorMsg := errorMsg st; searchIndex := searchIndex st
     |}.

Definition set_fullCrateJson (v : option json) (st : AppState) : AppState :=
  {| inputUrl := inputUrl st; currentUrl := currentUrl st; crate := crate
     st; currentCrateName := currentCrateName st; historyStack :=
     historyStack st; allEntities := allEntities st; expandedCrate :=
     expandedCrate st; linkedDataHints := linkedDataHints st;
     selectedEntityId := selectedEntityId st; selectedEntityData :=
     selectedEntityData st; crateCache := crateCache st; rootCrateUrl :=
     rootCrateUrl st; fullCrateJson := v; isLoading := isLoading st; baseUrl
     := baseUrl st; errorMsg := errorMsg st; searchIndex := searchIndex st
     |}.

Definition set_isLoading (v : bool) (st : AppState) : AppState :=
  {| inputUrl := inputUrl st; currentUrl := currentUrl st; crate := crate
     st; currentCrateName := currentCrateName st; historyStack :=
     historyStack st; allEntities := allEntities st; expandedCrate :=
     expandedCrate st; linkedDataHints := linkedDataHints st;
     selectedEntityId := selectedEntityId st; selectedEntityData :=
     selectedEntityData st; crateCache := crateCache st; rootCrateUrl :=
     rootCrateUrl st; fullCrateJson := fullCrateJson st; isLoading := v;
     baseUrl := baseUrl st; errorMsg := errorMsg st; searchIndex :=
     searchIndex st |}.

Definition set_baseUrl (v : string) (st : AppState) : AppState :=
  {| inputUrl := inputUrl st; currentUrl := currentUrl st; crate := crate
     st; currentCrateName := currentCrateName st; historyStack :=
     historyStack st; allEntities := allEntities st; expandedCrate :=
     expandedCrate st; linkedDataHints := linkedDataHints st;
     selectedEntityId := selectedEntityId st; selectedEntityData :=
     selectedEntityData st; crateCache := crateCache st; rootCrateUrl :=
     rootCrateUrl st; fullCrateJson := fullCrateJson st; isLoading :=
     isLoading st; baseUrl := v; errorMsg := errorMsg st; searchIndex :=
     searchIndex st |}.

Definition set_errorMsg (v : option string) (st : AppState) : AppState :=
  {| inputUrl := inputUrl st; currentUrl := currentUrl st; crate := crate
     st; currentCrateName := currentCrateName st; historyStack :=
     historyStack st; allEntities := allEntities st; expandedCrate :=
     expandedCrate st; linkedDataHints := linkedDataHints st;
     selectedEntityId := selectedEntityId st; selectedEntityData :=
     selectedEntityData st; crateCache := crateCache st; rootCrateUrl :=
     rootCrateUrl st; fullCrateJson := fullCrateJson st; isLoading :=
     isLoading st; baseUrl := baseUrl st; errorMsg := v; searchIndex :=
     searchIndex st |}.

Definition set_searchIndex (v : SearchService.IndexState) (st : AppState) : AppState :=
  {| inputUrl := inputUrl st; currentUrl := currentUrl st; crate := crate
     st; currentCrateName := currentCrateName st; historyStack :=
     historyStack st; allEntities := allEntities st; expandedCrate :=
     expandedCrate st; linkedDataHints := linkedDataHints st;
     selectedEntityId := selectedEntityId st; selectedEntityData :=
     selectedEntityData st; crateCache := crateCache st; rootCrateUrl :=
     rootCrateUrl st; fullCrateJson := fullCrateJson st; isLoading :=
     isLoading st; baseUrl := baseUrl st; errorMsg := errorMsg st;
     searchIndex := v |}.

Definition initialState : AppState :=
  {| inputUrl := "https://rocrate.s3.computational.bio.uni-giessen.de/ro-crate-metadata.json";
     currentUrl := None; crate := None; currentCrateName := JStr "Root";
     historyStack := []; allEntities := []; expandedCrate := [];
     linkedDataHints := ∅; selectedEntityId := "./"; selectedEntityData := None;
     crateCache := ∅; rootCrateUrl := None; fullCrateJson := None;
     isLoading := false; baseUrl := ""; errorMsg := None;
     searchIndex := SearchService.initialIndex |}.

(** What an operation came to.  The script returns nothing; this value is
    kept for the statements about it. *)
Inductive Outcome : Type :=
| Ignored
| FetchFailed (msg : string)
| ProcessFailed
| Navigated (locator : option string).

(** *** Statements over the state, with exceptions *)

Definition M (A : Type) : Type := AppState -> AppState * Res A.

Definition ret {A} (a : A) : M A := fun st => (st, Ok a).

Definition bind {A B} (m : M A) (k : A -> M B) : M B :=
  fun st =>
    match m st with
    | (st', Ok a) => k a st'
    | (st', Throw e) => (st', Throw e)
    | (st', NoFuel) => (st', NoFuel)
    end.

Definition get {A} (f : AppState -> A) : M A := fun st => (st, Ok (f st)).

Definition modify (f : AppState -> AppState) : M unit := fun st => (f st, Ok tt).

Definition liftRes {A} (r : Res A) : M A := fun st => (st, r).

Definition throw {A} (msg : string) : M A := fun st => (st, Throw msg).

(** [try { m } catch (e) { handler e }] *)
Definition tryCatch {A} (m : M A) (handler : string -> M A) : M A :=
  fun st =>
    match m st with
    | (st', Throw e) => handler e st'
    | r => r
    end.

Declare Scope app_scope.
Delimit Scope app_scope with app.
Notation "x <- m ;; k" := (bind m (fun x => k))
  (at level 20, m at level 99, k at level 200, only parsing) : app_scope.
Notation "m ;; k" := (bind m (fun _ => k))
  (at level 100, k at level 200, only parsing, right associativity) : app_scope.
Local Open Scope app_scope.

(** A string that is not [null] and not empty. *)
Definition truthyUrl (u : option string) : option string :=
  match u with
  | Some s => if strNonEmpty s then Some s else None
  | None => None
  end.

(** *** Helpers of the script *)

(** [getSafeName(entity, fallback)] *)
Definition getSafeName (entity : option json) (fallback : string) : json :=
  match entity with
  | Some e =>
      if truthy e
      then
        let name0 := getPropOpt e "name" in
        let name1 := match name0 with
                     | Some (JArr (first :: _)) => Some first
                     | _ => name0
                     end in
        let orId := match getPropOpt e "@id" with
                    | Some i => if truthy i then i else JStr fallback
                    | None => JStr fallback
                    end in
        match name1 with
        | Some (JStr s) => if strNonEmpty s then JStr s else orId
        | _ => orId
        end
      else JStr fallback
  | None => JStr fallback
  end.

(** [{...obj, [k]: v}] *)
Fixpoint setField (k : string) (v : json) (fields : jobject) : jobject :=
  match fields with
  | [] => [(k, v)]
  | (k', v') :: rest =>
      if String.eqb k k' then (k, v) :: rest else (k', v') :: setField k v rest
  end.

(** [x?.["@id"] || x] *)
Definition idOrSelf (x : option json) : option json :=
  match x with
  | Some v => let i := getPropOpt v "@id" in if truthyOpt i then i else x
  | None => None
  end.

(** The callback of [graph.findIndex] in [normalizeDescriptorName]. *)
Definition isDescriptor (entity : json) : Res bool :=
  let* ty := getProp entity "@type" in
  if negb (isStr ty "CreativeWork") then Ok false
  else
    let conformsToId := idOrSelf (getPropOpt entity "conformsTo") in
    if negb (truthyOpt conformsToId)
       || negb (includes (jsToStringOpt conformsToId) "ro/crate")
    then Ok false
    else
      let aboutId := idOrSelf (getPropOpt entity "about") in
      Ok (isStr aboutId "./" || isStr aboutId ".").

(** [graph.findIndex(...)]; the graph with the descriptor renamed, if one is
    found under another name. *)
Fixpoint renameDescriptor (graph : list json) : Res (option (list json)) :=
  match graph with
  | [] => Ok None
  | entity :: rest =>
      let* found := isDescriptor entity in
      if found
      then
        match entity with
        | JObj fields =>
            if isStr (lookupField "@id" fields) "ro-crate-metadata.json"
            then Ok None
            else Ok (Some (JObj (setField "@id" (JStr "ro-crate-metadata.json") fields)
                             :: rest))
        | _ => Ok None
        end
      else
        let* rest' := renameDescriptor rest in
        Ok (option_map (cons entity) rest')
  end.

(** [normalizeDescriptorName(json)] *)
Definition normalizeDescriptorName (doc : json) : Res json :=
  if negb (truthy doc) then Ok doc
  else
    let* graph := getProp doc "@graph" in
    if negb (truthyOpt graph) then Ok doc
    else
      match doc, graph with
      | JObj fields, Some (JArr items) =>
          let* renamed := renameDescriptor items in
          match renamed with
          | Some newGraph => Ok (JObj (setField "@graph" (JArr newGraph) fields))
          | None => Ok doc
          end
      | _, _ => Throw "TypeError: graph.findIndex is not a function"
      end.

(** [allEntities.value.find((e) => e["@id"] === id)] *)
Fixpoint findEntity (ident : string) (ents : list json) : Res (option json) :=
  match ents with
  | [] => Ok None
  | e :: rest =>
      let* i := getProp e "@id" in
      if isStr i ident then Ok (Some e) else findEntity ident rest
  end.

Definition truthyJson (v : option json) : option json :=
  match v with
  | Some x => if truthy x then Some x else None
  | None => None
  end.

(** [crate.value?.rootDataset] *)
Definition rootDatasetOf (st : AppState) : option json :=
  match crate st with
  | Some inst => rootDataset inst
  | None => None
  end.

(** [updateSelectedEntityView()] *)
Definition updateSelectedEntityView : M unit :=
  st <- get (fun st => st) ;;
  found <- liftRes (findEntity (selectedEntityId st) (allEntities st)) ;;
  entity <-
    match truthyJson found with
    | Some e => ret (Some e)
    | None =>
        if String.eqb (selectedEntityId st) "./" || String.eqb (selectedEntityId st) "."
        then
          match truthyJson (rootDatasetOf st) with
          | Some e => ret (Some e)
          | None => liftRes (FileTree.findRootEntity (allEntities st))
          end
        else ret found
    end ;;
  modify (set_selectedEntityData (truthyJson entity)).

(** [updateBreadcrumbsForCrate(crateUrl)] *)
Definition updateBreadcrumbsForCrate (crateUrl : option string) : M unit :=
  root <- get rootCrateUrl ;;
  match truthyUrl crateUrl, truthyUrl root with
  | Some u, Some r =>
      if String.eqb u r then modify (set_historyStack []) else ret tt
  | _, _ => modify (set_historyStack [])
  end.

(** The computed [fileTree] of a state. *)
Definition fileTreeOf (arraySort : FileTree.ArraySort)
    (localeCompare : string -> string -> Z) (st : AppState)
    : Res FileTree.TreeNode :=
  FileTree.fileTree arraySort localeCompare (rootDatasetOf st) (allEntities st)
    (currentCrateName st).

(** *** Processing a package *)

Section WithEnv.

Variable env : Env.

(** [try { new URL(x); pathname with a trailing slash; href } catch { x with
    a trailing slash }], the block that computes [baseUrl]. *)
Definition directoryUrl (x : string) : string :=
  match newURL env x None with
  | Some u => href (setPathname (CrateLoader.withTrailingSlash (pathname u)) u)
  | None => CrateLoader.withTrailingSlash x
  end.

(** [isFirstCrate ? buildSearchIndex(...) : addToIndex(...)] under
    [crateId = sourceUrl || 'primary']. *)
Definition indexEntities (isFirstCrate : bool) (sourceUrl : option string) : M unit :=
  fun st =>
    let crateId := match truthyUrl sourceUrl with
                   | Some u => u
                   | None => "primary"
                   end in
    let '(ix, r) :=
      if isFirstCrate
      then SearchService.buildSearchIndex (searchIndex st) (allEntities st) crateId
      else SearchService.addToIndex (searchIndex st) (allEntities st) crateId in
    (set_searchIndex ix st, r).

(** The inner [try]/[catch] around the expansion: the values the refs
    [expandedCrate] and [linkedDataHints] end with, and the ones the local
    variables [expanded] and [hints] end with. *)
Definition expandAndHint (doc : json)
    : (list jobject * gmap string (gmap string LinkHints.Hint))
      * (list jobject * gmap string (gmap string LinkHints.Hint)) :=
  match expand env doc with
  | Ok expanded =>
      match LinkHints.buildLinkedDataHints (expand env) doc expanded with
      | Ok hints => ((expanded, hints), (expanded, hints))
      | _ => (([], ∅), (expanded, ∅))
      end
  | _ => (([], ∅), ([], ∅))
  end.

(** [allEntities.value = json["@graph"] || []].  The ref is declared an
    array, and no other value reaches the assignment: it stands after the
    call of [normalizeDescriptorName], which throws on a graph that is
    truthy and not an array, where [graph.findIndex] is not a function.
    In [processCrateData] the case of such a graph is therefore never
    taken, in the script as here (lemma [RootFacts.graphOf_of_normalized]);
    it stands in the definition because the function is total. *)
Definition graphOf (doc : json) : Res (list json) :=
  let* graph := getProp doc "@graph" in
  match graph with
  | Some (JArr items) => Ok items
  | Some v => if truthy v then Throw "TypeError: allEntities is not an array" else Ok []
  | None => Ok []
  end.

(** The statements of [processCrateData] inside its [try]. *)
Definition processCrateData_body (doc : json) (sourceName : string)
    (sourceUrl : option string) (isFirstCrate : bool) : M unit :=
  (if isFirstCrate
   then match truthyUrl sourceUrl with
        | Some _ => modify (set_rootCrateUrl sourceUrl)
        | None => ret tt
        end
   else ret tt) ;;
  cache <- get crateCache ;;
  match match truthyUrl sourceUrl with
        | Some u => cache !! u
        | None => None
        end with
  | Some cachedData =>
      modify (set_allEntities (entities cachedData)) ;;
      modify (set_expandedCrate (cachedExpandedCrate cachedData)) ;;
      modify (set_linkedDataHints (cachedLinkedDataHints cachedData)) ;;
      modify (set_currentCrateName (crateName cachedData)) ;;
      modify (set_fullCrateJson (Some (json_ cachedData))) ;;
      modify (set_currentUrl sourceUrl) ;;
      normalizedJson <- liftRes (normalizeDescriptorName (json_ cachedData)) ;;
      inst <- liftRes (newROCrate env normalizedJson) ;;
      modify (set_crate (Some inst)) ;;
      indexEntities isFirstCrate sourceUrl ;;
      modify (set_selectedEntityId "./") ;;
      updateSelectedEntityView ;;
      updateBreadcrumbsForCrate sourceUrl
  | None =>
      modify (set_allEntities []) ;;
      modify (set_selectedEntityId "./") ;;
      modify (set_selectedEntityData None) ;;
      normalizedJson <- liftRes (normalizeDescriptorName doc) ;;
      inst <- liftRes (newROCrate env normalizedJson) ;;
      modify (set_crate (Some inst)) ;;
      graph <- liftRes (graphOf doc) ;;
      modify (set_allEntities graph) ;;
      modify (set_fullCrateJson (Some doc)) ;;
      modify (set_currentUrl sourceUrl) ;;
      indexEntities isFirstCrate sourceUrl ;;
      let '((expandedRef, hintsRef), (expanded, hints)) := expandAndHint doc in
      modify (set_expandedCrate expandedRef) ;;
      modify (set_linkedDataHints hintsRef) ;;
      found <- liftRes (FileTree.findRootEntity graph) ;;
      rootEntity <- get (fun st => match truthyJson found with
                                   | Some e => Some e
                                   | None => rootDatasetOf st
                                   end) ;;
      modify (set_currentCrateName (getSafeName rootEntity sourceName)) ;;
      (match truthyUrl sourceUrl with
       | Some u =>
           modify (fun st =>
                     set_crateCache
                       (<[u := {| json_ := doc; entities := allEntities st;
                                  cachedExpandedCrate := expanded;
                                  cachedLinkedDataHints := hints;
                                  crateName := currentCrateName st |}]>
                          (crateCache st)) st)
       | None => ret tt
       end) ;;
      updateSelectedEntityView ;;
      updateBreadcrumbsForCrate sourceUrl
  end.

(** [processCrateData(json, sourceName, sourceUrl, isFirstCrate)]; the
    value tells whether the [try] block ran to its end. *)
Definition processCrateData (doc : json) (sourceName : string)
    (sourceUrl : option string) (isFirstCrate : bool) : M bool :=
  tryCatch
    (processCrateData_body doc sourceName sourceUrl isFirstCrate ;; ret true)
    (fun e =>
       modify (set_errorMsg (Some ("Failed to process RO-Crate JSON: " ++ e))) ;;
       ret false).

Definition processed (sourceUrl : option string) (completed : bool) : Outcome :=
  if completed then Navigated sourceUrl else ProcessFailed.

(** [s.slice(0, -1)] *)
Fixpoint dropLast (s : string) : string :=
  match s with
  | EmptyString => EmptyString
  | String c EmptyString => EmptyString
  | String c r => String c (dropLast r)
  end.

(** [fetchMetadata(crateId, sourceName, sourceUrl, isFirstCrate)] *)
Definition fetchMetadata (crateId sourceName : string)
    (sourceUrl : option string) (isFirstCrate : bool) : M Outcome :=
  let apiCrateId := if endsWith crateId "/" then dropLast crateId else crateId in
  let metadataEndpoint :=
    indexingServiceUrl env ++ "/crates/" ++ encodeURIComponent env apiCrateId in
  match httpGet env metadataEndpoint with
  | CrateLoader.NetworkFailure m => throw ("Metadata fetch failed: " ++ m)
  | CrateLoader.Response false status _ =>
      throw ("Metadata fetch failed: Error fetching metadata (" ++ status ++ ")")
  | CrateLoader.Response true _ (Ok metadataJson) =>
      completed <- processCrateData metadataJson sourceName sourceUrl isFirstCrate ;;
      ret (processed sourceUrl completed)
  | CrateLoader.Response true _ (Throw m) => throw ("Metadata fetch failed: " ++ m)
  | CrateLoader.Response true _ NoFuel => liftRes NoFuel
  end.

(** *** Operations *)

Definition cachedJson (c : option CachedCrate) : option json :=
  match c with
  | Some cachedCrate =>
      if truthy (json_ cachedCrate) then Some (json_ cachedCrate) else None
  | None => None
  end.

(** [loadFromUrl()].  [fetchMetadata] starts [processCrateData] without
    awaiting it; no other operation runs in between, and the processing
    does not read [isLoading], so the order of the two is immaterial. *)
Definition loadFromUrl : M Outcome :=
  fetchUrl <- get inputUrl ;;
  if negb (strNonEmpty fetchUrl) then ret Ignored
  else
    modify (set_errorMsg None) ;;
    root <- get rootCrateUrl ;;
    let isFirstCrate := match root with None => true | Some _ => false end in
    cache <- get crateCache ;;
    match cachedJson (cache !! fetchUrl) with
    | Some doc =>
        modify (set_baseUrl (directoryUrl fetchUrl)) ;;
        completed <- processCrateData doc "Remote Crate (Cached)"
                       (Some fetchUrl) isFirstCrate ;;
        ret (processed (Some fetchUrl) completed)
    | None =>
        modify (set_isLoading true) ;;
        outcome <-
          tryCatch
            (if isStateless env
             then
               doc <- liftRes (CrateLoader.fetchCrateFromUrl (corsProxyUrl env)
                                 (httpGet env) fetchUrl) ;;
               modify (set_fullCrateJson (Some doc)) ;;
               modify (set_currentUrl (Some fetchUrl)) ;;
               modify (set_baseUrl (directoryUrl fetchUrl)) ;;
               completed <- processCrateData doc "Remote Crate"
                              (Some fetchUrl) isFirstCrate ;;
               ret (processed (Some fetchUrl) completed)
             else
               match postCrateUrl env fetchUrl with
               | PostRejected m => throw m
               | PostNotOk status (Some crateIdToFetch) =>
                   modify (set_baseUrl (directoryUrl crateIdToFetch)) ;;
                   fetchMetadata crateIdToFetch "Remote Crate (Indexed)"
                     (Some fetchUrl) isFirstCrate
               | PostNotOk status None =>
                   throw ("Server Error (" ++ status ++ ")")
               | PostOk (Ok crateId) =>
                   modify (set_baseUrl (directoryUrl crateId)) ;;
                   fetchMetadata crateId "Remote Crate" (Some fetchUrl) isFirstCrate
               | PostOk (Throw m) => throw m
               | PostOk NoFuel => liftRes NoFuel
               end)
            (fun e =>
               modify (set_errorMsg (Some ("Error loading URL: " ++ e))) ;;
               ret (FetchFailed e)) ;;
        modify (set_isLoading false) ;;
        ret outcome
    end.

(** The file name of a metadata document. *)
Definition metadataSuffix : string := "ro-crate-metadata.json".

(** The group captured by [/([^\/]+ro-crate-metadata\.json)$/i]: the text
    after the last slash, if it ends with the suffix and is longer. *)
Definition matchMetadataFilename (s : string) : option string :=
  let segment := List.last (splitOn "/" s) "" in
  if endsWith (toLowerCase segment) metadataSuffix
     && (String.length metadataSuffix <? String.length segment)%nat
  then Some segment else None.

(** The same for [/[\/\\]([^\/\\]+ro-crate-metadata\.json)$/i], which wants
    a slash or a backslash before the file name. *)
Definition matchFallbackFilename (s : string) : option string :=
  match rev (splitWhen (fun c => Ascii.eqb c "/" || Ascii.eqb c backslash) s) with
  | segment :: _ :: _ =>
      if endsWith (toLowerCase segment) metadataSuffix
         && (String.length metadataSuffix <? String.length segment)%nat
      then Some segment else None
  | _ => None
  end.

(** The resolution of a subcrate reference: the base location of the
    subcrate and the name of its metadata file. *)
Definition resolveSubcrate (base subcrateId : string) : string * string :=
  let resolvedUrl :=
    match newURL env subcrateId (Some base) with
    | Some fullUrl => href fullUrl
    | None => subcrateId
    end in
  let '(subcrateBaseUrl, metadataFilename) :=
    match newURL env resolvedUrl None with
    | Some urlObj =>
        match matchMetadataFilename (pathname urlObj) with
        | Some filename =>
            let pathParts := splitOn "/" (pathname urlObj) in
            let joined := join "/" (removelast pathParts) in
            (href (setPathname (CrateLoader.withTrailingSlash joined) urlObj),
             filename)
        | None => (CrateLoader.withTrailingSlash resolvedUrl, metadataSuffix)
        end
    | None =>
        match matchFallbackFilename resolvedUrl with
        | Some filename =>
            (String.substring 0
               (String.length resolvedUrl - String.length filename - 1)
               resolvedUrl ++ "/",
             filename)
        | None => (CrateLoader.withTrailingSlash resolvedUrl, metadataSuffix)
        end
    end in
  (if String.eqb subcrateBaseUrl "" then "." else subcrateBaseUrl,
   metadataFilename).

(** The first statement of [handleSubcrateOpen] past its guard: the active
    package goes onto the history stack. *)
Definition pushCurrent (st : AppState) : AppState :=
  match truthyUrl (currentUrl st), strNonEmpty (baseUrl st) with
  | Some u, _ =>
      set_historyStack
        (historyStack st ++ [{| name := currentCrateName st; url := Some u |}]) st
  | None, true =>
      set_historyStack
        (historyStack st
           ++ [{| name := currentCrateName st; url := Some (baseUrl st) |}]) st
  | None, false => st
  end.

(** [handleSubcrateOpen(subcrateId)] *)
Definition handleSubcrateOpen (subcrateId : string) : M Outcome :=
  base <- get baseUrl ;;
  if negb (strNonEmpty base) then ret Ignored
  else
    modify pushCurrent ;;
    let '(subcrateBaseUrl, metadataFilename) := resolveSubcrate base subcrateId in
    modify (set_errorMsg None) ;;
    let cacheKey := CrateLoader.withTrailingSlash subcrateBaseUrl in
    cache <- get crateCache ;;
    match (if isStateless env then cachedJson (cache !! cacheKey) else None) with
    | Some doc =>
        modify (set_baseUrl cacheKey) ;;
        modify (set_inputUrl subcrateBaseUrl) ;;
        modify (set_currentUrl (Some cacheKey)) ;;
        completed <- processCrateData doc "Subcrate (Cached)" (Some cacheKey) false ;;
        ret (processed (Some cacheKey) completed)
    | None =>
        modify (set_isLoading true) ;;
        outcome <-
          tryCatch
            (if isStateless env
             then
               let fetchUrl :=
                 if String.eqb subcrateBaseUrl "." then metadataFilename
                 else if endsWith (toLowerCase subcrateBaseUrl) metadataSuffix
                      then subcrateBaseUrl
                      else cacheKey ++ metadataFilename in
               doc <- liftRes (CrateLoader.fetchCrateFromUrl (corsProxyUrl env)
                                 (httpGet env) fetchUrl) ;;
               modify (set_baseUrl cacheKey) ;;
               modify (set_inputUrl subcrateBaseUrl) ;;
               modify (set_currentUrl (Some cacheKey)) ;;
               completed <- processCrateData doc "Subcrate" (Some cacheKey) false ;;
               ret (processed (Some cacheKey) completed)
             else
               let apiCrateId :=
                 if endsWith subcrateBaseUrl "/" then dropLast subcrateBaseUrl
                 else subcrateBaseUrl in
               modify (set_baseUrl cacheKey) ;;
               modify (set_inputUrl subcrateBaseUrl) ;;
               modify (set_currentUrl (Some cacheKey)) ;;
               fetchMetadata apiCrateId "Subcrate" (Some cacheKey) false)
            (fun e =>
               modify (set_errorMsg (Some ("Error loading subcrate: " ++ e))) ;;
               ret (FetchFailed e)) ;;
        modify (set_isLoading false) ;;
        ret outcome
    end.

(** [goToBreadcrumb(index)] *)
Definition goToBreadcrumb (index : nat) : M Outcome :=
  stack <- get historyStack ;;
  match stack !! index with
  | Some target =>
      match truthyUrl (url target) with
      | Some u =>
          modify (set_historyStack (firstn index stack)) ;;
          modify (set_inputUrl u) ;;
          loadFromUrl
      | None => ret Ignored
      end
  | None => ret Ignored
  end.

(** [goBack()] *)
Definition goBack : M Outcome :=
  stack <- get historyStack ;;
  match rev stack with
  | [] => ret Ignored
  | parent :: _ =>
      modify (set_historyStack (removelast stack)) ;;
      match truthyUrl (url parent) with
      | Some u => modify (set_inputUrl u) ;; loadFromUrl
      | None => ret Ignored
      end
  end.

(** The navigation operations. *)
Inductive Action : Type :=
| LoadFromUrl
| HandleSubcrateOpen (subcrateId : string)
| GoToBreadcrumb (index : nat)
| GoBack.

Definition run (a : Action) : M Outcome :=
  match a with
  | LoadFromUrl => loadFromUrl
  | HandleSubcrateOpen subcrateId => handleSubcrateOpen subcrateId
  | GoToBreadcrumb index => goToBreadcrumb index
  | GoBack => goBack
  end.

End WithEnv.

(** [resetApp()] *)
Definition resetApp (st : AppState) : AppState :=
  {| inputUrl := inputUrl initialState;
     currentUrl := None; crate := None; currentCrateName := currentCrateName st;
     historyStack := []; allEntities := []; expandedCrate := expandedCrate st;
     linkedDataHints := ∅; selectedEntityId := selectedEntityId st;
     selectedEntityData := selectedEntityData st;
     crateCache := ∅; rootCrateUrl := None; fullCrateJson := fullCrateJson st;
     isLoading := isLoading st; baseUrl := ""; errorMsg := None;
     searchIndex := SearchService.clearSearchIndex (searchIndex st) |}.

(** The part of the state that shows the active package. *)
Definition activeView (st : AppState)
    : list json * gmap string (gmap string LinkHints.Hint) * option string * string
      * option CrateInstance * json :=
  (allEntities st, linkedDataHints st, currentUrl st, baseUrl st, crate st,
   currentCrateName st).

(** *** What a completed processing leaves *)

(** The history stack after the breadcrumb update. *)
Definition homeStack (sourceUrl root : option string) (old : list HistoryItem)
    : list HistoryItem :=
  match truthyUrl sourceUrl, truthyUrl root with
  | Some c, Some r => if String.eqb c r then [] else old
  | _, _ => []
  end.

(** The recorded root after [if (isFirstCrate && sourceUrl)]. *)
Definition rootAfter (sourceUrl : option string) (isFirstCrate : bool)
    (root : option string) : option string :=
  if isFirstCrate
  then match truthyUrl sourceUrl with
       | Some _ => sourceUrl
       | None => root
       end
  else root.

(** [rootCrateUrl.value === null] *)
Definition isFirst (st : AppState) : bool :=
  match rootCrateUrl st with None => true | Some _ => false end.

(** Where a completed processing of [sourceUrl] started from [st0] has
    arrived. *)
Definition arrived (sourceUrl : option string) (isFirstCrate : bool)
    (st0 st' : AppState) : Prop :=
  currentUrl st' = sourceUrl /\
  baseUrl st' = baseUrl st0 /\
  inputUrl st' = inputUrl st0 /\
  rootCrateUrl st' = rootAfter sourceUrl isFirstCrate (rootCrateUrl st0) /\
  historyStack st' =
    homeStack sourceUrl (rootAfter sourceUrl isFirstCrate (rootCrateUrl st0))
      (historyStack st0).

(** *** Pasted text, uploaded files, selection *)

(** The answer of the indexing service to [POST /crates/upload]: the request
    is rejected; or the response is not ok, with its status and what
    [text()] gives; or it is ok and its summary names a crate or cannot be
    read. *)
Inductive UploadResponse : Type :=
| UploadRejected (msg : string)
| UploadNotOk (status : string) (errText : Res string)
| UploadOk (crate_id : Res string).

(** A search result as the script declares it. *)
Record Hit : Type := mkHit {
  hitEntityId : string;
  hitCrateId : string
}.

(** The refs of the search overlay. *)
Record SearchPanel : Type := mkPanel {
  isSearchOverlayOpen : bool;
  searchInput : string;
  searchResults : list Hit;
  searchErrorMsg : option string;
  hasSearched : bool
}.

(** [selectEntity(id)] *)
Definition selectEntity (ident : string) : M unit :=
  modify (set_selectedEntityId ident) ;;
  updateSelectedEntityView.

(** [allEntities.value.some(e => e["@id"] === entityId)] *)
Fixpoint someEntity (ident : string) (ents : list json) : Res bool :=
  match ents with
  | [] => Ok false
  | e :: rest =>
      let* i := getProp e "@id" in
      if isStr i ident then Ok true else someEntity ident rest
  end.

Section Sources.

Variable env : Env.

(** [JSON.parse] *)
Variable parseJson : string -> Res json.

(** [fetch(INDEXING_SERVICE_BASE_URL + "/crates/upload", ...)] and the
    reading of its response. *)
Variable postUpload : CrateLoader.File -> UploadResponse.

(** A cache record passed where a document is expected. *)
Variable recordAsJson : CachedCrate -> json.

(** [e.message || e] for what [JSON.parse] throws. *)
Definition messageOrError (e : string) : string :=
  if strNonEmpty e then e else "SyntaxError".

(** [loadFromPastedJson()], on the text of the paste field.  The processing
    is started and not awaited, as in [fetchMetadata]. *)
Definition loadFromPastedJson (pastedCrateText : string) : M unit :=
  if negb (strNonEmpty (trim pastedCrateText)) then ret tt
  else
    modify (set_isLoading true) ;;
    modify (set_errorMsg None) ;;
    modify (set_baseUrl "") ;;
    tryCatch
      (parsed <- liftRes (parseJson pastedCrateText) ;;
       completed <- processCrateData env parsed "Pasted Crate" None true ;;
       ret tt)
      (fun e => modify (set_errorMsg (Some ("Paste error: " ++ messageOrError e)))) ;;
    modify (set_isLoading false).

(** [handleFileUpload(event)], on the first file of the input, if any.  The
    reset of the file input in the [finally] block is outside the state. *)
Definition handleFileUpload (upload : option CrateLoader.File) : M unit :=
  match upload with
  | None => ret tt
  | Some f =>
      modify (set_isLoading true) ;;
      modify (set_errorMsg None) ;;
      modify (set_baseUrl "") ;;
      tryCatch
        (if isStateless env
         then
           doc <- liftRes (CrateLoader.loadCrateFromFile parseJson f) ;;
           modify (set_fullCrateJson (Some doc)) ;;
           modify (set_currentUrl (Some (CrateLoader.fileName f))) ;;
           completed <- processCrateData env doc (CrateLoader.fileName f) None true ;;
           ret tt
         else
           match postUpload f with
           | UploadRejected m => throw m
           | UploadNotOk status (Ok errText) =>
               throw ("Server Error (" ++ status ++ "): " ++ errText)
           | UploadNotOk _ (Throw m) => throw m
           | UploadNotOk _ NoFuel => liftRes NoFuel
           | UploadOk (Ok crateId) =>
               modify (set_baseUrl (CrateLoader.withTrailingSlash crateId)) ;;
               outcome <- fetchMetadata env crateId (CrateLoader.fileName f) None true ;;
               ret tt
           | UploadOk (Throw m) => throw m
           | UploadOk NoFuel => liftRes NoFuel
           end)
        (fun e => modify (set_errorMsg (Some ("File error: " ++ e)))) ;;
      modify (set_isLoading false)
  end.

(** [handleSearchSelect(result)]; the value is what the refs of the overlay
    are set to. *)
Definition handleSearchSelect (result : Hit) : M SearchPanel :=
  let entityId := hitEntityId result in
  let crateId := hitCrateId result in
  current <- get currentUrl ;;
  ents <- get allEntities ;;
  isInCurrentCrate <-
    (if match current with Some c => String.eqb c crateId | None => false end
     then ret true
     else liftRes (someEntity entityId ents)) ;;
  cache <- get crateCache ;;
  (if negb isInCurrentCrate && strNonEmpty crateId
   then match cache !! crateId with
        | Some cachedCrate =>
            modify (set_baseUrl (directoryUrl env crateId)) ;;
            completed <- processCrateData env (recordAsJson cachedCrate)
                           "Cached Crate" (Some crateId) false ;;
            ret tt
        | None => ret tt
        end
   else ret tt) ;;
  selectEntity entityId ;;
  ret {| isSearchOverlayOpen := false; searchInput := "";
         searchResults := []; searchErrorMsg := None; hasSearched := false |}.

(** What the user can do to a session. *)
Inductive Event : Type :=
| Navigate (a : Action)
| Paste (pastedCrateText : string)
| Upload (upload : option CrateLoader.File)
| PickResult (result : Hit)
| Select (ident : string).

Definition handle (e : Event) : M unit :=
  match e with
  | Navigate a => outcome <- run env a ;; ret tt
  | Paste pastedCrateText => loadFromPastedJson pastedCrateText
  | Upload upload => handleFileUpload upload
  | PickResult result => panel <- handleSearchSelect result ;; ret tt
  | Select ident => selectEntity ident
  end.

End Sources.

(** *** Invariants *)

(** [keeps I m Q]: run from a state in [I], the statement [m] ends in a state
    in [I] however it ends, and a value it returns is in [Q]. *)
Definition keeps {A} (I : AppState -> Prop) (m : M A) (Q : A -> Prop) : Prop :=
  forall st, I st ->
    I (fst (m st)) /\ forall a, snd (m st) = Ok a -> Q a.

(** A breadcrumb that [goToBreadcrumb] and [goBack] can follow. *)
Definition navigable (item : HistoryItem) : Prop :=
  exists u, truthyUrl (url item) = Some u.

(** A property of the recorded root, the cache and the breadcrumbs that the
    writes of the operations preserve: it does not look at the other refs;
    the root may be recorded when none was; a record may be cached where
    there was none; and the stack may be emptied, extended by a navigable
    item and cut back to a prefix. *)
Record stable (I : AppState -> Prop) : Prop := mkStable {
  stable_view : forall st st',
    I st -> rootCrateUrl st' = rootCrateUrl st ->
    crateCache st' = crateCache st -> historyStack st' = historyStack st ->
    I st';
  stable_root : forall v st st0,
    I st -> I st0 -> rootCrateUrl st0 = None -> I (set_rootCrateUrl v st);
  stable_cache : forall u c st st0,
    I st -> I st0 -> crateCache st0 !! u = None ->
    I (set_crateCache (<[u := c]> (crateCache st)) st);
  stable_home : forall st, I st -> I (set_historyStack [] st);
  stable_push : forall item st,
    I st -> navigable item ->
    I (set_historyStack (historyStack st ++ [item]) st);
  stable_cut : forall n st st0,
    I st -> I st0 -> I (set_historyStack (firstn n (historyStack st0)) st)
}.

(** The state after a series of events. *)
Definition session (step : Event -> M unit) (events : list Event)
    (st : AppState) : AppState :=
  fold_left (fun s e => fst (step e s)) events st.

(** The prefix under which an operation reports a failed fetch. *)
Definition failurePrefix (a : Action) : string :=
  match a with
  | HandleSubcrateOpen _ => "Error loading subcrate: "
  | _ => "Error loading URL: "
  end.

(** The view shows what the cache holds under a locator. *)
Definition shownFromCache (u : string) (st : AppState) : Prop :=
  exists c,
    crateCache st !! u = Some c /\
    entities c = allEntities st /\
    crateName c = currentCrateName st /\
    cachedLinkedDataHints c = linkedDataHints st /\
    fullCrateJson st = Some (json_ c).

(** *** A session: a root package with one nested package *)

Module Example.

Definition rootLocator : string := "https://example.org/crate/".
Definition subLocator : string := "https://example.org/crate/sub/".

Definition rootDoc : json :=
  JObj [("@context", JStr "https://w3id.org/ro/crate/1.1/context");
        ("@graph",
         JArr [JObj [("@id", JStr "./"); ("@type", JStr "Dataset");
                     ("name", JStr "Root crate");
                     ("hasPart", JArr [JObj [("@id", JStr "sub/")]])];
               JObj [("@id", JStr "sub/"); ("@type", JStr "Dataset")]])].

Definition subDoc : json :=
  JObj [("@context", JStr "https://w3id.org/ro/crate/1.1/context");
        ("@graph",
         JArr [JObj [("@id", JStr "./"); ("@type", JStr "Dataset");
                     ("name", JStr "Sub crate");
                     ("hasPart", JArr [JObj [("@id", JStr "../")]])]])].

(** A document that passes validation and cannot be processed: the search
    for the descriptor reads a property of [null]. *)
Definition brokenLocator : string := "https://example.org/broken/".

Definition brokenDoc : json :=
  JObj [("@context", JStr "https://w3id.org/ro/crate/1.1/context");
        ("@graph", JArr [JObj [("@id", JStr "./")]; JNull])].

(** What [new URL] makes of the strings of the session. *)
Definition parseUrl (ref : string) (base : option string) : option URLObj :=
  let resolved :=
    match base with
    | None => Some ref
    | Some b =>
        if String.eqb b rootLocator && String.eqb ref "sub/" then Some subLocator
        else if String.eqb b rootLocator && String.eqb ref "missing/"
             then Some "https://example.org/crate/missing/"
        else if String.eqb b subLocator && String.eqb ref "../" then Some rootLocator
        else None
    end in
  match resolved with
  | Some "https://example.org/crate/" =>
      Some (mkURL "https://example.org" "/crate/" "")
  | Some "https://example.org/crate/sub/" =>
      Some (mkURL "https://example.org" "/crate/sub/" "")
  | Some "https://example.org/crate/missing/" =>
      Some (mkURL "https://example.org" "/crate/missing/" "")
  | Some "https://example.org/broken/" =>
      Some (mkURL "https://example.org" "/broken/" "")
  | _ => None
  end.

Definition encodeComponent (s : string) : string :=
  if String.eqb s "https://example.org/crate" then "https%3A%2F%2Fexample.org%2Fcrate"
  else if String.eqb s "https://example.org/crate/sub"
       then "https%3A%2F%2Fexample.org%2Fcrate%2Fsub"
  else s.

Definition rocrate (doc : json) : Res CrateInstance :=
  Ok {| rootDataset := None |}.

(** The stateless build: the three documents are served through the proxy,
    every other request fails. *)
Definition stateless : Env :=
  {| isStateless := true;
     indexingServiceUrl := "";
     corsProxyUrl := "https://cors.aruna-engine.org/";
     httpGet := fun u =>
       if String.eqb u "https://cors.aruna-engine.org/https://example.org/crate/"
       then CrateLoader.Response true "200 OK" (Ok rootDoc)
       else if String.eqb u
                 "https://cors.aruna-engine.org/https://example.org/crate/sub/ro-crate-metadata.json"
            then CrateLoader.Response true "200 OK" (Ok subDoc)
            else if String.eqb u "https://cors.aruna-engine.org/https://example.org/broken/"
                 then CrateLoader.Response true "200 OK" (Ok brokenDoc)
                 else CrateLoader.NetworkFailure "Failed to fetch";
     postCrateUrl := fun _ => PostRejected "Failed to fetch";
     encodeURIComponent := encodeComponent;
     newURL := parseUrl;
     expand := LinkHints.rejectingExpand;
     newROCrate := rocrate |}.

(** The stateful build: the service indexes the root package and serves
    its metadata; the request for the metadata of the nested one fails. *)
Definition stateful : Env :=
  {| isStateless := false;
     indexingServiceUrl := "https://index.example.org";
     corsProxyUrl := "https://cors.aruna-engine.org/";
     httpGet := fun u =>
       if String.eqb u
            "https://index.example.org/crates/https%3A%2F%2Fexample.org%2Fcrate"
       then CrateLoader.Response true "200 OK" (Ok rootDoc)
       else CrateLoader.NetworkFailure "Failed to fetch";
     postCrateUrl := fun u =>
       if String.eqb u rootLocator then PostOk (Ok rootLocator)
       else PostRejected "Failed to fetch";
     encodeURIComponent := encodeComponent;
     newURL := parseUrl;
     expand := LinkHints.rejectingExpand;
     newROCrate := rocrate |}.

(** A package with its metadata descriptor, and a session in which the
    constructor of the library answers with the root dataset the descriptor
    is about, its values in arrays and its parts linked. *)
Definition describedLocator : string := "https://example.org/described/".

Definition describedDoc : json :=
  JObj [("@context", JStr "https://w3id.org/ro/crate/1.1/context");
        ("@graph",
         JArr [JObj [("@id", JStr "ro-crate-metadata.json");
                     ("@type", JStr "CreativeWork");
                     ("conformsTo",
                      JObj [("@id", JStr "https://w3id.org/ro/crate/1.1")]);
                     ("about", JObj [("@id", JStr "./")])];
               JObj [("@id", JStr "./"); ("@type", JStr "Dataset");
                     ("name", JStr "Described crate");
                     ("hasPart", JArr [JObj [("@id", JStr "data.csv")]])];
               JObj [("@id", JStr "data.csv"); ("@type", JStr "File");
                     ("name", JStr "Measurements")]])].

Definition describedRoot : json :=
  JObj [("@id", JStr "./"); ("@type", JArr [JStr "Dataset"]);
        ("name", JArr [JStr "Described crate"]);
        ("hasPart",
         JArr [JObj [("@id", JStr "data.csv"); ("@type", JArr [JStr "File"]);
                     ("name", JArr [JStr "Measurements"])]])].

Definition described : Env :=
  {| isStateless := true;
     indexingServiceUrl := "";
     corsProxyUrl := "https://cors.aruna-engine.org/";
     httpGet := fun u =>
       if String.eqb u "https://cors.aruna-engine.org/https://example.org/described/"
       then CrateLoader.Response true "200 OK" (Ok describedDoc)
       else CrateLoader.NetworkFailure "Failed to fetch";
     postCrateUrl := fun _ => PostRejected "Failed to fetch";
     encodeURIComponent := encodeComponent;
     newURL := fun ref base =>
       match base with
       | None =>
           if String.eqb ref describedLocator
           then Some (mkURL "https://example.org" "/described/" "")
           else None
       | Some _ => None
       end;
     expand := LinkHints.rejectingExpand;
     newROCrate := fun _ => Ok {| rootDataset := Some describedRoot |} |}.

(** The state an operation leaves. *)
Definition after (env : Env) (a : Action) (st : AppState) : AppState :=
  fst (run env a st).

(** The root locator typed into the input field of a fresh session. *)
Definition typed : AppState := set_inputUrl rootLocator initialState.

Definition atRoot (env : Env) : AppState := after env LoadFromUrl typed.

Definition atSub : AppState :=
  after stateless (HandleSubcrateOpen "sub/") (atRoot stateless).

End Example.

End App.

(** * Properties *)

(** ** Generic facts *)

Lemma res_mapM_Ok {A B} (f : A -> Res B) (l : list A) :
  (forall x, In x l -> exists y, f x = Ok y) ->
  exists ys, res_mapM f l = Ok ys.
Proof.
  induction l as [|x xs IH]; intros Hall; simpl.
  - eauto.
  - destruct (Hall x) as [y Hy]; [now left|].
    destruct IH as [ys Hys]; [intros z Hz; apply Hall; now right|].
    rewrite Hy, Hys. simpl. eauto.
Qed.

Lemma res_mapM_ext {A B} (f g : A -> Res B) (l : list A) :
  (forall x, In x l -> f x = g x) -> res_mapM f l = res_mapM g l.
Proof.
  induction l as [|x xs IH]; intros Hall; simpl; [reflexivity|].
  rewrite (Hall x) by now left.
  rewrite IH; [reflexivity|]. intros z Hz. apply Hall. now right.
Qed.

(** ** White space *)

Module TextFacts.

(** *** Prefixes *)

Lemma prefix_nil (s : string) : String.prefix "" s = true.
Proof. now destruct s. Qed.

Lemma prefix_cons (a b : ascii) (p s : string) :
  String.prefix (String a p) (String b s) = true <-> a = b /\ String.prefix p s = true.
Proof.
  simpl. destruct (ascii_dec a b) as [->|Hne].
  - tauto.
  - split; [discriminate|]. intros [E _]. contradiction.
Qed.

Lemma startsWith_app (p r : string) : String.prefix p (p ++ r) = true.
Proof.
  induction p as [|a p IH]; [apply prefix_nil|].
  change (String.prefix (String a p) (String a (p ++ r)) = true).
  apply prefix_cons. auto.
Qed.

Lemma prefix_inv (p s : string) :
  String.prefix p s = true -> exists r, s = p ++ r.
Proof.
  revert s. induction p as [|a p IH]; intros s H.
  - exists s. reflexivity.
  - destruct s as [|b s]; [discriminate|].
    apply prefix_cons in H. destruct H as [-> H].
    destruct (IH s H) as [r ->]. exists r. reflexivity.
Qed.

Lemma text_append_assoc (a b c : string) : (a ++ b) ++ c = a ++ (b ++ c).
Proof.
  induction a as [|x a IH]; [reflexivity|].
  change (String x ((a ++ b) ++ c) = String x (a ++ (b ++ c))). now rewrite IH.
Qed.

Lemma prefix_app_r (p s r : string) :
  String.prefix p s = true -> String.prefix p (s ++ r) = true.
Proof.
  intros H. apply prefix_inv in H. destruct H as [q ->].
  rewrite text_append_assoc. apply startsWith_app.
Qed.

(** Two prefixes of one text: one is a prefix of the other. *)
Lemma prefix_both (p q s : string) :
  String.prefix p s = true -> String.prefix q s = true ->
  String.prefix p q = true \/ String.prefix q p = true.
Proof.
  revert q s. induction p as [|a p IH]; intros q s Hp Hq.
  - left. apply prefix_nil.
  - destruct q as [|b q]; [right; apply prefix_nil|].
    destruct s as [|c s]; [discriminate|].
    apply prefix_cons in Hp. apply prefix_cons in Hq.
    destruct Hp as [-> Hp]. destruct Hq as [-> Hq].
    destruct (IH q s Hp Hq) as [H|H]; [left|right]; apply prefix_cons; auto.
Qed.

Lemma text_append_nil_r (s : string) : s ++ "" = s.
Proof. induction s as [|a s IH]; [reflexivity|]. change (String a (s ++ "") = String a s). now rewrite IH. Qed.

Lemma length_append (a b : string) :
  String.length (a ++ b) = (String.length a + String.length b)%nat.
Proof.
  induction a as [|c a IH]; [reflexivity|].
  change (S (String.length (a ++ b)) = S (String.length a + String.length b)).
  now rewrite IH.
Qed.

(** *** The white space characters *)

Lemma whiteSpaces_encodesOne w : In w whiteSpaces -> encodesOne w = true.
Proof.
  assert (H : forallb encodesOne whiteSpaces = true) by (vm_compute; reflexivity).
  rewrite forallb_forall in H. apply H.
Qed.

Lemma whiteSpaces_prefix_free w w' :
  In w whiteSpaces -> In w' whiteSpaces -> String.prefix w w' = true -> w = w'.
Proof.
  assert (H : forallb (fun a => forallb (fun b => implb (String.prefix a b)
                                                    (String.eqb a b)) whiteSpaces)
                whiteSpaces = true) by (vm_compute; reflexivity).
  rewrite forallb_forall in H. intros Hw Hw' Hp.
  specialize (H w Hw). rewrite forallb_forall in H. specialize (H w' Hw').
  rewrite Hp in H. simpl in H. now apply String.eqb_eq.
Qed.

Lemma isSpace_In c : isSpace c = true <-> In c whiteSpaces.
Proof.
  unfold isSpace. rewrite existsb_exists. split.
  - intros (w & Hw & E). apply String.eqb_eq in E. now subst.
  - intros H. exists c. split; [exact H|apply String.eqb_refl].
Qed.

Lemma space_isSpace : isSpace " " = true.
Proof. reflexivity. Qed.

Lemma spaceAhead_Some s w :
  spaceAhead s = Some w -> In w whiteSpaces /\ exists r, s = w ++ r.
Proof.
  unfold spaceAhead, startsWith. intros H. apply List.find_some in H.
  destruct H as [Hw Hp]. split; [exact Hw|now apply prefix_inv].
Qed.

Lemma spaceAhead_None s w :
  spaceAhead s = None -> In w whiteSpaces -> String.prefix w s = false.
Proof.
  unfold spaceAhead, startsWith. intros H Hw.
  exact (List.find_none _ _ H w Hw).
Qed.

Lemma spaceAhead_white w r : In w whiteSpaces -> spaceAhead (w ++ r) = Some w.
Proof.
  intros Hw. destruct (spaceAhead (w ++ r)) as [w1|] eqn:E.
  - destruct (spaceAhead_Some _ _ E) as [Hw1 [r1 E1]]. f_equal.
    assert (Hp1 : String.prefix w1 (w ++ r) = true) by (rewrite E1; apply startsWith_app).
    destruct (prefix_both w w1 (w ++ r) (startsWith_app w r) Hp1) as [H|H].
    + symmetry. now apply whiteSpaces_prefix_free.
    + now apply whiteSpaces_prefix_free.
  - pose proof (spaceAhead_None _ w E Hw) as H. now rewrite startsWith_app in H.
Qed.

(** A byte that no white space character starts with is a character by
    itself. *)
Lemma spaceAhead_single c r :
  spaceAhead (String c r) = None -> isSpace (String c "") = false.
Proof.
  intros H. destruct (isSpace (String c "")) eqn:E; [|reflexivity].
  apply isSpace_In in E. pose proof (spaceAhead_None _ _ H E) as Hp.
  change (String c r) with (String c "" ++ r) in Hp. now rewrite startsWith_app in Hp.
Qed.

(** *** The characters of a text *)

Lemma chars_nil : chars "" = [].
Proof. reflexivity. Qed.

Lemma chars_from_skip u r : chars_from (String.length u) (u ++ r) = chars_from 0 r.
Proof. induction u as [|a u IH]; [reflexivity|exact IH]. Qed.

Lemma chars_white w r : In w whiteSpaces -> chars (w ++ r) = w :: chars r.
Proof.
  intros Hw. pose proof (whiteSpaces_encodesOne w Hw) as Hwf.
  destruct w as [|a w]; [discriminate|].
  unfold chars. change (String a w ++ r) with (String a (w ++ r)).
  cbn [chars_from].
  change (String a (w ++ r)) with (String a w ++ r).
  rewrite (spaceAhead_white _ r Hw). f_equal.
  cbn [String.length]. rewrite Nat.sub_1_r. cbn [Nat.pred]. apply chars_from_skip.
Qed.

Lemma chars_plain c r :
  spaceAhead (String c r) = None -> chars (String c r) = String c "" :: chars r.
Proof. intros H. unfold chars. cbn [chars_from]. now rewrite H. Qed.

(** A text is empty, or starts with a white space character, or with a byte
    that is a character by itself. *)
Lemma text_cases s :
  s = "" \/
  (exists w r, In w whiteSpaces /\ s = w ++ r) \/
  (exists c r, s = String c r /\ spaceAhead s = None).
Proof.
  destruct s as [|c r]; [now left|right].
  destruct (spaceAhead (String c r)) as [w|] eqn:E.
  - left. destruct (spaceAhead_Some _ _ E) as [Hw [r' E']]. eauto.
  - right. eauto.
Qed.

Lemma chars_ind (P : string -> Prop) :
  P "" ->
  (forall w r, In w whiteSpaces -> P r -> P (w ++ r)) ->
  (forall c r, spaceAhead (String c r) = None -> P r -> P (String c r)) ->
  forall s, P s.
Proof.
  intros Hnil Hwhite Hplain s.
  remember (String.length s) as n eqn:Hn. revert s Hn.
  induction n as [n IH] using lt_wf_ind. intros s Hn.
  destruct (text_cases s) as [->|[(w & r & Hw & ->)|(c & r & -> & Hc)]].
  - exact Hnil.
  - apply Hwhite; [exact Hw|]. apply (IH (String.length r)); [|reflexivity].
    subst n. rewrite length_append.
    pose proof (whiteSpaces_encodesOne w Hw) as Hwf.
    destruct w; [discriminate|]. simpl. lia.
  - apply Hplain; [exact Hc|]. apply (IH (String.length r)); [|reflexivity].
    subst n. simpl. lia.
Qed.

Lemma text_app (a b : list string) : text (a ++ b) = text a ++ text b.
Proof.
  induction a as [|x a IH]; [reflexivity|].
  simpl. rewrite IH. now rewrite text_append_assoc.
Qed.

(** The characters of a text spell it. *)
Lemma text_chars s : text (chars s) = s.
Proof.
  induction s as [| w r Hw IH | c r Hc IH] using chars_ind.
  - reflexivity.
  - rewrite (chars_white _ _ Hw). simpl. now rewrite IH.
  - rewrite (chars_plain _ _ Hc). simpl. now rewrite IH.
Qed.

(** Every character is a white space character or a single byte that is
    none. *)
Lemma chars_tokens s :
  Forall (fun c => isSpace c = true \/
                   (isSpace c = false /\ exists b, c = String b "")) (chars s).
Proof.
  induction s as [| w r Hw IH | c r Hc IH] using chars_ind.
  - constructor.
  - rewrite (chars_white _ _ Hw). constructor; [|exact IH].
    left. now apply isSpace_In.
  - rewrite (chars_plain _ _ Hc). constructor; [|exact IH].
    right. split; [now apply (spaceAhead_single c r)|eauto].
Qed.

(** *** Lists of characters that are read back as they are *)

Lemma canon_chars s : canon (chars s).
Proof. unfold canon. now rewrite text_chars. Qed.

Lemma canon_nil : canon [].
Proof. reflexivity. Qed.

Lemma canon_white w cs : In w whiteSpaces -> canon cs -> canon (w :: cs).
Proof.
  unfold canon. intros Hw H. simpl. now rewrite (chars_white _ _ Hw), H.
Qed.

Lemma canon_plain c cs :
  spaceAhead (String c (text cs)) = None -> canon cs -> canon (String c "" :: cs).
Proof.
  unfold canon. intros Hc H.
  change (text (String c "" :: cs)) with (String c (text cs)).
  now rewrite (chars_plain _ _ Hc), H.
Qed.

Lemma canon_head c cs :
  canon (c :: cs) ->
  canon cs /\
  (In c whiteSpaces \/
   exists b, c = String b "" /\ spaceAhead (String b (text cs)) = None).
Proof.
  unfold canon. simpl. intros H.
  destruct (text_cases (c ++ text cs)) as [E|[(w & r & Hw & E)|(b & r & E & Hb)]].
  - rewrite E in H. discriminate.
  - rewrite E, (chars_white _ _ Hw) in H. injection H as Hc Hcs. subst c.
    assert (r = text cs) as -> by (rewrite <- Hcs; symmetry; apply text_chars).
    split; [exact Hcs|now left].
  - rewrite E in H, Hb. rewrite (chars_plain _ _ Hb) in H.
    injection H as Hc Hcs. subst c.
    change (String b "" ++ text cs) with (String b (text cs)) in E.
    injection E as E. subst r.
    split; [exact Hcs|]. right. eauto.
Qed.

Lemma canon_tail c cs : canon (c :: cs) -> canon cs.
Proof. intros H. now apply canon_head in H. Qed.

Lemma canon_app_l a b : canon (a ++ b) -> canon a.
Proof.
  induction a as [|c a IH]; intros H; [apply canon_nil|].
  change ((c :: a) ++ b)%list with (c :: (a ++ b))%list in H.
  apply canon_head in H. destruct H as [Hrest [Hw|(x & -> & Hx)]].
  - apply canon_white; auto.
  - apply canon_plain; [|auto].
    destruct (spaceAhead (String x (text a))) as [w|] eqn:E; [|reflexivity].
    destruct (spaceAhead_Some _ _ E) as [Hw [r Er]].
    pose proof (spaceAhead_None _ _ Hx Hw) as Hp.
    rewrite text_app in Hp.
    change (String x (text a ++ text b)) with (String x (text a) ++ text b) in Hp.
    rewrite prefix_app_r in Hp; [discriminate|]. rewrite Er. apply startsWith_app.
Qed.

Lemma canon_app_r a b : canon (a ++ b) -> canon b.
Proof.
  induction a as [|c a IH]; intros H; [exact H|].
  apply IH. now apply canon_tail in H.
Qed.


(** *** Replacing runs of white space *)

Lemma allContinue_space u r :
  allContinue u = true -> String.prefix u (String " " r) = true -> u = "".
Proof.
  destruct u as [|a u]; [reflexivity|]. intros Hc Hp.
  apply prefix_cons in Hp. destruct Hp as [-> _]. discriminate.
Qed.

(** The bytes that continue a byte kept by the replacement followed it in
    the text. *)
Lemma collapse_follows s :
  forall u, allContinue u = true ->
    String.prefix u (text (collapseSpaces false (chars s))) = true ->
    String.prefix u s = true.
Proof.
  induction s as [| w r Hw IH | c r Hc IH] using chars_ind; intros u Hu Hp.
  - exact Hp.
  - rewrite (chars_white _ _ Hw) in Hp. cbn [collapseSpaces] in Hp.
    rewrite (proj2 (isSpace_In w) Hw) in Hp.
    change (text (" " :: ?x)) with (String " "%char (text x)) in Hp.
    rewrite (allContinue_space _ _ Hu Hp). apply prefix_nil.
  - rewrite (chars_plain _ _ Hc) in Hp. cbn [collapseSpaces] in Hp.
    rewrite (spaceAhead_single _ _ Hc) in Hp.
    change (text (String c "" :: ?x)) with (String c (text x)) in Hp.
    destruct u as [|a u]; [apply prefix_nil|].
    apply prefix_cons in Hp. destruct Hp as [-> Hp].
    apply prefix_cons. split; [reflexivity|].
    apply IH; [|exact Hp]. simpl in Hu. now apply andb_true_iff in Hu.
Qed.

Lemma spaceAhead_transfer c X X' :
  (forall u, allContinue u = true ->
             String.prefix u X' = true -> String.prefix u X = true) ->
  spaceAhead (String c X) = None -> spaceAhead (String c X') = None.
Proof.
  intros Hfollow HX.
  destruct (spaceAhead (String c X')) as [w|] eqn:E; [|reflexivity].
  destruct (spaceAhead_Some _ _ E) as [Hw [r Er]].
  pose proof (whiteSpaces_encodesOne w Hw) as Hwf.
  destruct w as [|a w]; [discriminate|].
  simpl in Hwf. apply andb_true_iff in Hwf. destruct Hwf as [_ Hcont].
  change (String a w ++ r) with (String a (w ++ r)) in Er.
  injection Er as -> Er.
  pose proof (spaceAhead_None _ _ HX Hw) as Hp.
  assert (Hp' : String.prefix (String a w) (String a X) = true).
  { apply prefix_cons. split; [reflexivity|].
    apply Hfollow; [exact Hcont|]. rewrite Er. apply startsWith_app. }
  congruence.
Qed.

Lemma space_In : In " " whiteSpaces.
Proof. apply isSpace_In. reflexivity. Qed.

(** What the replacement leaves is read back as it is. *)
Lemma canon_collapse s : forall inRun, canon (collapseSpaces inRun (chars s)).
Proof.
  induction s as [| w r Hw IH | c r Hc IH] using chars_ind; intros inRun.
  - apply canon_nil.
  - rewrite (chars_white _ _ Hw). cbn [collapseSpaces].
    rewrite (proj2 (isSpace_In w) Hw).
    destruct inRun; [apply IH|]. apply canon_white; [apply space_In|apply IH].
  - rewrite (chars_plain _ _ Hc). cbn [collapseSpaces].
    rewrite (spaceAhead_single _ _ Hc).
    apply canon_plain; [|apply IH].
    apply (spaceAhead_transfer c r); [|exact Hc].
    apply collapse_follows.
Qed.

Lemma chars_replaceSpaces s :
  chars (replaceSpaces s) = collapseSpaces false (chars s).
Proof. apply canon_collapse. Qed.

(** What [replace(/\s+/g, ' ')] leaves: the only white space is the space,
    never twice in a row, and not in front when a run was being replaced. *)
Lemma collapseSpaces_chars (cs : list string) :
  forall inRun,
    let l := collapseSpaces inRun cs in
    (forall c, In c l -> isSpace c = true -> c = " ") /\
    (forall l1 l2, l <> (l1 ++ " " :: " " :: l2)%list) /\
    (inRun = true -> forall c l', l = c :: l' -> isSpace c = false).
Proof.
  induction cs as [|c cs IH]; intros inRun; cbn [collapseSpaces].
  - split; [intros c []|split].
    + intros [|x l1] l2; discriminate.
    + discriminate.
  - destruct (isSpace c) eqn:Ec; [destruct inRun|].
    + apply IH.
    + destruct (IH true) as (H1 & H2 & H3). cbv zeta. split; [|split].
      * intros x [<-|Hx] Hs; [reflexivity|now apply H1].
      * intros [|x l1] l2 E.
        -- injection E as E2. specialize (H3 eq_refl _ _ E2). discriminate.
        -- injection E as E1 E2. now apply H2 in E2.
      * discriminate.
    + destruct (IH false) as (H1 & H2 & H3). cbv zeta. split; [|split].
      * intros x [<-|Hx] Hs; [congruence|now apply H1].
      * intros [|x l1] l2 E.
        -- injection E as E1 E2. subst c. discriminate.
        -- injection E as E1 E2. now apply H2 in E2.
      * intros _ x l' E. injection E as -> _. exact Ec.
Qed.

Lemma collapseSpaces_keeps (cs : list string) (c : string) :
  forall inRun, isSpace c = false -> In c cs -> In c (collapseSpaces inRun cs).
Proof.
  induction cs as [|x cs IH]; intros inRun Hc Hin; [contradiction|].
  cbn [collapseSpaces]. destruct Hin as [->|Hin].
  - rewrite Hc. now left.
  - destruct (isSpace x); [destruct inRun|]; simpl; auto.
Qed.

(** *** Trimming *)

Lemma trimStart_chars (cs : list string) :
  (exists pre, cs = (pre ++ trimStart cs)%list /\
               Forall (fun c => isSpace c = true) pre) /\
  (forall c l', trimStart cs = c :: l' -> isSpace c = false).
Proof.
  induction cs as [|c cs [[pre [IH1 IH1']] IH2]]; cbn [trimStart].
  - split; [exists []; split; [reflexivity|constructor]|discriminate].
  - destruct (isSpace c) eqn:Ec.
    + split; [|exact IH2]. exists (c :: pre). simpl. split; [now rewrite <- IH1|].
      now constructor.
    + split; [exists []; split; [reflexivity|constructor]|].
      intros x l' E. injection E as -> _. exact Ec.
Qed.

(** [trim] cuts a piece out of the middle of the characters, and the piece
    neither starts nor ends with white space. *)
Lemma trim_chars (cs : list string) :
  (exists pre post,
      cs = (pre ++ trimEnd (trimStart cs) ++ post)%list /\
      Forall (fun c => isSpace c = true) pre /\
      Forall (fun c => isSpace c = true) post) /\
  (forall c l', trimEnd (trimStart cs) = c :: l' -> isSpace c = false) /\
  (forall c l', trimEnd (trimStart cs) = (l' ++ [c])%list -> isSpace c = false).
Proof.
  unfold trimEnd.
  destruct (trimStart_chars cs) as [[pre [E1 Hpre]] Hhead1].
  destruct (trimStart_chars (List.rev (trimStart cs))) as [[pre2 [E2 Hpre2]] Hhead2].
  set (u := trimStart (List.rev (trimStart cs))) in *.
  assert (E3 : trimStart cs = (List.rev u ++ List.rev pre2)%list).
  { rewrite <- List.rev_app_distr, <- E2. now rewrite List.rev_involutive. }
  split; [|split].
  - exists pre, (List.rev pre2). rewrite <- E3. split; [exact E1|].
    split; [exact Hpre|]. apply List.Forall_forall. intros x Hx.
    apply (proj2 (List.in_rev _ _)) in Hx.
    rewrite List.Forall_forall in Hpre2. auto.
  - intros c l' E. apply (Hhead1 c (l' ++ List.rev pre2)%list).
    rewrite E3, E. reflexivity.
  - intros c l' E. apply (Hhead2 c (List.rev l')).
    rewrite <- (List.rev_involutive u), E.
    now rewrite List.rev_app_distr.
Qed.

Lemma trim_keeps (cs : list string) (c : string) :
  isSpace c = false -> In c cs -> In c (trimEnd (trimStart cs)).
Proof.
  intros Hc Hin. destruct (trim_chars cs) as [(pre & post & E & Hpre & Hpost) _].
  rewrite E in Hin. rewrite List.Forall_forall in Hpre, Hpost.
  apply in_app_or in Hin. destruct Hin as [Hin|Hin]; [apply Hpre in Hin; congruence|].
  apply in_app_or in Hin. destruct Hin as [Hin|Hin]; [exact Hin|].
  apply Hpost in Hin; congruence.
Qed.

(** What [trim] leaves is read back as it is. *)
Lemma chars_trim s : chars (trim s) = trimEnd (trimStart (chars s)).
Proof.
  unfold trim.
  destruct (trim_chars (chars s)) as [(pre & post & E & _) _].
  pose proof (canon_chars s) as H. rewrite E in H.
  apply canon_app_r, canon_app_l in H. exact H.
Qed.

(** A text of white space trims to nothing. *)
Lemma trim_blank (s : string) : SearchService.blank s -> trim s = "".
Proof.
  unfold SearchService.blank, trim. intros Hall.
  destruct (trim_chars (chars s)) as [(pre & post & E & _) [Hhead _]].
  destruct (trimEnd (trimStart (chars s))) as [|c l'] eqn:Et; [reflexivity|].
  specialize (Hhead c l' eq_refl).
  rewrite E, List.Forall_forall in Hall.
  rewrite (Hall c) in Hhead; [discriminate|].
  apply in_or_app. right. now left.
Qed.

Lemma normalized (s : string) :
  SearchService.whitespaceNormal (trim (replaceSpaces s)).
Proof.
  unfold SearchService.whitespaceNormal. cbv zeta.
  rewrite chars_trim, chars_replaceSpaces.
  destruct (collapseSpaces_chars (chars s) false) as (H1 & H2 & _).
  destruct (trim_chars (collapseSpaces false (chars s)))
    as [(pre & post & E & _) [Hhead Hlast]].
  split; [|split; [|split]].
  - intros c Hin. apply H1. cbv zeta. rewrite E. apply in_or_app. right.
    apply in_or_app. now left.
  - intros l1 l2 Et. apply (H2 (pre ++ l1)%list (l2 ++ post)%list).
    cbv zeta. rewrite E, Et. now rewrite <- !app_assoc.
  - exact Hhead.
  - exact Hlast.
Qed.

(** *** Bytes that are characters *)

Lemma bytes_app (a b : string) :
  list_ascii_of_string (a ++ b) =
  (list_ascii_of_string a ++ list_ascii_of_string b)%list.
Proof.
  induction a as [|c a IH]; [reflexivity|].
  change (c :: list_ascii_of_string (a ++ b) =
          c :: (list_ascii_of_string a ++ list_ascii_of_string b)%list).
  now rewrite IH.
Qed.

(** A byte of a text belongs to a white space character of the text or is a
    character of it. *)
Lemma chars_byte s b :
  In b (list_ascii_of_string s) ->
  (exists w, In w whiteSpaces /\ In b (list_ascii_of_string w)) \/
  In (String b "") (chars s).
Proof.
  induction s as [| w r Hw IH | c r Hc IH] using chars_ind; intros Hb.
  - destruct Hb.
  - rewrite bytes_app in Hb. apply in_app_or in Hb. destruct Hb as [Hb|Hb].
    + left. eauto.
    + destruct (IH Hb) as [H|H]; [now left|right].
      rewrite (chars_white _ _ Hw). now right.
  - rewrite (chars_plain _ _ Hc). destruct Hb as [->|Hb].
    + right. now left.
    + destruct (IH Hb) as [H|H]; [now left|right]. now right.
Qed.

(** The character ["@"] is never part of white space. *)
Lemma chars_at s :
  In "@"%char (list_ascii_of_string s) -> In "@" (chars s).
Proof.
  intros Hb. destruct (chars_byte s _ Hb) as [(w & Hw & Hin)|H]; [|exact H].
  exfalso.
  assert (Hno : forallb (fun w => negb (existsb (Ascii.eqb "@"%char)
                                         (list_ascii_of_string w)))
                  whiteSpaces = true) by (vm_compute; reflexivity).
  rewrite forallb_forall in Hno. specialize (Hno w Hw).
  apply negb_true_iff in Hno.
  assert (Hyes : existsb (Ascii.eqb "@"%char) (list_ascii_of_string w) = true).
  { apply existsb_exists. exists "@"%char. split; [exact Hin|apply Ascii.eqb_refl]. }
  congruence.
Qed.

Lemma text_nonempty (cs : list string) (c : string) :
  In c cs -> c <> "" -> text cs <> "".
Proof.
  induction cs as [|x cs IH]; intros Hin Hc; [contradiction|].
  cbn [text fold_right]. destruct Hin as [->|Hin].
  - destruct c; [contradiction|discriminate].
  - destruct x; [now apply IH|discriminate].
Qed.

(** A text in which ["@"] occurs does not normalize to nothing. *)
Lemma normalized_nonempty (s : string) :
  In "@"%char (list_ascii_of_string s) -> trim (replaceSpaces s) <> "".
Proof.
  intros Hb. unfold trim. apply (text_nonempty _ "@"); [|discriminate].
  apply trim_keeps; [reflexivity|].
  rewrite chars_replaceSpaces.
  apply collapseSpaces_keeps; [reflexivity|]. now apply chars_at.
Qed.

Lemma join_keeps (sep : string) (parts : list string) (p : string) (c : ascii) :
  In p parts -> In c (list_ascii_of_string p) ->
  In c (list_ascii_of_string (join sep parts)).
Proof.
  induction parts as [|x rest IH]; intros Hp Hc; [contradiction|].
  destruct rest as [|y rest].
  - destruct Hp as [->|[]]. exact Hc.
  - change (join sep (x :: y :: rest)) with (x ++ sep ++ join sep (y :: rest)).
    rewrite !bytes_app. destruct Hp as [->|Hp].
    + apply in_or_app. now left.
    + apply in_or_app. right. apply in_or_app. right. now apply IH.
Qed.

End TextFacts.

(** ** The flattener *)

Module FlattenFacts.
Import SearchService.

Lemma beyond_bound fuel value depth maxDepth :
  (maxDepth < depth)%nat ->
  flattenValue_fuel (S fuel) value depth maxDepth = Ok "".
Proof.
  intros Hlt. simpl.
  destruct (Nat.ltb_spec maxDepth depth) as [_|Hge]; [reflexivity|lia].
Qed.

(** Enough frames for the levels that remain give a string. *)
Lemma enough_fuel fuel :
  forall value depth maxDepth,
    (1 <= fuel)%nat -> (maxDepth + 2 <= fuel + depth)%nat ->
    exists s, flattenValue_fuel fuel value depth maxDepth = Ok s.
Proof.
  induction fuel as [|fuel IH]; intros value depth maxDepth Hpos Hsum; [lia|].
  simpl. destruct (Nat.ltb_spec maxDepth depth) as [Hlt|Hge]; [eauto|].
  assert (Hrec : forall v, exists s,
             flattenValue_fuel fuel v (depth + 1) maxDepth = Ok s).
  { intros v. apply IH; lia. }
  destruct value as [[| b | r | s | items | fields]|]; eauto.
  - destruct (res_mapM_Ok
                (fun item => flattenValue_fuel fuel (Some item) (depth + 1) maxDepth)
                items) as [parts Hparts].
    { intros x _. apply Hrec. }
    rewrite Hparts. simpl. eauto.
  - match goal with |- context [res_mapM ?f fields] =>
      destruct (res_mapM_Ok f fields) as [parts Hparts] end.
    { intros [key val] _.
      destruct (strNonEmpty key && negb (String.eqb key "@context")); [|eauto].
      destruct (Hrec (Some val)) as [s Hs]. rewrite Hs. simpl. eauto. }
    rewrite Hparts. simpl. eauto.
Qed.

(** The answer does not depend on the counter once it covers the levels
    that remain. *)
Lemma fuel_irrelevant fuel :
  forall fuel' value depth maxDepth,
    (1 <= fuel)%nat -> (maxDepth + 2 <= fuel + depth)%nat -> (fuel <= fuel')%nat ->
    flattenValue_fuel fuel' value depth maxDepth =
    flattenValue_fuel fuel value depth maxDepth.
Proof.
  induction fuel as [|fuel IH]; intros fuel' value depth maxDepth Hpos Hsum Hle; [lia|].
  destruct fuel' as [|fuel']; [lia|].
  simpl. destruct (Nat.ltb_spec maxDepth depth) as [Hlt|Hge]; [reflexivity|].
  assert (Hrec : forall v,
             flattenValue_fuel fuel' v (depth + 1) maxDepth =
             flattenValue_fuel fuel v (depth + 1) maxDepth).
  { intros v. apply IH; lia. }
  destruct value as [[| b | r | s | items | fields]|]; try reflexivity.
  - erewrite res_mapM_ext; [reflexivity|]. intros x _. apply Hrec.
  - erewrite res_mapM_ext; [reflexivity|].
    intros [key val] _. simpl. now rewrite Hrec.
Qed.

Lemma flattenValue_returns (value : json) :
  exists s, flattenValue value = Ok s.
Proof. apply enough_fuel; unfold defaultMaxDepth; lia. Qed.

End FlattenFacts.

(** C8.  [flattenValue] is total: on every JSON value it returns a string
    and does not throw; a call deeper than the limit 10 contributes the empty
    string whatever the value; and twelve call frames are enough for every
    value, however deeply it is nested, so that the depth of the recursion is
    bounded by the limit and not by the value. *)
Theorem flattenValue_total :
  (forall value : json, exists s, SearchService.flattenValue value = Ok s) /\
  (forall (fuel : nat) (value : option json) (depth : nat),
      (SearchService.defaultMaxDepth < depth)%nat ->
      SearchService.flattenValue_fuel (S fuel) value depth
        SearchService.defaultMaxDepth = Ok "") /\
  (forall (fuel : nat) (value : json),
      (12 <= fuel)%nat ->
      SearchService.flattenValue_fuel fuel (Some value) 0
        SearchService.defaultMaxDepth = SearchService.flattenValue value).
Proof.
  split; [|split].
  - apply FlattenFacts.flattenValue_returns.
  - intros fuel value depth Hlt. now apply FlattenFacts.beyond_bound.
  - intros fuel value Hfuel. unfold SearchService.flattenValue.
    apply FlattenFacts.fuel_irrelevant; unfold SearchService.defaultMaxDepth; lia.
Qed.

(** ** The search index *)

Module IndexFacts.
Import SearchService.

Lemma extractSearchableContent_total (entity : jobject) :
  exists s, extractSearchableContent entity = Ok s.
Proof.
  unfold extractSearchableContent.
  match goal with |- context [res_mapM ?f entity] =>
    destruct (res_mapM_Ok f entity) as [parts Hparts] end.
  - intros [key value] _.
    destruct (String.eqb key "@context"); [eauto|].
    destruct (FlattenFacts.flattenValue_returns value) as [s Hs].
    rewrite Hs. simpl. eauto.
  - rewrite Hparts. simpl. eauto.
Qed.

(** An object never makes the loop throw, and what it contributes is filed
    under the crate identifier of the call. *)
Lemma indexEntry_object (fields : jobject) (crate : string) :
  exists items, indexEntry (JObj fields) crate = Ok items /\
                Forall (fun item => crateId item = crate) items.
Proof.
  unfold indexEntry. simpl.
  destruct (lookupField "@id" fields) as [eid|]; simpl; [|eauto].
  destruct (truthy eid); simpl; [|eauto].
  destruct (extractSearchableContent_total fields) as [content Hc].
  rewrite Hc. simpl.
  destruct (strNonEmpty content); eauto.
Qed.

Lemma pushEntries_objects (entities : list jobject) (crate : string) :
  forall acc,
    pushEntries (List.map JObj entities) crate acc =
    ((acc ++ entriesOf entities crate)%list, Ok tt).
Proof.
  unfold entriesOf.
  induction entities as [|e es IH]; intros acc; simpl.
  - now rewrite app_nil_r.
  - destruct (indexEntry_object e crate) as [items [Hitems _]].
    rewrite Hitems. simpl.
    rewrite (IH (acc ++ items)%list), (IH items). simpl.
    now rewrite app_assoc.
Qed.

Lemma entriesOf_crate (entities : list jobject) (crate : string) :
  Forall (fun item => crateId item = crate) (entriesOf entities crate).
Proof.
  unfold entriesOf.
  induction entities as [|e es IH]; simpl; [constructor|].
  destruct (indexEntry_object e crate) as [items [Hitems Hall]].
  rewrite Hitems.
  change (pushEntries (List.map JObj es) crate ([] ++ items)%list) with
         (pushEntries (List.map JObj es) crate items).
  rewrite pushEntries_objects. simpl.
  apply Forall_app. split; [exact Hall|exact IH].
Qed.

Lemma underCrate_all crate data :
  Forall (fun item => crateId item = crate) data -> underCrate crate data = data.
Proof.
  unfold underCrate. induction 1 as [|item data Hitem _ IH]; simpl; [reflexivity|].
  rewrite Hitem, String.eqb_refl. now f_equal.
Qed.

Lemma outsideCrate_all crate data :
  Forall (fun item => crateId item = crate) data -> outsideCrate crate data = [].
Proof.
  unfold outsideCrate. induction 1 as [|item data Hitem _ IH]; simpl; [reflexivity|].
  now rewrite Hitem, String.eqb_refl.
Qed.

Lemma underCrate_outside crate data :
  underCrate crate (outsideCrate crate data) = [].
Proof.
  unfold underCrate, outsideCrate.
  induction data as [|item data IH]; simpl; [reflexivity|].
  destruct (String.eqb (crateId item) crate) eqn:E; simpl; [exact IH|].
  now rewrite E.
Qed.

Lemma outsideCrate_idem crate data :
  outsideCrate crate (outsideCrate crate data) = outsideCrate crate data.
Proof.
  unfold outsideCrate.
  induction data as [|item data IH]; simpl; [reflexivity|].
  destruct (String.eqb (crateId item) crate) eqn:E; simpl; [exact IH|].
  rewrite E. simpl. now f_equal.
Qed.

Lemma underCrate_app crate d1 d2 :
  underCrate crate (d1 ++ d2) = (underCrate crate d1 ++ underCrate crate d2)%list.
Proof. unfold underCrate. apply List.filter_app. Qed.

Lemma outsideCrate_app crate d1 d2 :
  outsideCrate crate (d1 ++ d2) = (outsideCrate crate d1 ++ outsideCrate crate d2)%list.
Proof. unfold outsideCrate. apply List.filter_app. Qed.

(** The state a call of [addToIndex] on a well-typed list leaves. *)
Lemma addToIndex_objects st (entities : list jobject) crate :
  addToIndex st (List.map JObj entities) crate =
  (let data := match fuseInstance st with
               | None => entriesOf entities crate
               | Some _ => (outsideCrate crate (indexData st)
                              ++ entriesOf entities crate)%list
               end in
   ({| fuseInstance := Some data; indexData := data |}, Ok tt)).
Proof.
  unfold addToIndex, buildSearchIndex.
  destruct (fuseInstance st); rewrite pushEntries_objects; reflexivity.
Qed.

Lemma lookupField_In (k : string) (fields : jobject) (v : json) :
  lookupField k fields = Some v -> In (k, v) fields.
Proof.
  induction fields as [|[k' v'] rest IH]; simpl; [discriminate|].
  destruct (String.eqb_spec k k') as [->|Hne].
  - intros [= ->]. now left.
  - intros H. right. now apply IH.
Qed.

Lemma Forall2_In_l {A B} (R : A -> B -> Prop) (l : list A) (l' : list B) (x : A) :
  Forall2 R l l' -> In x l -> exists y, In y l' /\ R x y.
Proof.
  induction 1 as [|a b l l' Hab _ IH]; intros Hin; [contradiction|].
  destruct Hin as [->|Hin].
  - exists b. split; [now left|exact Hab].
  - destruct (IH Hin) as [y [Hy HR]]. exists y. split; [now right|exact HR].
Qed.

Lemma res_mapM_Forall2 {A B} (f : A -> Res B) (l : list A) (ys : list B) :
  res_mapM f l = Ok ys -> Forall2 (fun x y => f x = Ok y) l ys.
Proof.
  revert ys. induction l as [|x xs IH]; intros ys; simpl.
  - intros [= <-]. constructor.
  - destruct (f x) as [y| |] eqn:Ey; simpl; try discriminate.
    destruct (res_mapM f xs) as [ys'| |]; simpl; try discriminate.
    intros [= <-]. constructor; [exact Ey|now apply IH].
Qed.

(** The name of a property is part of the searchable text, so an entity
    that has an identifier never has empty content. *)
Lemma content_of_identified (entity : jobject) (v : json) :
  lookupField "@id" entity = Some v ->
  exists c, extractSearchableContent entity = Ok c /\ strNonEmpty c = true.
Proof.
  intros Hid. apply lookupField_In in Hid.
  destruct (extractSearchableContent_total entity) as [c Hc].
  exists c. split; [exact Hc|].
  unfold extractSearchableContent in Hc.
  match type of Hc with context [res_mapM ?f entity] =>
    destruct (res_mapM f entity) as [parts| |] eqn:Hparts end;
    simpl in Hc; try discriminate.
  injection Hc as <-.
  apply res_mapM_Forall2 in Hparts.
  destruct (Forall2_In_l _ _ _ _ Hparts Hid) as [part [Hpart Hf]].
  simpl in Hf.
  assert (Hkey : In "@id" (List.concat parts)).
  { apply List.in_concat. exists part. split; [exact Hpart|].
    destruct (flattenValue v) as [fv| |]; simpl in Hf; try discriminate.
    injection Hf as <-. destruct (strNonEmpty fv); now left. }
  assert (Hne : trim (replaceSpaces (join " " (List.concat parts))) <> "").
  { apply TextFacts.normalized_nonempty.
    apply (TextFacts.join_keeps _ _ "@id"); [exact Hkey|now left]. }
  unfold strNonEmpty.
  destruct (String.eqb_spec (trim (replaceSpaces (join " " (List.concat parts)))) "");
    [contradiction|reflexivity].
Qed.

(** What the loop pushes for one object. *)
Lemma indexEntry_cases (fields : jobject) (crate : string) :
  match lookupField "@id" fields with
  | Some v =>
      if truthy v
      then exists c, extractSearchableContent fields = Ok c /\ c <> "" /\
                     indexEntry (JObj fields) crate =
                     Ok [ {| entityId := v; crateId := crate; searchableContent := c |} ]
      else indexEntry (JObj fields) crate = Ok []
  | None => indexEntry (JObj fields) crate = Ok []
  end.
Proof.
  unfold indexEntry. simpl.
  destruct (lookupField "@id" fields) as [v|] eqn:Hid; simpl; [|reflexivity].
  destruct (truthy v); simpl; [|reflexivity].
  destruct (content_of_identified _ _ Hid) as [c [Hc Hne]].
  exists c. rewrite Hc. simpl. rewrite Hne. repeat split.
  intros ->. discriminate.
Qed.

Lemma entriesOf_cons (e : jobject) (es : list jobject) (crate : string) :
  exists items, indexEntry (JObj e) crate = Ok items /\
                entriesOf (e :: es) crate = (items ++ entriesOf es crate)%list.
Proof.
  destruct (indexEntry_object e crate) as [items [Hitems _]].
  exists items. split; [exact Hitems|].
  unfold entriesOf at 1. simpl. rewrite Hitems.
  change (pushEntries (List.map JObj es) crate ([] ++ items)%list) with
         (pushEntries (List.map JObj es) crate items).
  now rewrite pushEntries_objects.
Qed.

(** The loop files what the description says: one entry for each entity that
    has an identifier, with that identifier, the crate identifier and the
    searchable text of the entity. *)
Lemma entriesOf_derived (entities : list jobject) (crate : string) :
  Forall2 (derivedFrom crate) (identified entities) (entriesOf entities crate).
Proof.
  induction entities as [|e es IH]; [constructor|].
  destruct (entriesOf_cons e es crate) as [items [Hitems ->]].
  pose proof (indexEntry_cases e crate) as Hc.
  unfold identified in *. cbn [List.filter].
  destruct (lookupField "@id" e) as [v|] eqn:Hid; cbn [truthyOpt].
  - destruct (truthy v) eqn:Hv.
    + destruct Hc as (c & Hc1 & Hc2 & Hc). rewrite Hc in Hitems.
      injection Hitems as <-. simpl. constructor; [|exact IH].
      repeat split; auto.
    + rewrite Hc in Hitems. injection Hitems as <-. exact IH.
  - rewrite Hc in Hitems. injection Hitems as <-. exact IH.
Qed.

End IndexFacts.

(** C2.  Indexing [E1] under crate [A] and then [E2] under [A], from any
    state of the index: both calls return.  The entries filed under [A]
    afterwards are exactly the ones derived from [E2]: one for each entity of
    [E2] that has an identifier, in the order of [E2], with that identifier,
    the crate identifier [A] and the searchable text of the entity; so that
    nothing of [E1] is left.  Every entry filed under another crate is as the
    first call left it, and the searchable index is rebuilt over the whole
    entry set. *)
Theorem addToIndex_replaces_per_crate
    (st : SearchService.IndexState) (E1 E2 : list jobject) (A : string) :
  let r1 := SearchService.addToIndex st (List.map JObj E1) A in
  let r2 := SearchService.addToIndex (fst r1) (List.map JObj E2) A in
  snd r1 = Ok tt /\ snd r2 = Ok tt /\
  Forall2 (SearchService.derivedFrom A) (SearchService.identified E2)
    (SearchService.underCrate A (SearchService.indexData (fst r2))) /\
  SearchService.outsideCrate A (SearchService.indexData (fst r2))
    = SearchService.outsideCrate A (SearchService.indexData (fst r1)) /\
  SearchService.fuseInstance (fst r2)
    = Some (SearchService.indexData (fst r2)).
Proof.
  intros r1 r2. subst r1 r2.
  rewrite !IndexFacts.addToIndex_objects.
  cbn [fst snd SearchService.fuseInstance SearchService.indexData].
  repeat split.
  - rewrite IndexFacts.underCrate_app, IndexFacts.underCrate_outside.
    rewrite IndexFacts.underCrate_all by apply IndexFacts.entriesOf_crate.
    apply IndexFacts.entriesOf_derived.
  - rewrite IndexFacts.outsideCrate_app, IndexFacts.outsideCrate_idem.
    rewrite (IndexFacts.outsideCrate_all A (SearchService.entriesOf E2 A))
      by apply IndexFacts.entriesOf_crate.
    now rewrite app_nil_r.
Qed.

(** ** The hierarchy *)

Lemma res_mapM_inv {A B} (f : A -> Res B) (l : list A) (ys : list B) :
  res_mapM f l = Ok ys -> Forall2 (fun x y => f x = Ok y) l ys.
Proof.
  revert ys. induction l as [|x xs IH]; intros ys H; simpl in H.
  - injection H as <-. constructor.
  - destruct (f x) as [y| |] eqn:Hx; simpl in H; try discriminate.
    destruct (res_mapM f xs) as [ys'| |] eqn:Hxs; simpl in H; try discriminate.
    injection H as <-. constructor; [exact Hx|now apply IH].
Qed.

Lemma res_mapM_fuel {A B} (f : A -> Res B) (l : list A) :
  (forall x, In x l -> f x <> NoFuel) -> res_mapM f l <> NoFuel.
Proof.
  induction l as [|x xs IH]; intros Hall; simpl; [discriminate|].
  destruct (f x) as [y| |] eqn:Hx; simpl; try discriminate.
  - destruct (res_mapM f xs) as [ys| |] eqn:Hxs; simpl; try discriminate.
    exfalso. apply IH; [|reflexivity]. intros z Hz. apply Hall. now right.
  - exfalso. apply (Hall x); [now left|exact Hx].
Qed.

Lemma res_mapM_app {A B} (f : A -> Res B) (l1 l2 : list A) :
  res_mapM f (l1 ++ l2) =
  (let* ys1 := res_mapM f l1 in
   let* ys2 := res_mapM f l2 in
   Ok (ys1 ++ ys2)%list).
Proof.
  induction l1 as [|x xs IH]; simpl.
  - destruct (res_mapM f l2); reflexivity.
  - destruct (f x) as [y| |]; simpl; try reflexivity.
    rewrite IH.
    destruct (res_mapM f xs) as [ys| |]; simpl; try reflexivity.
    destruct (res_mapM f l2); reflexivity.
Qed.

Module SortFacts.
Import FileTree.

(** *** What a consistent comparator gives *)

Section Consistent.
Variable v : TreeNode -> TreeNode -> Z.
Variable l : list TreeNode.
Hypothesis v_refl : forall a, In a l -> v a a = 0%Z.
Hypothesis v_sym : forall a b, In a l -> In b l -> v a b = 0%Z -> v b a = 0%Z.
Hypothesis v_eq : forall a b c, In a l -> In b l -> In c l ->
  v a b = 0%Z -> v b c = 0%Z -> v a c = 0%Z.
Hypothesis v_lt : forall a b c, In a l -> In b l -> In c l ->
  (v a b < 0)%Z -> (v b c < 0)%Z -> (v a c < 0)%Z.
Hypothesis v_gt : forall a b c, In a l -> In b l -> In c l ->
  (0 < v a b)%Z -> (0 < v b c)%Z -> (0 < v a c)%Z.

Lemma before_after a b : In a l -> In b l -> (v a b < 0)%Z -> (0 < v b a)%Z.
Proof.
  intros Ha Hb Hab.
  destruct (Z.lt_trichotomy (v b a) 0) as [H|[H|H]]; [| |exact H].
  - pose proof (v_lt a b a Ha Hb Ha Hab H). rewrite (v_refl a Ha) in *. lia.
  - pose proof (v_sym b a Hb Ha H). lia.
Qed.

Lemma after_before a b : In a l -> In b l -> (0 < v a b)%Z -> (v b a < 0)%Z.
Proof.
  intros Ha Hb Hab.
  destruct (Z.lt_trichotomy (v b a) 0) as [H|[H|H]]; [exact H| |].
  - pose proof (v_sym b a Hb Ha H). lia.
  - pose proof (v_gt a b a Ha Hb Ha Hab H). rewrite (v_refl a Ha) in *. lia.
Qed.

Lemma not_after_trans a b c :
  In a l -> In b l -> In c l ->
  (v a b <= 0)%Z -> (v b c <= 0)%Z -> (v a c <= 0)%Z.
Proof.
  intros Ha Hb Hc Hab Hbc.
  destruct (Z.lt_trichotomy (v a c) 0) as [H|[H|H]]; [lia|lia|]. exfalso.
  pose proof (after_before a c Ha Hc H) as Hca.
  destruct (Z.lt_trichotomy (v a b) 0) as [H1|[H1|H1]]; [| |lia];
    destruct (Z.lt_trichotomy (v b c) 0) as [H2|[H2|H2]]; try lia.
  - pose proof (v_lt a b c Ha Hb Hc H1 H2). lia.
  - pose proof (v_lt c a b Hc Ha Hb Hca H1) as Hcb.
    pose proof (v_sym b c Hb Hc H2). lia.
  - pose proof (v_lt b c a Hb Hc Ha H2 Hca) as Hba.
    pose proof (v_sym a b Ha Hb H1). lia.
  - pose proof (v_eq a b c Ha Hb Hc H1 H2). lia.
Qed.

End Consistent.

(** *** The engine of the examples conforms *)

Section Insertion.
Variable cmp : TreeNode -> TreeNode -> Res Z.

Lemma insertNode_Permutation x sorted :
  forall out, insertNode cmp x sorted = Ok out -> out ≡ₚ x :: sorted.
Proof.
  induction sorted as [|y rest IH]; intros out H; simpl in H.
  - now injection H as <-.
  - destruct (cmp x y) as [z| |]; simpl in H; try discriminate.
    destruct (z <=? 0)%Z.
    + now injection H as <-.
    + destruct (insertNode cmp x rest) as [rest'| |] eqn:Hr;
        simpl in H; try discriminate.
      injection H as <-. rewrite (IH rest' eq_refl). apply Permutation_swap.
Qed.

Lemma insertionSort_Permutation l :
  forall out, insertionSort cmp l = Ok out -> out ≡ₚ l.
Proof.
  induction l as [|x rest IH]; intros out H; simpl in H.
  - now injection H as <-.
  - destruct (insertionSort cmp rest) as [sorted| |] eqn:Hs;
      simpl in H; try discriminate.
    rewrite (insertNode_Permutation _ _ _ H). now rewrite (IH sorted eq_refl).
Qed.

(** An abrupt completion of the sort is one of the comparator. *)
Lemma insertNode_abrupt x sorted (r : Res (list TreeNode)) :
  insertNode cmp x sorted = r -> (forall out, r <> Ok out) ->
  exists y, In y sorted /\
            match r with
            | Throw msg => cmp x y = Throw msg
            | _ => cmp x y = NoFuel
            end.
Proof.
  revert r. induction sorted as [|y rest IH]; intros r H Hr; simpl in H.
  - subst r. now destruct (Hr [x]).
  - destruct (cmp x y) as [z| |] eqn:Hc; simpl in H.
    + destruct (z <=? 0)%Z; [subst r; now destruct (Hr (x :: y :: rest))|].
      destruct (insertNode cmp x rest) as [rest'| |] eqn:Hrest; simpl in H.
      * subst r. now destruct (Hr (y :: rest')).
      * destruct (IH (Throw msg) eq_refl) as (y' & Hy' & Hcy'); [discriminate|].
        subst r. exists y'. split; [now right|exact Hcy'].
      * destruct (IH NoFuel eq_refl) as (y' & Hy' & Hcy'); [discriminate|].
        subst r. exists y'. split; [now right|exact Hcy'].
    + subst r. exists y. split; [now left|exact Hc].
    + subst r. exists y. split; [now left|exact Hc].
Qed.

Lemma insertionSort_abrupt l (r : Res (list TreeNode)) :
  insertionSort cmp l = r -> (forall out, r <> Ok out) ->
  exists a b, In a l /\ In b l /\
              match r with
              | Throw msg => cmp a b = Throw msg
              | _ => cmp a b = NoFuel
              end.
Proof.
  revert r. induction l as [|x rest IH]; intros r H Hr; simpl in H.
  - subst r. now destruct (Hr []).
  - destruct (insertionSort cmp rest) as [sorted| |] eqn:Hs; simpl in H.
    + destruct (insertNode_abrupt x sorted r H Hr) as (y & Hy & Hc).
      exists x, y. split; [now left|]. split; [|exact Hc]. right.
      apply list_elem_of_In. rewrite <- (insertionSort_Permutation _ _ Hs).
      now apply list_elem_of_In.
    + destruct (IH (Throw msg) eq_refl) as (a & b & Ha & Hb & Hc); [discriminate|].
      subst r. exists a, b. split; [now right|]. split; [now right|exact Hc].
    + destruct (IH NoFuel eq_refl) as (a & b & Ha & Hb & Hc); [discriminate|].
      subst r. exists a, b. split; [now right|]. split; [now right|exact Hc].
Qed.

Section Ordered.
Variable v : TreeNode -> TreeNode -> Z.
Variable l : list TreeNode.
Hypothesis v_cmp : forall a b, In a l -> In b l -> cmp a b = Ok (v a b).
Hypothesis v_refl : forall a, In a l -> v a a = 0%Z.
Hypothesis v_sym : forall a b, In a l -> In b l -> v a b = 0%Z -> v b a = 0%Z.
Hypothesis v_eq : forall a b c, In a l -> In b l -> In c l ->
  v a b = 0%Z -> v b c = 0%Z -> v a c = 0%Z.
Hypothesis v_lt : forall a b c, In a l -> In b l -> In c l ->
  (v a b < 0)%Z -> (v b c < 0)%Z -> (v a c < 0)%Z.
Hypothesis v_gt : forall a b c, In a l -> In b l -> In c l ->
  (0 < v a b)%Z -> (0 < v b c)%Z -> (0 < v a c)%Z.

Lemma insertNode_sorted x sorted :
  In x l -> incl sorted l ->
  StronglySorted (fun a b => (v a b <= 0)%Z) sorted ->
  forall out, insertNode cmp x sorted = Ok out ->
    StronglySorted (fun a b => (v a b <= 0)%Z) out.
Proof.
  intros Hx. induction sorted as [|y rest IH]; intros Hincl Hsorted out H;
    simpl in H.
  - injection H as <-. repeat constructor.
  - assert (Hy : In y l) by (apply Hincl; now left).
    assert (Hrest : incl rest l) by (intros z Hz; apply Hincl; now right).
    rewrite (v_cmp x y Hx Hy) in H. simpl in H.
    apply StronglySorted_inv in Hsorted. destruct Hsorted as [Hsr Hall].
    destruct (Z.leb_spec (v x y) 0) as [Hle|Hgt].
    + injection H as <-. constructor; [constructor; assumption|].
      constructor; [exact Hle|].
      rewrite List.Forall_forall in Hall |- *. intros z Hz.
      apply (not_after_trans v l v_refl v_sym v_eq v_lt v_gt x y z); auto.
    + destruct (insertNode cmp x rest) as [rest'| |] eqn:Hr; simpl in H;
        try discriminate.
      injection H as <-. constructor; [now apply IH|].
      rewrite List.Forall_forall in Hall |- *. intros z Hz.
      apply list_elem_of_In in Hz. rewrite (insertNode_Permutation _ _ _ Hr) in Hz.
      apply list_elem_of_In in Hz. destruct Hz as [<-|Hz]; [|auto].
      pose proof (after_before v l v_refl v_sym v_gt x y Hx Hy Hgt). lia.
Qed.

Lemma insertionSort_sorted sub :
  incl sub l ->
  forall out, insertionSort cmp sub = Ok out ->
    StronglySorted (fun a b => (v a b <= 0)%Z) out.
Proof.
  induction sub as [|x rest IH]; intros Hincl out H; simpl in H.
  - injection H as <-. constructor.
  - destruct (insertionSort cmp rest) as [sorted| |] eqn:Hs; simpl in H;
      try discriminate.
    assert (Hrest : incl rest l) by (intros z Hz; apply Hincl; now right).
    apply (insertNode_sorted x sorted); auto.
    + apply Hincl. now left.
    + intros z Hz. apply Hrest. apply list_elem_of_In.
      rewrite <- (insertionSort_Permutation _ _ Hs). now apply list_elem_of_In.
Qed.

End Ordered.
End Insertion.

Lemma StronglySorted_lookup {A} (R : A -> A -> Prop) (l : list A) :
  StronglySorted R l ->
  forall i j a b, (i < j)%nat -> l !! i = Some a -> l !! j = Some b -> R a b.
Proof.
  induction 1 as [|x l Hs IH Hall]; intros i j a b Hij Hi Hj.
  - discriminate.
  - destruct j as [|j]; [lia|]. simpl in Hj. destruct i as [|i].
    + injection Hi as <-. rewrite List.Forall_forall in Hall. apply Hall.
      apply list_elem_of_In. eapply list_elem_of_lookup_2. exact Hj.
    + simpl in Hi. apply (IH i j); [lia|exact Hi|exact Hj].
Qed.

Lemma insertionSort_conforming : conforming insertionSort.
Proof.
  constructor.
  - intros cmp l out. apply insertionSort_Permutation.
  - intros cmp l msg H.
    destruct (insertionSort_abrupt cmp l (Throw msg) H) as (a & b & Hab);
      [discriminate|]. eauto.
  - intros cmp l H.
    destruct (insertionSort_abrupt cmp l NoFuel H) as (a & b & Hab);
      [discriminate|]. eauto.
  - intros cmp l out (v & Hcmp & Hrefl & Hsym & Heq & Hlt & Hgt) Hsort
           i j a b z Hi Hj Hz Hneg.
    pose proof (insertionSort_Permutation cmp l out Hsort) as Hperm.
    assert (Ha : In a l).
    { apply list_elem_of_In. rewrite <- Hperm. eapply list_elem_of_lookup_2. exact Hi. }
    assert (Hb : In b l).
    { apply list_elem_of_In. rewrite <- Hperm. eapply list_elem_of_lookup_2. exact Hj. }
    rewrite (Hcmp a b Ha Hb) in Hz. injection Hz as <-.
    pose proof (insertionSort_sorted cmp v l Hcmp Hrefl Hsym Heq Hlt Hgt l
                  (fun x Hx => Hx) out Hsort) as Hsorted.
    destruct (Nat.lt_trichotomy i j) as [H|[H|H]]; [exact H| |].
    + subst j. rewrite Hi in Hj. injection Hj as <-.
      rewrite (Hrefl a Ha) in Hneg. lia.
    + pose proof (StronglySorted_lookup _ _ Hsorted j i b a H Hj Hi) as Hle.
      pose proof (before_after v l Hrefl Hsym Hlt a b Ha Hb Hneg). simpl in Hle. lia.
Qed.

(** Code-unit order is a collation that orders the strings. *)
Lemma ascii_compare_trans (a b c : ascii) (o : comparison) :
  Ascii.compare a b = o -> Ascii.compare b c = o -> Ascii.compare a c = o.
Proof.
  unfold Ascii.compare. destruct o; intros H1 H2.
  - apply N.compare_eq_iff in H1. apply N.compare_eq_iff in H2.
    apply N.compare_eq_iff. congruence.
  - apply N.compare_lt_iff in H1. apply N.compare_lt_iff in H2.
    apply N.compare_lt_iff. eapply N.lt_trans; eassumption.
  - apply N.compare_gt_iff in H1. apply N.compare_gt_iff in H2.
    apply N.compare_gt_iff. eapply N.lt_trans; eassumption.
Qed.

Lemma string_compare_refl (a : string) : String.compare a a = Eq.
Proof.
  induction a as [|x a IH]; [reflexivity|]. simpl.
  assert (Ascii.compare x x = Eq) as -> by (apply N.compare_refl). exact IH.
Qed.

Lemma string_compare_trans (o : comparison) :
  forall a b c : string,
    String.compare a b = o -> String.compare b c = o -> String.compare a c = o.
Proof.
  induction a as [|x a IH]; intros b c H1 H2.
  - destruct b as [|y b]; [exact H2|]. simpl in H1.
    destruct c as [|z c]; simpl in *; congruence.
  - destruct b as [|y b]; simpl in H1.
    + destruct c as [|z c]; simpl in *; congruence.
    + destruct c as [|z c]; simpl in H2; [simpl; congruence|].
      simpl.
      destruct (Ascii.compare x y) eqn:Exy; destruct (Ascii.compare y z) eqn:Eyz.
      * rewrite (ascii_compare_trans _ _ _ Eq Exy Eyz). now apply (IH b c).
      * apply Ascii.compare_eq_iff in Exy. subst y. rewrite Eyz. congruence.
      * apply Ascii.compare_eq_iff in Exy. subst y. rewrite Eyz. congruence.
      * apply Ascii.compare_eq_iff in Eyz. subst z. rewrite Exy. congruence.
      * rewrite (ascii_compare_trans _ _ _ Lt Exy Eyz). congruence.
      * congruence.
      * apply Ascii.compare_eq_iff in Eyz. subst z. rewrite Exy. congruence.
      * congruence.
      * rewrite (ascii_compare_trans _ _ _ Gt Exy Eyz). congruence.
Qed.

Lemma codeUnitCompare_consistent : consistentCollation codeUnitCompare.
Proof.
  unfold consistentCollation, codeUnitCompare.
  split; [|split; [|split; [|split]]].
  - intros a. now rewrite string_compare_refl.
  - intros a b. rewrite (String.compare_antisym a b).
    destruct (String.compare b a); simpl; intros H; try discriminate; reflexivity.
  - intros a b c H1 H2.
    destruct (String.compare a b) eqn:E1; try discriminate.
    destruct (String.compare b c) eqn:E2; try discriminate.
    now rewrite (string_compare_trans Eq a b c E1 E2).
  - intros a b c H1 H2.
    destruct (String.compare a b) eqn:E1; try lia.
    destruct (String.compare b c) eqn:E2; try lia.
    rewrite (string_compare_trans Lt a b c E1 E2). lia.
  - intros a b c H1 H2.
    destruct (String.compare a b) eqn:E1; try lia.
    destruct (String.compare b c) eqn:E2; try lia.
    rewrite (string_compare_trans Gt a b c E1 E2). lia.
Qed.

End SortFacts.

Module TreeFacts.
Import FileTree.

Section WithBuilder.
Variable arraySort : ArraySort.
Variable localeCompare : string -> string -> Z.
Variable entityMap : gmap string json.
Hypothesis engine : conforming arraySort.

(** *** Sorting keeps the nodes *)

Lemma sort_In cmp l out :
  arraySort cmp l = Ok out -> forall c, In c out <-> In c l.
Proof.
  intros H c. apply (sort_permutes _ engine) in H.
  split; intros Hc; apply list_elem_of_In; apply list_elem_of_In in Hc.
  - now rewrite <- H.
  - now rewrite H.
Qed.

Lemma compareNodes_fuel a b : compareNodes localeCompare a b <> NoFuel.
Proof.
  unfold compareNodes.
  repeat match goal with
         | |- context [if ?b then _ else _] => destruct b
         | |- context [match name ?n with _ => _ end] => destruct (name n)
         end; discriminate.
Qed.

Lemma sortNodes_fuel l : arraySort (compareNodes localeCompare) l <> NoFuel.
Proof.
  intros H. destruct (sort_fuel _ engine _ _ H) as (a & b & _ & _ & Hc).
  now apply compareNodes_fuel in Hc.
Qed.

Lemma compareNodes_strNamed a b :
  strNamed a -> exists z, compareNodes localeCompare a b = Ok z.
Proof.
  intros [s Hs]. unfold compareNodes. rewrite Hs.
  repeat match goal with
         | |- context [if ?b then _ else _] => destruct b
         end; eauto.
Qed.

Lemma sortNodes_strNamed l :
  Forall strNamed l -> exists out, arraySort (compareNodes localeCompare) l = Ok out.
Proof.
  intros Hall.
  destruct (arraySort (compareNodes localeCompare) l) as [out|msg|] eqn:E; [eauto| |].
  - destruct (sort_throws _ engine _ _ _ E) as (a & b & Ha & _ & Hc).
    rewrite List.Forall_forall in Hall.
    destruct (compareNodes_strNamed a b (Hall a Ha)) as [z Hz]. congruence.
  - now apply sortNodes_fuel in E.
Qed.

(** A single node is sorted without a call that matters. *)
Lemma sort_single cmp x z :
  cmp x x = Ok z -> arraySort cmp [x] = Ok [x].
Proof.
  intros Hc. destruct (arraySort cmp [x]) as [out|msg|] eqn:E.
  - apply (sort_permutes _ engine) in E. apply Permutation_singleton_r in E.
    now subst out.
  - destruct (sort_throws _ engine _ _ _ E) as (a & b & [<-|[]] & [<-|[]] & H).
    congruence.
  - destruct (sort_fuel _ engine _ _ E) as (a & b & [<-|[]] & [<-|[]] & H).
    congruence.
Qed.

(** A call on an identifier that was not visited. *)
Lemma buildTree_fuel_step fuel entityId visited :
  entityId ∉ visited ->
  buildTree_fuel arraySort localeCompare entityMap (S fuel) entityId visited =
  (let* children :=
     collectChildren
       (fun s => buildTree_fuel arraySort localeCompare entityMap fuel s
                   ({[entityId]} ∪ visited))
       (partsOf (entityMap !! entityId)) in
   let* sorted := arraySort (compareNodes localeCompare) children in
   Ok (Node (getNodeName (entityMap !! entityId) entityId) entityId
            (typeOf (entityMap !! entityId)) sorted
            (match entityMap !! entityId with
             | Some e => if truthy e then Some e else Some JNull
             | None => Some JNull
             end))).
Proof.
  intros H. simpl. destruct (decide (entityId ∈ visited)); [contradiction|reflexivity].
Qed.

(** *** What the loop over the parts pushes *)

Lemma pushPart_In (bld : string -> Res TreeNode) part out c :
  pushPart bld part = Ok out -> In c out -> exists s, bld s = Ok c.
Proof.
  unfold pushPart. intros H Hc.
  destruct (partId part) as [pid| |]; simpl in H; try discriminate.
  destruct pid; try (injection H as <-; now destruct Hc).
  destruct (bld s) as [child| |] eqn:Hb; simpl in H; try discriminate.
  injection H as <-. destruct Hc as [<-|[]]. eauto.
Qed.

Lemma collectChildren_In (bld : string -> Res TreeNode) parts out c :
  collectChildren bld parts = Ok out -> In c out -> exists s, bld s = Ok c.
Proof.
  unfold collectChildren. intros H Hc.
  destruct (res_mapM (pushPart bld) parts) as [pushed| |] eqn:Hp;
    simpl in H; try discriminate.
  injection H as <-.
  apply in_concat in Hc. destruct Hc as [one [Hone Hc]].
  apply res_mapM_inv in Hp.
  revert one Hone Hc. induction Hp as [|x y xs ys Hxy _ IH]; intros one Hone Hc.
  - destruct Hone.
  - destruct Hone as [<-|Hone]; [now apply (pushPart_In bld x y c)|eauto].
Qed.

(** *** The invariant of the walk *)

Lemma path_nonempty t p : path t p -> p <> [].
Proof. destruct 1; discriminate. Qed.

Lemma buildTree_fuel_id fuel entityId visited t :
  buildTree_fuel arraySort localeCompare entityMap fuel entityId visited = Ok t ->
  id t = entityId.
Proof.
  destruct fuel as [|fuel]; simpl; [discriminate|].
  destruct (decide (entityId ∈ visited)).
  - intros [= <-]. reflexivity.
  - destruct (collectChildren _ _) as [cs| |]; simpl; try discriminate.
    destruct (arraySort (compareNodes localeCompare) cs) as [sorted| |]; simpl; try discriminate.
    intros [= <-]. reflexivity.
Qed.

Lemma path_inv t p :
  path t p ->
  p = [t] \/ exists c p', p = t :: p' /\ In c (children t) /\ path c p'.
Proof. destruct 1; eauto 6. Qed.

Lemma snoc_single {A} (q : list A) (l t : A) :
  (q ++ [l])%list = [t] -> q = [] /\ l = t.
Proof.
  destruct q as [|a q]; simpl; intros H.
  - now injection H.
  - destruct q; discriminate.
Qed.

Lemma snoc_cons {A} (q p' : list A) (l t : A) :
  (q ++ [l])%list = t :: p' -> p' <> [] ->
  exists q', q = t :: q' /\ p' = (q' ++ [l])%list.
Proof.
  destruct q as [|a q]; simpl; intros H Hne.
  - injection H as _ <-. now destruct Hne.
  - injection H as -> <-. eauto.
Qed.

Lemma buildTree_fuel_pathsOk fuel :
  forall entityId visited t,
    buildTree_fuel arraySort localeCompare entityMap fuel entityId visited = Ok t ->
    pathsOk visited t.
Proof.
  induction fuel as [|fuel IH]; intros entityId visited t; simpl; [discriminate|].
  destruct (decide (entityId ∈ visited)) as [Hin|Hout].
  - intros [= <-] q l Hpath.
    destruct (path_inv _ _ Hpath) as [Hone|(c & p' & _ & Hc & _)]; [|destruct Hc].
    apply snoc_single in Hone. destruct Hone as [-> ->].
    split; [constructor|]. split; [intros x []|].
    intros _. split; reflexivity.
  - destruct (collectChildren _ _) as [cs| |] eqn:Hcs; simpl; try discriminate.
    destruct (arraySort (compareNodes localeCompare) cs) as [sorted| |] eqn:Hsort;
      simpl; try discriminate.
    intros [= <-] q l Hpath.
    destruct (path_inv _ _ Hpath) as [Hone|(c & p' & Hp & Hc & Hpc)].
    + apply snoc_single in Hone. destruct Hone as [-> ->]. simpl.
      split; [constructor|]. split; [intros x []|].
      intros [[]|Hv]. contradiction.
    + simpl in Hc.
      apply (sort_In _ _ _ Hsort) in Hc.
      destruct (collectChildren_In _ _ _ _ Hcs Hc) as [s Hs].
      pose proof (IH _ _ _ Hs) as Hchild.
      destruct (snoc_cons _ _ _ _ Hp (path_nonempty _ _ Hpc)) as (q' & -> & ->).
      destruct (Hchild q' l Hpc) as [Hnd [Hfresh Hlink]].
      simpl. split; [|split].
      * constructor; [|exact Hnd].
        intros Habs. apply Hfresh in Habs. set_solver.
      * intros x [<-|Hx]; [exact Hout|].
        apply Hfresh in Hx. set_solver.
      * intros Hmet. apply Hlink. destruct Hmet as [[Heq|Hq]|Hv].
        -- right. rewrite <- Heq. set_solver.
        -- now left.
        -- right. set_solver.
Qed.

(** *** Termination *)

Lemma pushPart_fuel (bld : string -> Res TreeNode) part :
  (forall s, bld s <> NoFuel) -> pushPart bld part <> NoFuel.
Proof.
  intros Hb. unfold pushPart, partId, getProp.
  destruct part; simpl; try discriminate.
  - specialize (Hb s). destruct (bld s); simpl; congruence.
  - destruct (lookupField "@id" fields) as [v|]; simpl; [|discriminate].
    destruct (truthy v); [|discriminate].
    destruct v; try discriminate.
    specialize (Hb s). destruct (bld s); simpl; congruence.
Qed.

Lemma collectChildren_fuel (bld : string -> Res TreeNode) parts :
  (parts <> [] -> forall s, bld s <> NoFuel) -> collectChildren bld parts <> NoFuel.
Proof.
  intros Hb. unfold collectChildren.
  destruct (res_mapM (pushPart bld) parts) eqn:Hp; simpl; try discriminate.
  exfalso. revert Hp. apply res_mapM_fuel.
  intros x Hx. apply pushPart_fuel. apply Hb. now destruct parts.
Qed.

Lemma partsOf_dom entityId :
  partsOf (entityMap !! entityId) <> [] -> entityId ∈ dom entityMap.
Proof.
  intros Hparts. apply elem_of_dom.
  destruct (entityMap !! entityId); [eauto|]. now destruct Hparts.
Qed.

Lemma unvisited_shrinks entityId (visited : gset string) :
  entityId ∈ dom entityMap -> entityId ∉ visited ->
  (size (dom entityMap ∖ ({[entityId]} ∪ visited))
     < size (dom entityMap ∖ visited))%nat.
Proof.
  intros Hdom Hout. apply subset_size. set_solver.
Qed.

Lemma buildTree_fuel_enough fuel :
  forall entityId visited,
    (size (dom entityMap ∖ visited) < fuel)%nat ->
    buildTree_fuel arraySort localeCompare entityMap fuel entityId visited <> NoFuel.
Proof.
  induction fuel as [|fuel IH]; intros entityId visited Hsize; [lia|]. simpl.
  destruct (decide (entityId ∈ visited)) as [Hin|Hout]; [discriminate|].
  destruct (collectChildren _ _) as [cs| |] eqn:Hcs; simpl; try discriminate.
  - destruct (arraySort (compareNodes localeCompare) cs) eqn:Hsort; simpl; try discriminate.
    now apply sortNodes_fuel in Hsort.
  - exfalso. eapply collectChildren_fuel; [|exact Hcs].
    intros Hparts s. apply IH.
    pose proof (unvisited_shrinks entityId visited (partsOf_dom _ Hparts) Hout).
    lia.
Qed.

Lemma buildTree_terminates entityId :
  buildTree arraySort localeCompare entityMap entityId ∅ <> NoFuel.
Proof.
  unfold buildTree. apply buildTree_fuel_enough.
  replace (dom entityMap ∖ ∅) with (dom entityMap) by set_solver.
  rewrite size_dom. lia.
Qed.

(** *** Plain documents are built without a throw *)

Lemma getNodeName_string (entity : option json) ident :
  match entity with
  | Some e => stringOrFalsy (getPropOpt e "name")
  | None => True
  end ->
  exists s, getNodeName entity ident = JStr s.
Proof.
  unfold getNodeName. destruct entity as [e|]; [|eauto].
  destruct (truthy e); [|eauto].
  destruct (getPropOpt e "name") as [n|]; [|eauto].
  intros Hn.
  destruct n as [| b | r | str | items | fields]; simpl in *;
    try rewrite Hn; eauto; try discriminate.
  destruct (negb _); eauto.
Qed.

Lemma pushPart_plain (bld : string -> Res TreeNode) part :
  part <> JNull ->
  (forall s, exists t, bld s = Ok t /\ strNamed t) ->
  exists out, pushPart bld part = Ok out /\ Forall strNamed out.
Proof.
  intros Hnn Hb. unfold pushPart, partId, getProp.
  destruct part; simpl; try contradiction; eauto.
  - destruct (Hb s) as (t & -> & Ht). simpl. eauto.
  - destruct (lookupField "@id" fields) as [v|]; simpl; [|eauto].
    destruct (truthy v); [|eauto].
    destruct v; eauto.
    destruct (Hb s) as (t & -> & Ht). simpl. eauto.
Qed.

Lemma collectChildren_plain (bld : string -> Res TreeNode) parts :
  Forall (fun part => part <> JNull) parts ->
  (parts <> [] -> forall s, exists t, bld s = Ok t /\ strNamed t) ->
  exists cs, collectChildren bld parts = Ok cs /\ Forall strNamed cs.
Proof.
  intros Hparts Hb. unfold collectChildren.
  assert (Hall : exists pushed, res_mapM (pushPart bld) parts = Ok pushed /\
                                  Forall (Forall strNamed) pushed).
  { induction Hparts as [|part rest Hpart _ IH]; simpl; [eauto|].
    destruct (pushPart_plain bld part Hpart) as (out & -> & Hout);
      [apply Hb; discriminate|].
    simpl. destruct IH as (pushed & -> & Hpushed).
    - intros _. apply Hb. discriminate.
    - simpl. eauto. }
  destruct Hall as (pushed & -> & Hpushed). simpl.
  eexists; split; [reflexivity|].
  induction Hpushed as [|one more Hone _ IH]; simpl; [constructor|].
  apply Forall_app. split; assumption.
Qed.

Hypothesis entities_plain : map_Forall (fun _ e => plainEntity e) entityMap.

Lemma buildTree_fuel_plain fuel :
  forall entityId visited,
    (size (dom entityMap ∖ visited) < fuel)%nat ->
    exists t, buildTree_fuel arraySort localeCompare entityMap fuel entityId visited = Ok t /\
              strNamed t.
Proof.
  induction fuel as [|fuel IH]; intros entityId visited Hsize; [lia|]. simpl.
  destruct (decide (entityId ∈ visited)) as [Hin|Hout].
  { eexists; split; [reflexivity|]. eexists; reflexivity. }
  assert (Hentity : match entityMap !! entityId with
                    | Some e => plainEntity e
                    | None => True
                    end).
  { destruct (entityMap !! entityId) as [e|] eqn:He; [|exact I].
    exact (entities_plain _ _ He). }
  destruct (collectChildren_plain
              (fun s => buildTree_fuel arraySort localeCompare entityMap fuel s
                          ({[entityId]} ∪ visited))
              (partsOf (entityMap !! entityId))) as (cs & -> & Hcs).
  - destruct (entityMap !! entityId) as [e|]; [apply Hentity|constructor].
  - intros Hparts s. apply IH.
    pose proof (unvisited_shrinks entityId visited (partsOf_dom _ Hparts) Hout).
    lia.
  - simpl. destruct (sortNodes_strNamed cs Hcs) as [sorted ->]. simpl.
    eexists; split; [reflexivity|].
    unfold strNamed. simpl. apply getNodeName_string.
    destruct (entityMap !! entityId) as [e|]; [apply Hentity|exact I].
Qed.

Lemma buildTree_plain entityId :
  exists t, buildTree arraySort localeCompare entityMap entityId ∅ = Ok t.
Proof.
  destruct (buildTree_fuel_plain (S (size entityMap)) entityId ∅) as (t & Ht & _).
  - replace (dom entityMap ∖ ∅) with (dom entityMap) by set_solver.
    rewrite size_dom. lia.
  - eauto.
Qed.

End WithBuilder.

(** *** Filling the entity map and finding the root *)

Lemma fillEntityMap_fuel entities :
  forall m, fillEntityMap entities m <> NoFuel.
Proof.
  induction entities as [|e rest IH]; intros m; simpl; [discriminate|].
  destruct e; simpl; try apply IH; try discriminate.
  destruct (lookupField "@id" fields) as [[]|]; apply IH.
Qed.

Lemma fillEntityMap_plain (P : json -> Prop) entities :
  Forall (fun e => e <> JNull /\ P e) entities ->
  forall m, map_Forall (fun _ e => P e) m ->
    exists m', fillEntityMap entities m = Ok m' /\ map_Forall (fun _ e => P e) m'.
Proof.
  induction 1 as [|e rest [Hnn He] _ IH]; intros m Hm; simpl; [eauto|].
  destruct e; simpl; try contradiction; try (now apply IH).
  destruct (lookupField "@id" fields) as [[]|]; try (now apply IH).
  apply IH. now apply map_Forall_insert_2.
Qed.

Lemma findRootEntity_fuel entities : findRootEntity entities <> NoFuel.
Proof.
  induction entities as [|e rest IH]; simpl; [discriminate|].
  destruct e; simpl; try apply IH; try discriminate.
  destruct (_ || _); [discriminate|apply IH].
Qed.

Lemma findRootEntity_plain entities :
  Forall (fun e => e <> JNull) entities ->
  exists r, findRootEntity entities = Ok r.
Proof.
  induction 1 as [|e rest Hnn _ IH]; simpl; [eauto|].
  destruct e; simpl; try contradiction; try exact IH.
  destruct (_ || _); [eauto|exact IH].
Qed.

Lemma isStr_eq (v : option json) (s : string) :
  isStr v s = true -> v = Some (JStr s).
Proof.
  unfold isStr, strictEq. destruct v as [[]|]; try discriminate.
  intros H. apply String.eqb_eq in H. now subst.
Qed.

Lemma findRootEntity_id entities root :
  findRootEntity entities = Ok (Some root) ->
  getPropOpt root "@id" = Some (JStr "./") \/ getPropOpt root "@id" = Some (JStr ".").
Proof.
  induction entities as [|e rest IH]; simpl; [discriminate|].
  destruct (getProp e "@id") as [i| |] eqn:Hi; simpl; try discriminate.
  destruct (isStr i "./" || isStr i ".") eqn:Hroot; [|exact IH].
  intros [= <-].
  assert (getPropOpt e "@id" = i) as ->.
  { destruct e; simpl in *; try discriminate; congruence. }
  apply orb_true_iff in Hroot. destruct Hroot as [H|H]; apply isStr_eq in H; auto.
Qed.

End TreeFacts.

(** C9.  The entity [{"@id":"x","hasPart":[{"@id":"x"}]}] taken as root: the
    walk returns, whatever the collation and whatever the engine that sorts
    the children, the root node ["x"] with exactly one child, which is a node
    of type Link with identifier ["x"] and no children. *)
Theorem buildTree_self_reference
    (arraySort : FileTree.ArraySort) (localeCompare : string -> string -> Z) :
  FileTree.conforming arraySort ->
  exists entityMap,
    FileTree.fillEntityMap [FileTree.selfReferencing "x"] ∅ = Ok entityMap /\
    FileTree.buildTree arraySort localeCompare entityMap "x" ∅ =
    Ok (FileTree.Node (JStr "x") "x" (Some (JStr "File"))
          [FileTree.Node (JStr "x (Link)") "x" (Some (JStr "Link")) []
             (Some (FileTree.selfReferencing "x"))]
          (Some (FileTree.selfReferencing "x"))).
Proof.
  intros engine. eexists. split; [reflexivity|].
  unfold FileTree.buildTree.
  match goal with
  | |- FileTree.buildTree_fuel _ _ ?m _ _ _ = _ => set (entityMap := m)
  end.
  replace (size entityMap) with 1%nat by (vm_compute; reflexivity).
  rewrite TreeFacts.buildTree_fuel_step by set_solver.
  assert (Hc : FileTree.collectChildren
                 (fun s => FileTree.buildTree_fuel arraySort localeCompare
                             entityMap 1 s ({["x"]} ∪ ∅))
                 (FileTree.partsOf (entityMap !! "x"))
               = Ok [FileTree.Node (JStr "x (Link)") "x" (Some (JStr "Link")) []
                       (Some (FileTree.selfReferencing "x"))])
    by (vm_compute; reflexivity).
  rewrite Hc. cbn [res_bind].
  rewrite (TreeFacts.sort_single arraySort engine
             (FileTree.compareNodes localeCompare)
             (FileTree.Node (JStr "x (Link)") "x" (Some (JStr "Link")) []
                (Some (FileTree.selfReferencing "x")))
             (localeCompare "x (Link)" "x (Link)") eq_refl).
  vm_compute. reflexivity.
Qed.

(** The same with the engine and the collation of the examples. *)
Lemma buildTree_self_reference_witness :
  exists entityMap,
    FileTree.fillEntityMap [FileTree.selfReferencing "x"] ∅ = Ok entityMap /\
    FileTree.buildTree FileTree.insertionSort FileTree.codeUnitCompare
      entityMap "x" ∅ =
    Ok (FileTree.Node (JStr "x") "x" (Some (JStr "File"))
          [FileTree.Node (JStr "x (Link)") "x" (Some (JStr "Link")) []
             (Some (FileTree.selfReferencing "x"))]
          (Some (FileTree.selfReferencing "x"))).
Proof.
  apply (buildTree_self_reference FileTree.insertionSort FileTree.codeUnitCompare).
  apply SortFacts.insertionSort_conforming.
Defined.

(** C10.  An element of a part list that is not [null], not a string and not
    an object whose ["@id"] is a string pushes no child and throws nothing:
    the children collected from a part list are the ones collected from the
    list without that element, whatever the recursive call does. *)
Theorem buildTree_drops_untyped_part
    (build : string -> Res FileTree.TreeNode) (before after : list json)
    (part : json) :
  part <> JNull ->
  isString part = false ->
  (forall s, getPropOpt part "@id" <> Some (JStr s)) ->
  FileTree.pushPart build part = Ok [] /\
  FileTree.collectChildren build (before ++ part :: after) =
  FileTree.collectChildren build (before ++ after).
Proof.
  intros Hnull Hstr Hid.
  assert (Hpush : FileTree.pushPart build part = Ok []).
  { unfold FileTree.pushPart, FileTree.partId, getProp.
    destruct part as [| b | r | s | items | fields]; simpl in *;
      try reflexivity; try contradiction; try discriminate.
    destruct (lookupField "@id" fields) as [v|] eqn:Hv; simpl; [|reflexivity].
    destruct (truthy v); [|reflexivity].
    destruct v; try reflexivity. now destruct (Hid s). }
  split; [exact Hpush|].
  unfold FileTree.collectChildren.
  rewrite !res_mapM_app. simpl. rewrite Hpush. simpl.
  destruct (res_mapM (FileTree.pushPart build) before) as [ys1| |]; simpl;
    try reflexivity.
  destruct (res_mapM (FileTree.pushPart build) after) as [ys2| |]; simpl;
    try reflexivity.
  now rewrite !concat_app.
Qed.

(** A number between two parts of the scenario root. *)
Lemma buildTree_drops_untyped_part_witness :
  FileTree.collectChildren
    (fun s => FileTree.buildTree FileTree.insertionSort FileTree.codeUnitCompare ∅ s ∅)
    ([JStr "a.txt"] ++ JNum "5" :: [JObj [("@id", JStr "b.txt")]]) =
  FileTree.collectChildren
    (fun s => FileTree.buildTree FileTree.insertionSort FileTree.codeUnitCompare ∅ s ∅)
    ([JStr "a.txt"] ++ [JObj [("@id", JStr "b.txt")]]).
Proof.
  apply (buildTree_drops_untyped_part
           (fun s => FileTree.buildTree FileTree.insertionSort FileTree.codeUnitCompare ∅ s ∅)
           [JStr "a.txt"] [JObj [("@id", JStr "b.txt")]] (JNum "5")).
  - discriminate.
  - reflexivity.
  - intros s. simpl. discriminate.
Defined.

(** C1, as the code has it, for every engine that sorts as the language
    requires.  The walk always terminates.  On a document none of whose
    entities or parts is [null] and whose names are strings it returns a
    tree, whether the root is the root dataset of the crate instance (which
    [buildTree] takes by its string identifier) or the root entity found in
    the list.  Whenever it returns a tree, the identifier of the root node is
    the one of the root entity, and on every path from the root the nodes
    above the last carry pairwise distinct identifiers, the last node
    repeating one of them only if it is a terminal node of type Link. *)
Theorem fileTree_cycle_safe
    (arraySort : FileTree.ArraySort) (localeCompare : string -> string -> Z)
    (rootDataset : option json) (allEntities : list json)
    (currentCrateName : json) :
  FileTree.conforming arraySort ->
  FileTree.fileTree arraySort localeCompare rootDataset allEntities
    currentCrateName <> NoFuel /\
  (Forall FileTree.plainEntity allEntities ->
   (forall root, rootDataset = Some root -> truthy root = true ->
                 exists s, getPropOpt root "@id" = Some (JStr s)) ->
   exists t, FileTree.fileTree arraySort localeCompare rootDataset allEntities
               currentCrateName = Ok t) /\
  (forall t,
      FileTree.fileTree arraySort localeCompare rootDataset allEntities
        currentCrateName = Ok t ->
      (forall root,
          FileTree.rootEntityOf rootDataset allEntities = Ok (Some root) ->
          getPropOpt root "@id" = Some (JStr (FileTree.id t))) /\
      (forall q l,
          FileTree.path t (q ++ [l]) ->
          List.NoDup (List.map FileTree.id q) /\
          (In (FileTree.id l) (List.map FileTree.id q) -> FileTree.isLink l))).
Proof.
  intros engine.
  unfold FileTree.fileTree, FileTree.rootEntityOf.
  split; [|split].
  - destruct (truthyOpt rootDataset); simpl.
    + destruct rootDataset as [root|]; [|discriminate].
      pose proof (TreeFacts.fillEntityMap_fuel allEntities ∅) as Hfill.
      destruct (FileTree.fillEntityMap allEntities ∅) as [m| |]; simpl;
        try discriminate; try congruence.
      destruct (getPropOpt root "@id") as [[]|]; try discriminate.
      now apply TreeFacts.buildTree_terminates.
    + pose proof (TreeFacts.findRootEntity_fuel allEntities) as Hfind.
      destruct (FileTree.findRootEntity allEntities) as [[root|]| |] eqn:Hroot;
        simpl; try discriminate; try congruence.
      pose proof (TreeFacts.fillEntityMap_fuel allEntities ∅) as Hfill.
      destruct (FileTree.fillEntityMap allEntities ∅) as [m| |]; simpl;
        try discriminate; try congruence.
      destruct (getPropOpt root "@id") as [[]|]; try discriminate.
      now apply TreeFacts.buildTree_terminates.
  - intros Hplain Hid.
    destruct (TreeFacts.fillEntityMap_plain FileTree.plainEntity allEntities)
      with (m := (∅ : gmap string json)) as (m & Hm & Hmplain).
    { eapply Forall_impl; [exact Hplain|]. intros e He. split; [apply He|exact He]. }
    { apply map_Forall_empty. }
    destruct (truthyOpt rootDataset) eqn:Hds.
    + destruct rootDataset as [root|]; [|discriminate]. simpl. rewrite Hm. simpl.
      destruct (Hid root eq_refl Hds) as [s ->].
      now apply TreeFacts.buildTree_plain.
    + destruct (TreeFacts.findRootEntity_plain allEntities) as [r Hr].
      { eapply Forall_impl; [exact Hplain|]. intros e He. apply He. }
      rewrite Hr. simpl. destruct r as [root|]; [|eauto].
      rewrite Hm. simpl.
      destruct (TreeFacts.findRootEntity_id _ _ Hr) as [-> | ->];
        now apply TreeFacts.buildTree_plain.
  - intros t Ht.
    destruct (if truthyOpt rootDataset then Ok rootDataset
              else FileTree.findRootEntity allEntities) as [[root|]| |] eqn:Hroot;
      simpl in Ht; try discriminate.
    + destruct (FileTree.fillEntityMap allEntities ∅) as [m| |]; simpl in Ht;
        try discriminate.
      destruct (getPropOpt root "@id") as [[| | | rootId | |]|] eqn:Hid;
        try discriminate.
      split.
      * intros root' [= <-]. rewrite Hid.
        now rewrite (TreeFacts.buildTree_fuel_id _ _ _ _ _ _ _ Ht).
      * intros q l Hpath.
        destruct (TreeFacts.buildTree_fuel_pathsOk _ _ _ engine _ _ _ _ Ht q l Hpath)
          as (Hnd & _ & Hlink).
        split; [exact Hnd|]. intros Hin. apply Hlink. now left.
    + injection Ht as <-. split; [discriminate|].
      intros q l Hpath.
      destruct (TreeFacts.path_inv _ _ Hpath) as [Hone|(c & p' & _ & Hc & _)];
        [|destruct Hc].
      apply TreeFacts.snoc_single in Hone. destruct Hone as [-> ->].
      split; [constructor|intros []].
Qed.

(** The two-entity scenario, the crate instance naming the root: a tree
    comes back, rooted at ["./"]. *)
Lemma fileTree_cycle_safe_witness :
  exists t,
    FileTree.fileTree FileTree.insertionSort FileTree.codeUnitCompare
      (Some (JObj [("@id", JStr "./");
                   ("hasPart", JArr [JObj [("@id", JStr "a.txt")]])]))
      FileTree.scenarioGraph (JStr "Root") = Ok t /\
    getPropOpt (JObj [("@id", JStr "./");
                      ("hasPart", JArr [JObj [("@id", JStr "a.txt")]])]) "@id"
      = Some (JStr (FileTree.id t)).
Proof.
  destruct (fileTree_cycle_safe FileTree.insertionSort FileTree.codeUnitCompare
              (Some (JObj [("@id", JStr "./");
                           ("hasPart", JArr [JObj [("@id", JStr "a.txt")]])]))
              FileTree.scenarioGraph (JStr "Root")
              SortFacts.insertionSort_conforming) as (_ & Hreturns & Hshape).
  destruct Hreturns as [t Ht].
  - unfold FileTree.scenarioGraph, FileTree.plainEntity.
    repeat constructor; simpl; try discriminate; auto.
  - intros root [= <-] _. exists "./". reflexivity.
  - exists t. split; [exact Ht|].
    apply (Hshape t Ht). reflexivity.
Defined.

(** The invariant as the data model words it, with the terminal link counted
    among the nodes of the path, fails on a root that lists itself as a
    part. *)
Lemma fileTree_link_repeats_identifier :
  exists t,
    FileTree.fileTree FileTree.insertionSort FileTree.codeUnitCompare None
      [FileTree.selfReferencing "./"] (JStr "Root") = Ok t /\
    ~ FileTree.noRepeatOnPaths t.
Proof.
  eexists. split; [vm_compute; reflexivity|].
  intros Hinv.
  match goal with
  | H : FileTree.noRepeatOnPaths (FileTree.Node ?n ?i ?ty [?c] ?d) |- _ =>
      specialize (H [FileTree.Node n i ty [c] d; c]);
      assert (Hpath : FileTree.path (FileTree.Node n i ty [c] d)
                        [FileTree.Node n i ty [c] d; c])
        by (apply (FileTree.path_down _ c); [now left|apply FileTree.path_here])
  end.
  assert (Hdup : List.NoDup ["./"; "./"]).
  { apply (Hinv Hpath). reflexivity. }
  inversion Hdup as [|x rest Hnotin _]; subst. apply Hnotin. now left.
Qed.

(** ** The loader *)

Module LoaderFacts.
Import CrateLoader.

Lemma existsb_root graph :
  existsb isRootEntity graph = true <->
  exists entity, In entity graph /\
                 (getPropOpt entity "@id" = Some (JStr "./") \/
                  getPropOpt entity "@id" = Some (JStr ".")).
Proof.
  rewrite existsb_exists. split; intros (entity & Hin & H); exists entity; split; auto.
  - unfold isRootEntity in H. apply orb_true_iff in H.
    destruct H as [H|H]; apply TreeFacts.isStr_eq in H; auto.
  - unfold isRootEntity. destruct H as [-> | ->]; reflexivity.
Qed.

Lemma hasKey_true k fields :
  hasKey k fields = true <-> exists v, lookupField k fields = Some v.
Proof.
  unfold hasKey. destruct (lookupField k fields); split; eauto; try discriminate.
  intros [v Hv]. discriminate.
Qed.

End LoaderFacts.

(** C7, as the code has it.  Validation passes exactly on the objects that
    hold a context, and a graph that is a non-empty array with at least one
    entity whose identifier is ["./"] or ["."]; and a fetch returns a document
    exactly when the response is ok, its body parses and the parsed data pass
    validation, the document returned being that data. *)
Theorem fetch_succeeds_iff_valid
    (corsProxyUrl : string) (httpGet : string -> CrateLoader.HttpResponse)
    (url : string) (data : json) :
  (CrateLoader.validateRoCrateJson data = Ok tt <->
   exists fields graph,
     data = JObj fields /\
     (exists context, lookupField "@context" fields = Some context) /\
     lookupField "@graph" fields = Some (JArr graph) /\
     graph <> [] /\
     exists entity, In entity graph /\
                    (getPropOpt entity "@id" = Some (JStr "./") \/
                     getPropOpt entity "@id" = Some (JStr "."))) /\
  (CrateLoader.fetchCrateFromUrl corsProxyUrl httpGet url = Ok data <->
   exists status,
     httpGet (CrateLoader.withTrailingSlash corsProxyUrl ++ url)
       = CrateLoader.Response true status (Ok data) /\
     CrateLoader.validateRoCrateJson data = Ok tt).
Proof.
  split.
  - unfold CrateLoader.validateRoCrateJson. split.
    + destruct data as [| b | r | s | items | fields]; try discriminate.
      destruct (hasKey "@context" fields) eqn:Hctx; simpl; [|discriminate].
      destruct (lookupField "@graph" fields) as [[| | | | graph |]|] eqn:Hg;
        try discriminate.
      destruct graph as [|e graph]; [discriminate|]. simpl length. simpl Nat.eqb.
      cbv iota.
      destruct (existsb CrateLoader.isRootEntity (e :: graph)) eqn:Hroot;
        [|discriminate].
      intros _. exists fields, (e :: graph).
      split; [reflexivity|].
      split; [now apply LoaderFacts.hasKey_true|].
      split; [exact Hg|].
      split; [discriminate|].
      now apply LoaderFacts.existsb_root.
    + intros (fields & graph & -> & Hctx & Hg & Hne & Hroot).
      apply LoaderFacts.hasKey_true in Hctx. rewrite Hctx, Hg. simpl.
      destruct graph as [|e graph]; [contradiction|]. simpl length. simpl Nat.eqb.
      cbv iota.
      apply LoaderFacts.existsb_root in Hroot. now rewrite Hroot.
  - unfold CrateLoader.fetchCrateFromUrl. split.
    + destruct (httpGet _) as [m|[] status [body| |]]; try discriminate.
      destruct (CrateLoader.validateRoCrateJson body) as [[]| |] eqn:Hv;
        simpl; try discriminate.
      intros [= <-]. eauto.
    + intros (status & -> & ->). reflexivity.
Qed.

(** Two root entities: the data pass validation, though the description
    asks for exactly one. *)
Lemma validate_accepts_two_roots :
  let data := JObj [("@context", JStr "https://w3id.org/ro/crate/1.1/context");
                    ("@graph", JArr [JObj [("@id", JStr "./")];
                                     JObj [("@id", JStr ".")]])] in
  CrateLoader.validateRoCrateJson data = Ok tt /\
  CrateLoader.describedAsValid data = false.
Proof. split; reflexivity. Qed.

(** ** Link hints *)

Module HintFacts.
Import LinkHints.

Lemma fromEntries_In {V} (f : string -> V) (props : list string) (p : string) :
  In p props ->
  fromEntries (List.map (fun k => (k, f k)) props) !! p = Some (f p).
Proof.
  intros Hin. unfold fromEntries.
  destruct (list_to_map (rev (List.map (fun k => (k, f k)) props)) !! p)
    as [v|] eqn:Hv.
  - apply elem_of_list_to_map_2 in Hv.
    apply list_elem_of_In in Hv. apply in_rev in Hv. apply in_map_iff in Hv.
    destruct Hv as (k & [= -> ->] & _). reflexivity.
  - apply not_elem_of_list_to_map_2 in Hv. exfalso. apply Hv.
    apply list_elem_of_In.
    change (In p (List.map fst (List.rev (List.map (fun k => (k, f k)) props)))).
    rewrite List.map_rev, List.map_map. simpl.
    apply (proj1 (in_rev _ _)). now rewrite List.map_id.
Qed.

Lemma fromEntries_not_In {V} (f : string -> V) (props : list string) (p : string) :
  ~ In p props ->
  fromEntries (List.map (fun k => (k, f k)) props) !! p = None.
Proof.
  intros Hout. unfold fromEntries.
  apply not_elem_of_list_to_map_1. intros Hin. apply Hout.
  apply list_elem_of_In in Hin.
  change (In p (List.map fst (List.rev (List.map (fun k => (k, f k)) props)))) in Hin.
  rewrite List.map_rev, List.map_map in Hin. simpl in Hin.
  apply (proj2 (in_rev _ _)) in Hin. now rewrite List.map_id in Hin.
Qed.

Section WithExpansion.
Variable expand : json -> Res (list jobject).
Variable context : json.

Lemma expandProperty_spec cache p :
  cacheOk expand context cache ->
  snd (expandProperty expand context cache p)
    = iriOfExpansion (expand (probe context p)) /\
  cacheOk expand context (fst (expandProperty expand context cache p)).
Proof.
  intros Hc. unfold expandProperty.
  destruct (cache !! p) as [iri|] eqn:Hp; simpl.
  - split; [now apply Hc|exact Hc].
  - split; [reflexivity|].
    intros q iri. rewrite lookup_insert. case_decide as Hq.
    + subst q. now intros [= <-].
    + apply Hc.
Qed.

Lemma expandAll_spec props expandedNode :
  forall cache,
    cacheOk expand context cache ->
    snd (expandAll expand context props expandedNode cache)
      = List.map (fun p => (p, hintOf (expand (probe context p)) expandedNode)) props /\
    cacheOk expand context (fst (expandAll expand context props expandedNode cache)).
Proof.
  induction props as [|p rest IH]; intros cache Hc; simpl; [auto|].
  destruct (expandProperty_spec cache p Hc) as [Hiri Hc1].
  destruct (expandProperty expand context cache p) as [cache1 iri].
  simpl in Hiri, Hc1. subst iri.
  destruct (IH cache1 Hc1) as [Hentries Hc2].
  destruct (expandAll expand context rest expandedNode cache1) as [cache2 entries].
  simpl in *. subst entries. auto.
Qed.

(** The cached loop computes the structure of fresh expansions. *)
Lemma hintsLoop_spec expandedNodes entities :
  Forall (fun e => e <> JNull) entities ->
  forall cache hints,
    cacheOk expand context cache ->
    hintsLoop expand context expandedNodes entities cache hints
      = Ok (fold_left (recordEntity expand context expandedNodes) entities hints).
Proof.
  induction 1 as [|entity rest Hnn _ IH]; intros cache hints Hc; simpl;
    [reflexivity|].
  assert (Hid : getProp entity "@id" = Ok (getPropOpt entity "@id")).
  { destruct entity; try reflexivity. contradiction. }
  rewrite Hid. simpl.
  destruct (expandAll_spec (propsOf entity)
              (expandedNodeFor expandedNodes (getPropOpt entity "@id")) cache Hc)
    as [Hentries Hc'].
  destruct (expandAll expand context (propsOf entity) _ cache) as [cache' entries].
  simpl in *. subst entries.
  now rewrite (IH cache' _ Hc').
Qed.

Lemma recorded_lookup expandedNodes entities :
  forall hints key m,
    fold_left (recordEntity expand context expandedNodes) entities hints !! key
      = Some m ->
    hints !! key = Some m \/
    exists entity, In entity entities /\
                   key = hintKey (getPropOpt entity "@id") /\
                   m = entityHints expand context expandedNodes entity.
Proof.
  induction entities as [|entity rest IH]; intros hints key m; simpl; [auto|].
  intros H. apply IH in H. destruct H as [H|(e & He & Hk & Hm)].
  - unfold recordEntity in H. rewrite lookup_insert in H.
    case_decide as Hkey.
    + right. exists entity. injection H as <-. auto.
    + now left.
  - right. exists e. auto.
Qed.

Lemma recorded_all expandedNodes entities :
  forall hints entity,
    In entity entities \/ is_Some (hints !! hintKey (getPropOpt entity "@id")) ->
    is_Some (fold_left (recordEntity expand context expandedNodes) entities hints
               !! hintKey (getPropOpt entity "@id")).
Proof.
  induction entities as [|e rest IH]; intros hints entity; simpl.
  - intros [[]|H]. exact H.
  - intros H. apply IH.
    destruct H as [[->|H]|H]; [right|now left|right];
      unfold recordEntity; rewrite lookup_insert; case_decide;
      solve [eexists; reflexivity | congruence | exact H].
Qed.

End WithExpansion.
End HintFacts.

(** C6, as the code has it.  On a document whose graph is an array without
    [null], the hints are computed without a throw whatever the expansion
    service does.  Without a context (none, or a falsy one) the result is the
    empty structure: no hint is recorded for any pair.  With a context every
    entity gets its record, in which each of its properties other than
    ["@id"] and ["@type"] has a hint that is determined by the expansion of
    the probe of that property alone; when that expansion is rejected the
    hint holds no IRI and no value IRI. *)
Theorem linkHints_degrade
    (expand : json -> Res (list jobject)) (fields : jobject)
    (graph : list json) (expandedNodes : list jobject) :
  lookupField "@graph" fields = Some (JArr graph) ->
  Forall (fun entity => entity <> JNull) graph ->
  exists hints,
    LinkHints.buildLinkedDataHints expand (JObj fields) expandedNodes = Ok hints /\
    (truthyOpt (lookupField "@context" fields) = false -> hints = ∅) /\
    (forall context,
        lookupField "@context" fields = Some context -> truthy context = true ->
        (forall entity, In entity graph ->
           is_Some (hints !! LinkHints.hintKey (getPropOpt entity "@id"))) /\
        (forall key m, hints !! key = Some m ->
           exists entity,
             In entity graph /\
             key = LinkHints.hintKey (getPropOpt entity "@id") /\
             forall propName,
               (In propName (LinkHints.propsOf entity) ->
                m !! propName =
                Some (LinkHints.hintOf
                        (expand (LinkHints.probe context propName))
                        (LinkHints.expandedNodeFor expandedNodes
                           (getPropOpt entity "@id")))) /\
               (~ In propName (LinkHints.propsOf entity) -> m !! propName = None))) /\
    (forall msg expandedNode,
        LinkHints.hintOf (Throw msg) expandedNode
        = {| LinkHints.propIri := None; LinkHints.valueIris := [] |}).
Proof.
  intros Hgraph Hnn. unfold LinkHints.buildLinkedDataHints. simpl.
  destruct (lookupField "@context" fields) as [ctx|] eqn:Hctx; simpl.
  - destruct (truthy ctx) eqn:Htruthy.
    + rewrite Hgraph. simpl.
      rewrite (HintFacts.hintsLoop_spec expand ctx expandedNodes graph Hnn ∅ ∅)
        by (intros p iri; rewrite lookup_empty; discriminate).
      eexists. split; [reflexivity|].
      split; [discriminate|]. split; [|reflexivity].
      intros context [= <-] _. split.
      * intros entity Hin. apply HintFacts.recorded_all. now left.
      * intros key m Hm.
        apply HintFacts.recorded_lookup in Hm.
        destruct Hm as [Hm|(entity & Hin & -> & ->)];
          [rewrite lookup_empty in Hm; discriminate|].
        exists entity. split; [exact Hin|]. split; [reflexivity|].
        intros propName. unfold LinkHints.entityHints. split.
        -- apply (HintFacts.fromEntries_In
                    (fun k => LinkHints.hintOf (expand (LinkHints.probe ctx k)) _)).
        -- apply (HintFacts.fromEntries_not_In
                    (fun k => LinkHints.hintOf (expand (LinkHints.probe ctx k)) _)).
    + eexists. split; [reflexivity|]. split; [reflexivity|].
      split; [|reflexivity]. intros context [= <-]. congruence.
  - eexists. split; [reflexivity|]. split; [reflexivity|].
    split; [|reflexivity]. discriminate.
Qed.

(** With a context and a service that rejects every probe, the root entity
    still gets its record. *)
Lemma linkHints_degrade_witness :
  exists hints,
    LinkHints.buildLinkedDataHints LinkHints.rejectingExpand
      (JObj LinkHints.withContext) [] = Ok hints /\
    is_Some (hints !! "./").
Proof.
  destruct (linkHints_degrade LinkHints.rejectingExpand LinkHints.withContext
              [JObj [("@id", JStr "./"); ("name", JStr "crate")]] [])
    as (hints & Hrun & _ & Hctx & _).
  - reflexivity.
  - repeat constructor. discriminate.
  - exists hints. split; [exact Hrun|].
    destruct (Hctx (JStr "https://w3id.org/ro/crate/1.1/context") eq_refl eq_refl)
      as [Hall _].
    apply (Hall (JObj [("@id", JStr "./"); ("name", JStr "crate")])). now left.
Defined.

(** Without a context nothing is recorded: the hint of the name of the root
    entity is not there, where the description has it recorded with an empty
    set of value IRIs. *)
Lemma linkHints_nothing_without_context :
  exists hints,
    LinkHints.buildLinkedDataHints LinkHints.rejectingExpand
      (JObj LinkHints.withoutContext) [] = Ok hints /\
    ~ LinkHints.recordedEmpty hints "./" "name".
Proof.
  exists ∅. split; [reflexivity|].
  intros (m & h & Hm & _). rewrite lookup_empty in Hm. discriminate.
Qed.

(** ** Navigation *)

Module AppFacts.
Import App.
Local Open Scope app_scope.

(** *** Inversion of runs *)

Lemma bind_Ok {A B} (m : M A) (k : A -> M B) st st' b :
  bind m k st = (st', Ok b) ->
  exists a st1, m st = (st1, Ok a) /\ k a st1 = (st', Ok b).
Proof.
  unfold bind. destruct (m st) as [st1 [a| |]]; try discriminate. eauto.
Qed.

Lemma modify_Ok f st st' u : modify f st = (st', Ok u) -> st' = f st.
Proof. unfold modify. now intros [= <-]. Qed.

Lemma get_Ok {A} (f : AppState -> A) st st' a :
  get f st = (st', Ok a) -> st' = st /\ a = f st.
Proof. unfold get. now intros [= <- <-]. Qed.

Lemma liftRes_Ok {A} (r : Res A) st st' a :
  liftRes r st = (st', Ok a) -> st' = st /\ r = Ok a.
Proof. unfold liftRes. now intros [= <- ->]. Qed.

Lemma ret_Ok {A} (x : A) st st' a : ret x st = (st', Ok a) -> st' = st /\ a = x.
Proof. unfold ret. now intros [= <- <-]. Qed.

(** One statement of a run that came to its end. *)
Ltac step H :=
  let a := fresh "a" in
  let s := fresh "s" in
  let Hs := fresh "Hs" in
  apply bind_Ok in H; destruct H as (a & s & Hs & H); cbv beta in H;
  first
    [ apply modify_Ok in Hs; subst s
    | apply get_Ok in Hs; destruct Hs as [-> ->]
    | apply liftRes_Ok in Hs; destruct Hs as [-> Hs]
    | apply ret_Ok in Hs; destruct Hs as [-> ->]
    | idtac ].

Lemma updateSelectedEntityView_Ok st st' u :
  updateSelectedEntityView st = (st', Ok u) ->
  exists v, st' = set_selectedEntityData v st.
Proof.
  unfold updateSelectedEntityView. intros H.
  step H. step H. step H.
  match goal with
  | Hc : _ st = (?s1, Ok _) |- _ =>
      assert (s1 = st) as ->
        by (repeat match type of Hc with
                   | context [match ?x with _ => _ end] => destruct x
                   end;
            first [now apply ret_Ok in Hc | now apply liftRes_Ok in Hc])
  end.
  apply modify_Ok in H. eauto.
Qed.

Lemma updateBreadcrumbsForCrate_Ok crateUrl st st' u :
  updateBreadcrumbsForCrate crateUrl st = (st', Ok u) ->
  st' = match truthyUrl crateUrl, truthyUrl (rootCrateUrl st) with
        | Some c, Some r => if String.eqb c r then set_historyStack [] st else st
        | _, _ => set_historyStack [] st
        end.
Proof.
  unfold updateBreadcrumbsForCrate. intros H. step H.
  destruct (truthyUrl crateUrl) as [c|]; [|now apply modify_Ok in H].
  destruct (truthyUrl (rootCrateUrl st)) as [r|]; [|now apply modify_Ok in H].
  destruct (String.eqb c r); [now apply modify_Ok in H|].
  now apply ret_Ok in H.
Qed.

Section WithEnv.
Variable env : Env.

Lemma indexEntities_Ok isFirstCrate sourceUrl st st' u :
  indexEntities isFirstCrate sourceUrl st = (st', Ok u) ->
  exists ix, st' = set_searchIndex ix st.
Proof.
  unfold indexEntities.
  destruct (if isFirstCrate then _ else _) as [ix r].
  intros [= <- _]. eauto.
Qed.

(** One statement, the composite ones included; a [match] at the head of
    what remains is split. *)
Ltac stmt H :=
  first
    [ let a := fresh "a" in
      let s := fresh "s" in
      let Hs := fresh "Hs" in
      apply bind_Ok in H; destruct H as (a & s & Hs & H); cbv beta in H;
      first
        [ apply modify_Ok in Hs; subst s
        | apply get_Ok in Hs; destruct Hs as [-> ->]
        | apply liftRes_Ok in Hs; destruct Hs as [-> Hs]
        | apply ret_Ok in Hs; destruct Hs as [-> ->]
        | apply indexEntities_Ok in Hs; destruct Hs as [? ->]
        | apply updateSelectedEntityView_Ok in Hs; destruct Hs as [? ->] ]
    | match type of H with
      | (match ?x with _ => _ end) _ = _ => destruct x eqn:?
      end ].

Lemma processCrateData_body_Ok doc sourceName sourceUrl isFirstCrate st st' u :
  processCrateData_body env doc sourceName sourceUrl isFirstCrate st = (st', Ok u) ->
  currentUrl st' = sourceUrl /\
  baseUrl st' = baseUrl st /\
  inputUrl st' = inputUrl st /\
  rootCrateUrl st' = rootAfter sourceUrl isFirstCrate (rootCrateUrl st) /\
  historyStack st' =
    homeStack sourceUrl (rootAfter sourceUrl isFirstCrate (rootCrateUrl st))
      (historyStack st).
Proof.
  unfold processCrateData_body, rootAfter, homeStack. intros H.
  destruct isFirstCrate; destruct (truthyUrl sourceUrl) as [c|] eqn:Hsrc;
    repeat stmt H;
    (first [apply modify_Ok in H | apply ret_Ok in H; destruct H as [H _]]);
    subst st'; simpl in *; simplify_eq;
    repeat match goal with
           | Heq : ?x = _ |- context [?x] => rewrite Heq
           end;
    auto.
Qed.

(** [processCrateData] catches what its statements throw. *)
Lemma processCrateData_result doc sourceName sourceUrl isFirstCrate st :
  match processCrateData env doc sourceName sourceUrl isFirstCrate st with
  | (st', Ok true) => arrived sourceUrl isFirstCrate st st'
  | (_, Ok false) => True
  | (_, Throw _) => False
  | (_, NoFuel) => True
  end.
Proof.
  unfold processCrateData, tryCatch, bind at 1.
  destruct (processCrateData_body env doc sourceName sourceUrl isFirstCrate st)
    as [st' [[]| |]] eqn:Hbody; simpl; auto.
  now apply processCrateData_body_Ok in Hbody.
Qed.

(** What the run of an operation that ends in [processCrateData] comes
    to. *)
Lemma processed_result doc sourceName sourceUrl isFirstCrate st st' o :
  bind (processCrateData env doc sourceName sourceUrl isFirstCrate)
       (fun completed => ret (processed sourceUrl completed)) st = (st', Ok o) ->
  (o = Navigated sourceUrl /\ arrived sourceUrl isFirstCrate st st') \/
  o = ProcessFailed.
Proof.
  unfold bind, ret.
  pose proof (processCrateData_result doc sourceName sourceUrl isFirstCrate st) as Hp.
  destruct (processCrateData env doc sourceName sourceUrl isFirstCrate st)
    as [s1 [[]| |]]; try discriminate; intros [= <- <-]; auto.
Qed.

Lemma processed_no_throw doc sourceName sourceUrl isFirstCrate st st' e :
  bind (processCrateData env doc sourceName sourceUrl isFirstCrate)
       (fun completed => ret (processed sourceUrl completed)) st
    <> (st', Throw e).
Proof.
  unfold bind, ret.
  pose proof (processCrateData_result doc sourceName sourceUrl isFirstCrate st) as Hp.
  destruct (processCrateData env doc sourceName sourceUrl isFirstCrate st)
    as [s1 [[]| |]]; try discriminate. destruct Hp.
Qed.

(** [fetchMetadata] leaves the state alone when it throws. *)
Lemma fetchMetadata_result crateId sourceName sourceUrl isFirstCrate st :
  match fetchMetadata env crateId sourceName sourceUrl isFirstCrate st with
  | (st', Ok o) =>
      (o = Navigated sourceUrl /\ arrived sourceUrl isFirstCrate st st') \/
      o = ProcessFailed
  | (st', Throw _) => st' = st
  | (_, NoFuel) => True
  end.
Proof.
  unfold fetchMetadata.
  destruct (httpGet env _) as [m|[] status [metadataJson| |]]; simpl; auto.
  pose proof (processed_result metadataJson sourceName sourceUrl isFirstCrate st) as Hok.
  pose proof (processed_no_throw metadataJson sourceName sourceUrl isFirstCrate st) as Hno.
  destruct (bind _ _ st) as [st' [o| |]]; auto.
  now destruct (Hno st' msg).
Qed.

(** *** The operations *)

Ltac processing :=
  match goal with
  | |- context [processCrateData env ?d ?n ?s ?f ?x] =>
      let Hp := fresh "Hp" in
      pose proof (processCrateData_result d n s f x) as Hp;
      destruct (processCrateData env d n s f x) as [? [[]| |]];
      simpl; auto; try contradiction
  | |- context [fetchMetadata env ?c ?n ?s ?f ?x] =>
      let Hp := fresh "Hp" in
      pose proof (fetchMetadata_result c n s f x) as Hp;
      destruct (fetchMetadata env c n s f x) as [? [[]| |]];
      simpl; auto;
      try (destruct Hp as [[? ?]| ?]; try discriminate; simplify_eq)
  end.

Ltac arrive :=
  match goal with
  | Hp : arrived _ _ _ _ |- _ =>
      unfold arrived, isFirst in *; simpl in *;
      destruct Hp as (? & ? & ? & Hroot & Hstack);
      rewrite ?Hstack, ?Hroot; auto
  end.

Lemma loadFromUrl_result st :
  match loadFromUrl env st with
  | (st', Ok (Navigated t)) =>
      t = Some (inputUrl st) /\
      currentUrl st' = t /\
      rootCrateUrl st' = rootAfter t (isFirst st) (rootCrateUrl st) /\
      historyStack st' = homeStack t (rootCrateUrl st') (historyStack st)
  | (st', Ok (FetchFailed _)) =>
      (isStateless env = true -> activeView st' = activeView st) /\
      historyStack st' = historyStack st /\
      rootCrateUrl st' = rootCrateUrl st
  | _ => True
  end.
Proof.
  unfold loadFromUrl, bind, get, modify, tryCatch, ret, throw, liftRes.
  destruct (strNonEmpty (inputUrl st)) eqn:Hin; simpl; [|exact I].
  destruct (cachedJson _) as [doc|]; simpl.
  - processing. arrive.
  - destruct (isStateless env) eqn:Hmode; simpl.
    + destruct (CrateLoader.fetchCrateFromUrl _ _ _) as [doc| |]; simpl; auto.
      processing. arrive.
    + destruct (postCrateUrl env (inputUrl st)) as [m|[crateId| |]|status [c|]];
        simpl; auto; try (repeat split; auto; discriminate).
      * processing; try arrive. subst. repeat split; auto; discriminate.
      * processing; try arrive. subst. repeat split; auto; discriminate.
Qed.

Lemma pushCurrent_stack st :
  pushCurrent st = set_historyStack (historyStack (pushCurrent st)) st.
Proof.
  unfold pushCurrent.
  destruct (truthyUrl (currentUrl st)); [reflexivity|].
  destruct (strNonEmpty (baseUrl st)); [reflexivity|].
  now destruct st.
Qed.

Lemma handleSubcrateOpen_result subcrateId st :
  match handleSubcrateOpen env subcrateId st with
  | (st', Ok (Navigated t)) =>
      strNonEmpty (baseUrl st) = true /\
      t = Some (CrateLoader.withTrailingSlash
                  (fst (resolveSubcrate env (baseUrl st) subcrateId))) /\
      currentUrl st' = t /\
      rootCrateUrl st' = rootCrateUrl st /\
      historyStack st' = homeStack t (rootCrateUrl st) (historyStack (pushCurrent st))
  | (st', Ok (FetchFailed _)) =>
      (isStateless env = true -> activeView st' = activeView st) /\
      historyStack st' = historyStack (pushCurrent st) /\
      rootCrateUrl st' = rootCrateUrl st
  | _ => True
  end.
Proof.
  unfold handleSubcrateOpen, bind, get, modify, tryCatch, ret, throw, liftRes.
  destruct (strNonEmpty (baseUrl st)) eqn:Hbase; simpl; [|exact I].
  destruct (resolveSubcrate env (baseUrl st) subcrateId)
    as [subcrateBaseUrl metadataFilename]. simpl.
  generalize (pushCurrent_stack st).
  generalize (historyStack (pushCurrent st)) as pushed.
  intros pushed ->. simpl.
  destruct (isStateless env) eqn:Hmode; simpl.
  - destruct (cachedJson _) as [doc|]; simpl.
    + processing. arrive.
    + destruct (CrateLoader.fetchCrateFromUrl _ _ _) as [doc| |]; simpl; auto.
      processing. arrive.
  - processing; try arrive. subst. repeat split; auto; discriminate.
Qed.

Lemma rev_cons_inv {A} (l r : list A) (x : A) :
  rev l = x :: r -> l = (rev r ++ [x])%list /\ removelast l = rev r.
Proof.
  intros H. assert (Hl : l = (rev r ++ [x])%list).
  { rewrite <- (rev_involutive l), H. reflexivity. }
  split; [exact Hl|]. rewrite Hl. apply removelast_last.
Qed.

Lemma goBack_result st :
  match goBack env st with
  | (st', Ok (Navigated t)) =>
      exists rest parent u,
        historyStack st = (rest ++ [parent])%list /\
        truthyUrl (url parent) = Some u /\
        t = Some u /\
        currentUrl st' = t /\
        rootCrateUrl st' = rootAfter t (isFirst st) (rootCrateUrl st) /\
        historyStack st' = homeStack t (rootCrateUrl st') rest
  | (st', Ok (FetchFailed _)) =>
      isStateless env = true -> activeView st' = activeView st
  | _ => True
  end.
Proof.
  unfold goBack, bind at 1, get. simpl.
  destruct (rev (historyStack st)) as [|parent r] eqn:Hrev; simpl; [exact I|].
  apply rev_cons_inv in Hrev. destruct Hrev as [Hstack Hlast].
  unfold bind at 1, modify.
  destruct (truthyUrl (url parent)) as [u|] eqn:Hurl; simpl; [|exact I].
  unfold bind at 1, modify.
  pose proof (loadFromUrl_result
                (set_inputUrl u (set_historyStack (removelast (historyStack st)) st)))
    as Hload.
  destruct (loadFromUrl env _) as [st' [[]| |]]; simpl in *; auto.
  - destruct Hload as [Hview _]. exact Hview.
  - destruct Hload as (-> & Hcur & Hroot & Hstack').
    exists (rev r), parent, u. rewrite <- Hlast.
    split; [rewrite Hlast; exact Hstack|]. repeat split; auto.
Qed.

Lemma goToBreadcrumb_result index st :
  match goToBreadcrumb env index st with
  | (st', Ok (Navigated t)) =>
      exists target u,
        historyStack st !! index = Some target /\
        truthyUrl (url target) = Some u /\
        t = Some u /\
        currentUrl st' = t /\
        rootCrateUrl st' = rootAfter t (isFirst st) (rootCrateUrl st) /\
        historyStack st' = homeStack t (rootCrateUrl st') (firstn index (historyStack st))
  | (st', Ok (FetchFailed _)) =>
      isStateless env = true -> activeView st' = activeView st
  | _ => True
  end.
Proof.
  unfold goToBreadcrumb, bind at 1, get. simpl.
  destruct (historyStack st !! index) as [target|] eqn:Htarget; simpl; [|exact I].
  destruct (truthyUrl (url target)) as [u|] eqn:Hurl; simpl; [|exact I].
  unfold bind at 1, modify. unfold bind at 1.
  pose proof (loadFromUrl_result
                (set_inputUrl u (set_historyStack (firstn index (historyStack st)) st)))
    as Hload.
  destruct (loadFromUrl env _) as [st' [[]| |]]; simpl in *; auto.
  - destruct Hload as [Hview _]. exact Hview.
  - destruct Hload as (-> & Hcur & Hroot & Hstack').
    exists target, u. repeat split; auto.
Qed.

(** Arriving at the recorded root flattens the history. *)
Lemma homeStack_home t old : homeStack t t old = [].
Proof.
  unfold homeStack. destruct (truthyUrl t) as [c|]; [|reflexivity].
  now rewrite String.eqb_refl.
Qed.

Lemma withTrailingSlash_truthy s :
  truthyUrl (Some (CrateLoader.withTrailingSlash s))
  = Some (CrateLoader.withTrailingSlash s).
Proof.
  unfold truthyUrl, CrateLoader.withTrailingSlash.
  destruct (endsWith s "/") eqn:Hs.
  - destruct s; [discriminate|reflexivity].
  - destruct s; reflexivity.
Qed.

Lemma activeView_tree (arraySort : FileTree.ArraySort)
    (localeCompare : string -> string -> Z) st st' :
  activeView st' = activeView st ->
  fileTreeOf arraySort localeCompare st' = fileTreeOf arraySort localeCompare st.
Proof.
  unfold activeView, fileTreeOf, rootDatasetOf.
  intros [= -> _ _ _ -> ->]. reflexivity.
Qed.

End WithEnv.
End AppFacts.

(** C4.  After a navigation operation that completes, if the locator it
    arrived at is the recorded root locator, the breadcrumb stack is empty:
    whether the package was loaded by its locator, opened as a nested
    package, or reached by a breadcrumb or by going back. *)
Theorem root_arrival_clears_history
    (env : App.Env) (a : App.Action) (st st' : App.AppState)
    (t : option string) :
  App.run env a st = (st', Ok (App.Navigated t)) ->
  App.rootCrateUrl st' = t ->
  App.historyStack st' = [].
Proof.
  intros Hrun Hroot. destruct a as [|subcrateId|index|]; simpl in Hrun.
  - pose proof (AppFacts.loadFromUrl_result env st) as H. rewrite Hrun in H.
    destruct H as (_ & _ & _ & ->). rewrite Hroot. apply AppFacts.homeStack_home.
  - pose proof (AppFacts.handleSubcrateOpen_result env subcrateId st) as H.
    rewrite Hrun in H. destruct H as (_ & _ & _ & Hsame & ->).
    rewrite <- Hsame, Hroot. apply AppFacts.homeStack_home.
  - pose proof (AppFacts.goToBreadcrumb_result env index st) as H.
    rewrite Hrun in H. destruct H as (target & u & _ & _ & _ & _ & _ & ->).
    rewrite Hroot. apply AppFacts.homeStack_home.
  - pose proof (AppFacts.goBack_result env st) as H. rewrite Hrun in H.
    destruct H as (rest & parent & u & _ & _ & _ & _ & _ & ->).
    rewrite Hroot. apply AppFacts.homeStack_home.
Qed.

(** Going back from the nested package of the session to its root. *)
Lemma root_arrival_clears_history_witness :
  App.historyStack
    (App.Example.after App.Example.stateless App.GoBack App.Example.atSub) = [].
Proof.
  apply (root_arrival_clears_history App.Example.stateless App.GoBack
           App.Example.atSub _ (Some App.Example.rootLocator)).
  - vm_compute. reflexivity.
  - vm_compute. reflexivity.
Defined.

(** C3, as the code has it.  In the stateless build, when the fetch of the
    target of a navigation operation fails (the request is rejected, the
    response is not ok, the body does not parse or the document is not
    valid), the entity list, the link hints, the current locator, the base
    location, the crate instance and the crate name are what they were before
    the operation, and so is the tree computed from them. *)
Theorem fetch_failure_preserves_view
    (env : App.Env) (a : App.Action) (st st' : App.AppState) (msg : string)
    (arraySort : FileTree.ArraySort) (localeCompare : string -> string -> Z) :
  App.isStateless env = true ->
  App.run env a st = (st', Ok (App.FetchFailed msg)) ->
  App.activeView st' = App.activeView st /\
  App.fileTreeOf arraySort localeCompare st'
  = App.fileTreeOf arraySort localeCompare st.
Proof.
  intros Hmode Hrun.
  assert (Hview : App.activeView st' = App.activeView st).
  { destruct a as [|subcrateId|index|]; simpl in Hrun.
    - pose proof (AppFacts.loadFromUrl_result env st) as H. rewrite Hrun in H.
      now apply H.
    - pose proof (AppFacts.handleSubcrateOpen_result env subcrateId st) as H.
      rewrite Hrun in H. now apply H.
    - pose proof (AppFacts.goToBreadcrumb_result env index st) as H.
      rewrite Hrun in H. now apply H.
    - pose proof (AppFacts.goBack_result env st) as H. rewrite Hrun in H.
      now apply H. }
  split; [exact Hview|]. now apply AppFacts.activeView_tree.
Qed.

(** A nested package whose metadata cannot be fetched, opened from the
    root of the session. *)
Lemma fetch_failure_preserves_view_witness :
  App.activeView
    (App.Example.after App.Example.stateless (App.HandleSubcrateOpen "missing/")
       (App.Example.atRoot App.Example.stateless))
  = App.activeView (App.Example.atRoot App.Example.stateless).
Proof.
  apply (fetch_failure_preserves_view App.Example.stateless
           (App.HandleSubcrateOpen "missing/")
           (App.Example.atRoot App.Example.stateless) _
           "Error fetching RO-Crate from URL: Failed to fetch"
           FileTree.insertionSort FileTree.codeUnitCompare).
  - reflexivity.
  - vm_compute. reflexivity.
Defined.

(** In the stateful build the same operation moves the current locator and
    the base location before it fetches, and the failed fetch leaves them
    moved. *)
Lemma stateful_failure_moves_locator :
  let before := App.Example.atRoot App.Example.stateful in
  let r := App.run App.Example.stateful (App.HandleSubcrateOpen "sub/") before in
  snd r = Ok (App.FetchFailed "Metadata fetch failed: Failed to fetch") /\
  App.currentUrl before = Some App.Example.rootLocator /\
  App.currentUrl (fst r) = Some App.Example.subLocator /\
  App.baseUrl (fst r) = App.Example.subLocator /\
  App.activeView (fst r) <> App.activeView before.
Proof.
  vm_compute. repeat split; try reflexivity. discriminate.
Qed.

(** C5, as the code has it.  From a state with a current locator [c] and a
    recorded root [r], in which the breadcrumb stack is empty if [c] is the
    root: when opening a nested package other than the root completes, the
    stack it leaves is the former stack with the pair of the crate name and
    locator that were active before the call on top; and when going back
    then completes, the current locator is [c] again and the stack is the
    former stack. *)
Theorem open_then_back_restores
    (env : App.Env) (subcrateId : string) (st st1 st2 : App.AppState)
    (t1 t2 : option string) (c r : string) :
  App.run env (App.HandleSubcrateOpen subcrateId) st = (st1, Ok (App.Navigated t1)) ->
  App.run env App.GoBack st1 = (st2, Ok (App.Navigated t2)) ->
  App.currentUrl st = Some c -> strNonEmpty c = true ->
  App.rootCrateUrl st = Some r -> strNonEmpty r = true ->
  t1 <> Some r ->
  (c = r -> App.historyStack st = []) ->
  App.historyStack st1
    = (App.historyStack st
         ++ [{| App.name := App.currentCrateName st; App.url := Some c |}])%list /\
  App.currentUrl st2 = App.currentUrl st /\
  App.historyStack st2 = App.historyStack st /\
  length (App.historyStack st2) = length (App.historyStack st).
Proof.
  intros Hopen Hback Hcur Hc Hroot Hr Hnested Hhome. simpl in Hopen, Hback.
  pose proof (AppFacts.handleSubcrateOpen_result env subcrateId st) as H1.
  rewrite Hopen in H1. destruct H1 as (_ & Ht1 & _ & Hroot1 & Hstack1).
  assert (Hpush : App.historyStack (App.pushCurrent st)
                  = (App.historyStack st
                       ++ [{| App.name := App.currentCrateName st;
                              App.url := Some c |}])%list).
  { unfold App.pushCurrent. rewrite Hcur. simpl. now rewrite Hc. }
  assert (Hstack1' : App.historyStack st1 = App.historyStack (App.pushCurrent st)).
  { rewrite Hstack1. unfold App.homeStack.
    rewrite Ht1, AppFacts.withTrailingSlash_truthy, Hroot. simpl. rewrite Hr.
    destruct (String.eqb_spec
                (CrateLoader.withTrailingSlash
                   (fst (App.resolveSubcrate env (App.baseUrl st) subcrateId))) r)
      as [Heq|Hne]; [|reflexivity].
    exfalso. apply Hnested. now rewrite Ht1, Heq. }
  rewrite Hpush in Hstack1'.
  split; [exact Hstack1'|].
  pose proof (AppFacts.goBack_result env st1) as H2.
  rewrite Hback in H2.
  destruct H2 as (rest & parent & u & Hsplit & Hurl & -> & Hcur2 & Hroot2 & Hstack2).
  rewrite Hstack1' in Hsplit. apply app_inj_tail in Hsplit.
  destruct Hsplit as [<- <-]. simpl in Hurl. rewrite Hc in Hurl.
  injection Hurl as <-.
  assert (Hst2 : App.historyStack st2 = App.historyStack st).
  { rewrite Hstack2, Hroot2. unfold App.rootAfter, App.isFirst.
    rewrite Hroot1, Hroot. unfold App.homeStack. simpl. rewrite Hc, Hr.
    destruct (String.eqb_spec c r) as [Heq|Hne]; [|reflexivity].
    symmetry. now apply Hhome. }
  split; [now rewrite Hcur2, Hcur|].
  split; [exact Hst2|]. now rewrite Hst2.
Qed.

(** Opening the nested package of the session from its root, and going
    back. *)
Lemma open_then_back_restores_witness :
  let st := App.Example.atRoot App.Example.stateless in
  let st1 := App.Example.after App.Example.stateless (App.HandleSubcrateOpen "sub/") st in
  let st2 := App.Example.after App.Example.stateless App.GoBack st1 in
  App.currentUrl st2 = App.currentUrl st /\
  length (App.historyStack st2) = length (App.historyStack st).
Proof.
  intros st st1 st2.
  destruct (open_then_back_restores App.Example.stateless "sub/" st st1 st2
              (Some App.Example.subLocator) (Some App.Example.rootLocator)
              App.Example.rootLocator App.Example.rootLocator)
    as (_ & Hcur & _ & Hlen).
  - vm_compute. reflexivity.
  - vm_compute. reflexivity.
  - vm_compute. reflexivity.
  - reflexivity.
  - vm_compute. reflexivity.
  - reflexivity.
  - discriminate.
  - intros _. vm_compute. reflexivity.
  - split; [exact Hcur|exact Hlen].
Defined.

(** From the nested package of the session, opening the reference that leads
    back to the root: the arrival at the root empties the stack, going back
    then does nothing, and neither the locator nor the length of the stack is
    what it was. *)
Lemma open_root_then_back_does_not_restore :
  let st := App.Example.atSub in
  let r1 := App.run App.Example.stateless (App.HandleSubcrateOpen "../") st in
  let r2 := App.run App.Example.stateless App.GoBack (fst r1) in
  snd r1 = Ok (App.Navigated (Some App.Example.rootLocator)) /\
  snd r2 = Ok App.Ignored /\
  App.currentUrl st = Some App.Example.subLocator /\
  App.currentUrl (fst r2) = Some App.Example.rootLocator /\
  length (App.historyStack st) = 1%nat /\
  length (App.historyStack (fst r2)) = 0%nat.
Proof. vm_compute. repeat split; reflexivity. Qed.

(** Past the fetch: a document that is fetched and validated but cannot be
    processed.  The operation does not complete, and the entity list has been
    emptied and the locator moved by then. *)
Lemma processing_failure_overwrites :
  let before := App.Example.atRoot App.Example.stateless in
  let r := App.run App.Example.stateless App.LoadFromUrl
             (App.set_inputUrl App.Example.brokenLocator before) in
  CrateLoader.validateRoCrateJson App.Example.brokenDoc = Ok tt /\
  snd r = Ok App.ProcessFailed /\
  length (App.allEntities before) = 2%nat /\
  App.allEntities (fst r) = [] /\
  App.currentUrl (fst r) = Some App.Example.brokenLocator.
Proof. vm_compute. repeat split; reflexivity. Qed.
(** * Further properties *)

(** ** More on the search index *)

Module SearchFacts.
Import SearchService.
Import IndexFacts.

Lemma entriesOf_ids (entities : list jobject) (crate : string) :
  List.map entityId (entriesOf entities crate) = identifiers entities.
Proof.
  induction entities as [|e es IH]; [reflexivity|].
  destruct (entriesOf_cons e es crate) as [items [Hitems ->]].
  rewrite List.map_app, IH. simpl. f_equal.
  pose proof (indexEntry_cases e crate) as Hc.
  destruct (lookupField "@id" e) as [v|].
  - destruct (truthy v).
    + destruct Hc as (c & _ & _ & Hc). rewrite Hc in Hitems.
      injection Hitems as <-. reflexivity.
    + rewrite Hc in Hitems. injection Hitems as <-. reflexivity.
  - rewrite Hc in Hitems. injection Hitems as <-. reflexivity.
Qed.

Lemma entriesOf_sound (entities : list jobject) (crate : string) (item : SearchIndexItem) :
  In item (entriesOf entities crate) ->
  crateId item = crate /\ truthy (entityId item) = true /\
  searchableContent item <> "" /\
  exists e, In e entities /\ lookupField "@id" e = Some (entityId item) /\
            extractSearchableContent e = Ok (searchableContent item).
Proof.
  induction entities as [|e es IH]; [intros []|].
  destruct (entriesOf_cons e es crate) as [items [Hitems ->]].
  intros Hin. apply in_app_or in Hin. destruct Hin as [Hin|Hin].
  - pose proof (indexEntry_cases e crate) as Hc.
    destruct (lookupField "@id" e) as [v|] eqn:Hid.
    + destruct (truthy v) eqn:Hv.
      * destruct Hc as (c & Hc1 & Hc2 & Hc). rewrite Hc in Hitems.
        injection Hitems as <-. destruct Hin as [<-|[]]. simpl.
        split; [reflexivity|]. split; [exact Hv|]. split; [exact Hc2|].
        exists e. split; [now left|]. split; [exact Hid|exact Hc1].
      * rewrite Hc in Hitems. injection Hitems as <-. destruct Hin.
    + rewrite Hc in Hitems. injection Hitems as <-. destruct Hin.
  - destruct (IH Hin) as (H1 & H2 & H3 & e' & He' & H4 & H5).
    split; [exact H1|]. split; [exact H2|]. split; [exact H3|].
    exists e'. split; [now right|]. split; [exact H4|exact H5].
Qed.

Lemma outsideCrate_In crate data item :
  In item (outsideCrate crate data) -> crateId item <> crate.
Proof.
  unfold outsideCrate. intros Hin. apply List.filter_In in Hin.
  destruct Hin as [_ Hne]. intros E. rewrite E, String.eqb_refl in Hne.
  discriminate.
Qed.

(** A list of objects followed by anything: the loop gets through the
    objects. *)
Lemma pushEntries_app_objects (entities : list jobject) (rest : list json)
    (crate : string) :
  forall acc,
    pushEntries (List.map JObj entities ++ rest) crate acc =
    pushEntries rest crate (acc ++ entriesOf entities crate)%list.
Proof.
  induction entities as [|e es IH]; intros acc.
  - simpl. now rewrite app_nil_r.
  - destruct (entriesOf_cons e es crate) as [items [Hitems ->]].
    simpl. rewrite Hitems, IH. now rewrite app_assoc.
Qed.

Lemma substringSearch_incl docs query limit :
  incl (substringSearch docs query limit) docs.
Proof.
  unfold substringSearch. intros x Hx.
  apply list_elem_of_In, subseteq_take, list_elem_of_In in Hx.
  apply List.filter_In in Hx. tauto.
Qed.

(** *** Properties named ['@context'] *)

Lemma stripContext_obj (fields : jobject) :
  stripContext (JObj fields) = JObj (stripFields fields).
Proof. reflexivity. Qed.

Lemma res_mapM_map {A B C} (f : B -> Res C) (g : A -> B) (l : list A) :
  res_mapM f (List.map g l) = res_mapM (fun x => f (g x)) l.
Proof. induction l as [|x xs IH]; simpl; [reflexivity|now rewrite IH]. Qed.

Lemma res_bind_cons {B C} (r : Res (list (list B))) (y : list B)
    (k : list B -> Res C) :
  res_bind (res_bind r (fun ys => Ok (y :: ys))) (fun p => k (List.concat p)) =
  res_bind r (fun ys => k (y ++ List.concat ys)%list).
Proof. destruct r; reflexivity. Qed.

(** A loop over the entries that pushes nothing for ['@context'] and does
    not look at such properties further down pushes the same with and
    without them. *)
Lemma res_mapM_strip {C} (f : string * json -> Res (list string)) :
  (forall x, f ("@context", x) = Ok []) ->
  (forall k x, f (k, stripContext x) = f (k, x)) ->
  forall (l : jobject) (k : list string -> Res C),
    res_bind (res_mapM f (stripFields l)) (fun p => k (List.concat p)) =
    res_bind (res_mapM f l) (fun p => k (List.concat p)).
Proof.
  intros Hskip Hstrip. induction l as [|[key x] r IH]; intros k; [reflexivity|].
  simpl. destruct (String.eqb_spec key "@context") as [->|Hne].
  - rewrite Hskip. simpl. rewrite IH.
    now rewrite (res_bind_cons (res_mapM f r) [] k).
  - simpl. rewrite Hstrip. destruct (f (key, x)) as [y| |]; simpl; try reflexivity.
    rewrite !res_bind_cons. apply (IH (fun c => k (y ++ c)%list)).
Qed.

Lemma flattenValue_fuel_strip (fuel : nat) :
  forall v depth maxDepth,
    flattenValue_fuel fuel (Some (stripContext v)) depth maxDepth =
    flattenValue_fuel fuel (Some v) depth maxDepth.
Proof.
  induction fuel as [|fuel IH]; intros v depth maxDepth; [reflexivity|].
  destruct v as [| b | r | s | items | fields]; try reflexivity.
  - simpl. destruct (maxDepth <? depth)%nat; [reflexivity|].
    rewrite res_mapM_map. erewrite res_mapM_ext; [reflexivity|].
    intros x _. apply IH.
  - rewrite stripContext_obj. simpl.
    destruct (maxDepth <? depth)%nat; [reflexivity|].
    match goal with |- context [res_mapM ?f fields] =>
      apply (res_mapM_strip f) with (k := fun c => Ok (join " " c)) end.
    + intros x. reflexivity.
    + intros k x. simpl. now rewrite IH.
Qed.

Lemma extractSearchableContent_strip (entity : jobject) :
  extractSearchableContent (stripFields entity) = extractSearchableContent entity.
Proof.
  unfold extractSearchableContent.
  match goal with |- context [res_mapM ?f entity] =>
    apply (res_mapM_strip f)
      with (k := fun c => Ok (trim (replaceSpaces (join " " c)))) end.
  - intros x. reflexivity.
  - intros k x. simpl. unfold flattenValue. now rewrite flattenValue_fuel_strip.
Qed.

End SearchFacts.

(** X1.  The searchable text of an entity always exists and its white
    space is normalized, for the white space of the language and not of
    ASCII alone: the only white space characters in it are single spaces
    between words, and it neither starts nor ends with one. *)
Theorem searchable_content_normalized (entity : jobject) :
  exists s, SearchService.extractSearchableContent entity = Ok s /\
            SearchService.whitespaceNormal s.
Proof.
  destruct (IndexFacts.extractSearchableContent_total entity) as [s Hs].
  exists s. split; [exact Hs|].
  unfold SearchService.extractSearchableContent in Hs.
  match type of Hs with context [res_mapM ?f entity] =>
    destruct (res_mapM f entity) as [parts| |] end; simpl in Hs; try discriminate.
  injection Hs as <-. apply TextFacts.normalized.
Qed.

(** X2.  Building the index over a list of entities files exactly the
    entities that have a truthy ['@id'], one entry each and in the order of
    the list, whatever was indexed before: no identified entity is left out
    for want of content, because the property names are part of the
    content.  Every entry carries the crate identifier of the call and the
    identifier and the non-empty searchable text of an entity of the list,
    and the matcher is built over these entries. *)
Theorem buildSearchIndex_files_identified
    (st : SearchService.IndexState) (E : list jobject) (A : string) :
  let r := SearchService.buildSearchIndex st (List.map JObj E) A in
  snd r = Ok tt /\
  List.map SearchService.entityId (SearchService.indexData (fst r))
    = SearchService.identifiers E /\
  SearchService.fuseInstance (fst r) = Some (SearchService.indexData (fst r)) /\
  forall item, In item (SearchService.indexData (fst r)) ->
    SearchService.crateId item = A /\
    SearchService.searchableContent item <> "" /\
    exists e, In e E /\
      lookupField "@id" e = Some (SearchService.entityId item) /\
      SearchService.extractSearchableContent e
        = Ok (SearchService.searchableContent item).
Proof.
  intros r. subst r. unfold SearchService.buildSearchIndex.
  rewrite IndexFacts.pushEntries_objects. simpl.
  split; [reflexivity|]. split; [apply SearchFacts.entriesOf_ids|].
  split; [reflexivity|]. intros item Hin.
  destruct (SearchFacts.entriesOf_sound _ _ _ Hin) as (H1 & _ & H3 & H4).
  auto.
Qed.

(** X3.  Indexing the same entities under the same crate a second time
    changes nothing: the index and the matcher are as the first call left
    them. *)
Theorem addToIndex_idempotent
    (st : SearchService.IndexState) (E : list jobject) (A : string) :
  let r1 := SearchService.addToIndex st (List.map JObj E) A in
  SearchService.addToIndex (fst r1) (List.map JObj E) A = r1.
Proof.
  intros r1. subst r1. rewrite !IndexFacts.addToIndex_objects.
  cbn [fst snd SearchService.fuseInstance SearchService.indexData].
  assert (Hout : forall d, SearchService.outsideCrate A
                   (d ++ SearchService.entriesOf E A) =
                 SearchService.outsideCrate A d).
  { intros d. rewrite IndexFacts.outsideCrate_app.
    rewrite (IndexFacts.outsideCrate_all A (SearchService.entriesOf E A))
      by apply IndexFacts.entriesOf_crate.
    apply app_nil_r. }
  destruct (SearchService.fuseInstance st).
  - rewrite Hout, IndexFacts.outsideCrate_idem. reflexivity.
  - rewrite (IndexFacts.outsideCrate_all A (SearchService.entriesOf E A))
      by apply IndexFacts.entriesOf_crate.
    reflexivity.
Qed.

(** X4.  Building the index for one crate and then adding the entities of
    another: whatever was indexed before the build is gone, and the index
    holds the entries of the first crate followed by those of the second.
    When both calls name the same crate, only the second list is indexed.
    The entries of a list are one for each of its entities that has an
    identifier, in order, with that identifier, the crate identifier and
    the searchable text of the entity. *)
Theorem build_then_add
    (st : SearchService.IndexState) (E E' : list jobject) (A B : string) :
  let s1 := fst (SearchService.buildSearchIndex st (List.map JObj E) A) in
  let r2 := SearchService.addToIndex s1 (List.map JObj E') B in
  snd r2 = Ok tt /\
  SearchService.indexData (fst r2) =
    ((if String.eqb A B then [] else SearchService.entriesOf E A)
       ++ SearchService.entriesOf E' B)%list /\
  SearchService.fuseInstance (fst r2) = Some (SearchService.indexData (fst r2)) /\
  Forall2 (SearchService.derivedFrom A) (SearchService.identified E)
    (SearchService.entriesOf E A) /\
  Forall2 (SearchService.derivedFrom B) (SearchService.identified E')
    (SearchService.entriesOf E' B).
Proof.
  intros s1 r2. subst s1 r2. unfold SearchService.buildSearchIndex.
  rewrite IndexFacts.pushEntries_objects, IndexFacts.addToIndex_objects.
  cbn [fst snd SearchService.fuseInstance SearchService.indexData app].
  split; [reflexivity|].
  split; [|split; [reflexivity|split; apply IndexFacts.entriesOf_derived]].
  f_equal.
  pose proof (IndexFacts.entriesOf_crate E A) as Hall.
  destruct (String.eqb_spec A B) as [->|Hne].
  - now apply IndexFacts.outsideCrate_all.
  - unfold SearchService.outsideCrate.
    induction Hall as [|item data Hitem _ IH]; simpl; [reflexivity|].
    rewrite Hitem. destruct (String.eqb_spec A B) as [?|_]; [contradiction|].
    simpl. now f_equal.
Qed.

(** X5.  A [null] among the entities makes [addToIndex] throw a TypeError
    at that element.  The entities before it have been pushed and the old
    entries of the crate have been dropped from the index data, but the
    matcher is not rebuilt: searches keep answering from the collection of
    before the call.  The entries pushed are one for each entity before the
    [null] that has an identifier, with that identifier, the crate
    identifier and the searchable text of the entity. *)
Theorem addToIndex_null_entity
    (st : SearchService.IndexState) (E : list jobject) (rest : list json)
    (A : string) :
  let r := SearchService.addToIndex st (List.map JObj E ++ JNull :: rest) A in
  snd r = Throw "TypeError: Cannot read properties of null" /\
  SearchService.fuseInstance (fst r) = SearchService.fuseInstance st /\
  SearchService.indexData (fst r) =
    (match SearchService.fuseInstance st with
     | None => []
     | Some _ => SearchService.outsideCrate A (SearchService.indexData st)
     end ++ SearchService.entriesOf E A)%list /\
  Forall2 (SearchService.derivedFrom A) (SearchService.identified E)
    (SearchService.entriesOf E A).
Proof.
  intros r. subst r.
  unfold SearchService.addToIndex, SearchService.buildSearchIndex.
  destruct (SearchService.fuseInstance st) eqn:Hf;
    rewrite SearchFacts.pushEntries_app_objects; simpl; rewrite ?Hf;
    auto using IndexFacts.entriesOf_derived.
Qed.

(** X6.  A search returns nothing, whatever the matcher, when the query is
    empty or consists of white space only (any of the white space characters
    of the language), and when the index has been cleared. *)
Theorem localSearch_blank
    (fuseSearch : list SearchService.SearchIndexItem -> string -> nat ->
                  list SearchService.SearchIndexItem)
    (st : SearchService.IndexState) (query : string) (limit : nat) :
  SearchService.localSearch fuseSearch (SearchService.clearSearchIndex st)
    query limit = [] /\
  (SearchService.blank query ->
   SearchService.localSearch fuseSearch st query limit = []).
Proof.
  split; [reflexivity|]. intros Hblank.
  unfold SearchService.localSearch.
  destruct (SearchService.fuseInstance st); [|reflexivity].
  rewrite (TextFacts.trim_blank _ Hblank). simpl.
  now rewrite orb_true_r.
Qed.

(** A query of a space, a no-break space and an em space. *)
Lemma localSearch_blank_witness :
  SearchService.localSearch SearchService.substringSearch
    (fst (SearchService.buildSearchIndex SearchService.initialIndex
            [JObj [("@id", JStr "./"); ("name", JStr "a  b")]] "root"))
    (" " ++ utf8 [194; 160] ++ utf8 [226; 128; 131]) 5 = [].
Proof.
  apply (localSearch_blank SearchService.substringSearch).
  unfold SearchService.blank. vm_compute. repeat constructor.
Defined.

(** X7.  After the entities of a crate have been indexed, a search never
    returns a stale result for that crate: with a matcher that answers from
    the collection it was built over, every result filed under the crate
    carries the identifier of an entity of the list just indexed. *)
Theorem localSearch_after_indexing
    (fuseSearch : list SearchService.SearchIndexItem -> string -> nat ->
                  list SearchService.SearchIndexItem)
    (st : SearchService.IndexState) (E : list jobject) (A : string)
    (query : string) (limit : nat) (r : SearchService.SearchResult) :
  (forall docs q n, incl (fuseSearch docs q n) docs) ->
  In r (SearchService.localSearch fuseSearch
          (fst (SearchService.addToIndex st (List.map JObj E) A)) query limit) ->
  SearchService.resultCrateId r = A ->
  In (SearchService.resultEntityId r) (SearchService.identifiers E).
Proof.
  intros Hsub Hin HA.
  rewrite IndexFacts.addToIndex_objects in Hin.
  unfold SearchService.localSearch in Hin.
  cbn [fst SearchService.fuseInstance] in Hin.
  match type of Hin with context [if ?b then _ else _] => destruct b end;
    [destruct Hin|].
  apply List.in_map_iff in Hin. destruct Hin as [item [<- Hitem]].
  simpl in HA |- *. apply Hsub in Hitem.
  rewrite <- (SearchFacts.entriesOf_ids E A).
  apply List.in_map.
  destruct (SearchService.fuseInstance st); [|exact Hitem].
  apply in_app_or in Hitem. destruct Hitem as [Hold|Hnew]; [|exact Hnew].
  now apply SearchFacts.outsideCrate_In in Hold.
Qed.

Lemma localSearch_after_indexing_witness :
  In (JStr "./")
     (SearchService.identifiers [[("@id", JStr "./"); ("name", JStr "demo")]]).
Proof.
  apply (localSearch_after_indexing SearchService.substringSearch
           SearchService.initialIndex _ "root" "demo" 5
           {| SearchService.resultEntityId := JStr "./";
              SearchService.resultCrateId := "root" |}).
  - apply SearchFacts.substringSearch_incl.
  - vm_compute. left. reflexivity.
  - reflexivity.
Defined.

(** X8.  Properties named ['@context'] never reach the searchable text, at
    any depth: flattening a value, and extracting the content of an entity,
    give the same with every such property removed. *)
Theorem context_never_searchable :
  (forall value : json,
      SearchService.flattenValue (SearchService.stripContext value)
      = SearchService.flattenValue value) /\
  (forall entity : jobject,
      SearchService.extractSearchableContent (SearchService.stripFields entity)
      = SearchService.extractSearchableContent entity).
Proof.
  split.
  - intros value. apply SearchFacts.flattenValue_fuel_strip.
  - apply SearchFacts.extractSearchableContent_strip.
Qed.

(** ** Invariants of the session *)

Module SessionFacts.
Import App.
Local Open Scope app_scope.

(** *** Rules *)

Lemma keeps_weaken {A} (I : AppState -> Prop) (m : M A) (Q Q' : A -> Prop) :
  keeps I m Q -> (forall a, Q a -> Q' a) -> keeps I m Q'.
Proof.
  intros Hm Hq st Hst. destruct (Hm st Hst) as [H1 H2]. split; [exact H1|].
  intros a Ha. apply Hq, H2, Ha.
Qed.

Lemma keeps_ret {A} (I : AppState -> Prop) (x : A) :
  keeps I (ret x) (fun a => a = x).
Proof. intros st Hst. split; [exact Hst|]. simpl. now intros a [= <-]. Qed.

Lemma keeps_get {A} (I : AppState -> Prop) (f : AppState -> A) :
  keeps I (get f) (fun a => exists st, I st /\ a = f st).
Proof. intros st Hst. split; [exact Hst|]. simpl. intros a [= <-]. eauto. Qed.

Lemma keeps_liftRes {A} (I : AppState -> Prop) (r : Res A) :
  keeps I (liftRes r) (fun a => r = Ok a).
Proof. intros st Hst. split; [exact Hst|]. simpl. auto. Qed.

Lemma keeps_throw {A} (I : AppState -> Prop) (msg : string) (Q : A -> Prop) :
  keeps I (throw msg) Q.
Proof. intros st Hst. split; [exact Hst|]. simpl. discriminate. Qed.

Lemma keeps_modify (I : AppState -> Prop) (f : AppState -> AppState) :
  (forall st, I st -> I (f st)) -> keeps I (modify f) (fun _ => True).
Proof. intros Hf st Hst. split; [now apply Hf|]. auto. Qed.

Lemma keeps_bind {A B} (I : AppState -> Prop) (m : M A) (k : A -> M B)
    (Q : A -> Prop) (Q' : B -> Prop) :
  keeps I m Q -> (forall a, Q a -> keeps I (k a) Q') -> keeps I (bind m k) Q'.
Proof.
  intros Hm Hk st Hst. destruct (Hm st Hst) as [H1 H2]. unfold bind.
  destruct (m st) as [st1 [a| |]]; simpl in *;
    [|split; [exact H1|discriminate]..].
  apply (Hk a (H2 a eq_refl) st1 H1).
Qed.

Lemma keeps_tryCatch {A} (I : AppState -> Prop) (m : M A)
    (handler : string -> M A) (Q : A -> Prop) :
  keeps I m Q -> (forall e, keeps I (handler e) Q) ->
  keeps I (tryCatch m handler) Q.
Proof.
  intros Hm Hh st Hst. destruct (Hm st Hst) as [H1 H2]. unfold tryCatch.
  destruct (m st) as [st1 [a| e |]]; simpl in *; auto.
  apply (Hh e st1 H1).
Qed.

(** The rules with the postcondition left out. *)
Lemma keeps_any {A} (I : AppState -> Prop) (m : M A) (Q : A -> Prop) :
  keeps I m Q -> keeps I m (fun _ => True).
Proof. intros H. apply (keeps_weaken _ _ _ _ H). auto. Qed.

Lemma keeps_bind_any {A B} (I : AppState -> Prop) (m : M A) (k : A -> M B)
    (Q : A -> Prop) :
  keeps I m Q -> (forall a, Q a -> keeps I (k a) (fun _ => True)) ->
  keeps I (bind m k) (fun _ => True).
Proof. apply keeps_bind. Qed.

Lemma keeps_tryCatch_any {A} (I : AppState -> Prop) (m : M A)
    (handler : string -> M A) :
  keeps I m (fun _ => True) -> (forall e, keeps I (handler e) (fun _ => True)) ->
  keeps I (tryCatch m handler) (fun _ => True).
Proof. apply keeps_tryCatch. Qed.

(** One rule, chosen by the head of the statement.  What a [modify] has to
    preserve is left when it is not immediate. *)
Ltac keep :=
  lazymatch goal with
  | |- keeps _ (bind _ _) _ =>
      eapply keeps_bind_any; [keep | intros ? ?; keep]
  | |- keeps _ (tryCatch _ _) _ =>
      apply keeps_tryCatch_any; [keep | intros ?; keep]
  | |- keeps _ (ret _) _ =>
      first [apply keeps_ret | eapply keeps_any; apply keeps_ret]
  | |- keeps _ (get _) _ =>
      first [apply keeps_get | eapply keeps_any; apply keeps_get]
  | |- keeps _ (liftRes _) _ =>
      first [apply keeps_liftRes | eapply keeps_any; apply keeps_liftRes]
  | |- keeps _ (throw _) _ => apply keeps_throw
  | |- keeps _ (modify _) _ =>
      apply keeps_modify; try (intros ? HI; exact HI)
  | |- @keeps ?A _ (match ?x with _ => _ end) ?Q =>
      try (is_evar Q; unify Q (fun _ : A => True));
      destruct x eqn:?; keep
  | |- _ => idtac
  end.

Section Stable.
Variable env : Env.
Variable parseJson : string -> Res json.
Variable postUpload : CrateLoader.File -> UploadResponse.
Variable recordAsJson : CachedCrate -> json.
Variable I : AppState -> Prop.
Hypothesis HS : stable I.

Ltac view :=
  let HI := fresh "HI" in
  intros ? HI; apply (stable_view I HS _ _ HI); reflexivity.

Lemma keeps_updateSelectedEntityView :
  keeps I updateSelectedEntityView (fun _ => True).
Proof. unfold updateSelectedEntityView. keep; view. Qed.

Lemma keeps_indexEntities isFirstCrate sourceUrl :
  keeps I (indexEntities isFirstCrate sourceUrl) (fun _ => True).
Proof.
  intros st HI. unfold indexEntities.
  destruct (if isFirstCrate then _ else _) as [ix r]. simpl.
  split; [|auto]. apply (stable_view I HS _ _ HI); reflexivity.
Qed.

Lemma keeps_updateBreadcrumbsForCrate crateUrl :
  keeps I (updateBreadcrumbsForCrate crateUrl) (fun _ => True).
Proof.
  unfold updateBreadcrumbsForCrate. keep; try view; apply (stable_home I HS).
Qed.

Lemma keeps_processCrateData_body doc sourceName sourceUrl isFirstCrate :
  (isFirstCrate = true -> truthyUrl sourceUrl <> None ->
   exists st0, I st0 /\ rootCrateUrl st0 = None) ->
  keeps I (processCrateData_body env doc sourceName sourceUrl isFirstCrate)
        (fun _ => True).
Proof.
  intros Hfirst. unfold processCrateData_body.
  keep.
  all: try view.
  all: try apply keeps_updateSelectedEntityView.
  all: try apply keeps_indexEntities.
  all: try apply keeps_updateBreadcrumbsForCrate.
  - destruct (Hfirst eq_refl) as (st0 & H0 & Hnone); [congruence|].
    intros st HI. now apply (stable_root I HS _ _ st0).
  - cbv beta in *.
    match goal with
    | Hc : exists st0, I st0 /\ ?c = crateCache st0, Hn : ?c !! _ = None |- _ =>
        let st0 := fresh "st0" in
        let HI0 := fresh "HI0" in
        let st1 := fresh "st1" in
        let HI1 := fresh "HI1" in
        destruct Hc as (st0 & HI0 & ->);
        intros st1 HI1; now apply (stable_cache I HS _ _ st1 st0)
    end.
Qed.

Lemma keeps_processCrateData doc sourceName sourceUrl isFirstCrate :
  (isFirstCrate = true -> truthyUrl sourceUrl <> None ->
   exists st0, I st0 /\ rootCrateUrl st0 = None) ->
  keeps I (processCrateData env doc sourceName sourceUrl isFirstCrate)
        (fun _ => True).
Proof.
  intros Hfirst. unfold processCrateData. keep; try view.
  now apply keeps_processCrateData_body.
Qed.

Lemma keeps_fetchMetadata crateId sourceName sourceUrl isFirstCrate :
  (isFirstCrate = true -> truthyUrl sourceUrl <> None ->
   exists st0, I st0 /\ rootCrateUrl st0 = None) ->
  keeps I (fetchMetadata env crateId sourceName sourceUrl isFirstCrate)
        (fun _ => True).
Proof.
  intros Hfirst. unfold fetchMetadata. keep; try view.
  now apply keeps_processCrateData.
Qed.

Lemma keeps_loadFromUrl : keeps I (loadFromUrl env) (fun _ => True).
Proof.
  unfold loadFromUrl. keep; try view.
  all: cbv beta in *.
  all: try (apply keeps_processCrateData || apply keeps_fetchMetadata).
  all: match goal with
       | Hr : exists st0, I st0 /\ ?r = rootCrateUrl st0 |- _ =>
           let st0 := fresh "st0" in
           let HI0 := fresh "HI0" in
           destruct Hr as (st0 & HI0 & ->); intros Hnone _; exists st0;
           split; [exact HI0|]; now destruct (rootCrateUrl st0)
       end.
Qed.

Lemma keeps_pushCurrent : forall st, I st -> I (pushCurrent st).
Proof.
  intros st HI. unfold pushCurrent.
  destruct (truthyUrl (currentUrl st)) as [u|] eqn:Hu.
  - apply (stable_push I HS _ _ HI). exists u. simpl.
    unfold truthyUrl in *. destruct (currentUrl st) as [c|]; [|discriminate].
    destruct (strNonEmpty c) eqn:Hc; [|discriminate]. injection Hu as <-.
    now rewrite Hc.
  - destruct (strNonEmpty (baseUrl st)) eqn:Hb; [|exact HI].
    apply (stable_push I HS _ _ HI). exists (baseUrl st). simpl. now rewrite Hb.
Qed.

Lemma keeps_handleSubcrateOpen subcrateId :
  keeps I (handleSubcrateOpen env subcrateId) (fun _ => True).
Proof.
  unfold handleSubcrateOpen. keep; try view.
  all: try apply keeps_pushCurrent.
  all: try (apply keeps_processCrateData || apply keeps_fetchMetadata).
  all: discriminate.
Qed.

Lemma keeps_goToBreadcrumb index :
  keeps I (goToBreadcrumb env index) (fun _ => True).
Proof.
  unfold goToBreadcrumb. keep; try view.
  all: cbv beta in *; try apply keeps_loadFromUrl.
  match goal with
  | Hs : exists st0, I st0 /\ ?s = historyStack st0 |- _ =>
      let st0 := fresh "st0" in
      let HI0 := fresh "HI0" in
      let st1 := fresh "st1" in
      let HI1 := fresh "HI1" in
      destruct Hs as (st0 & HI0 & ->); intros st1 HI1;
      now apply (stable_cut I HS)
  end.
Qed.

Lemma keeps_goBack : keeps I (goBack env) (fun _ => True).
Proof.
  unfold goBack. keep; try view.
  all: cbv beta in *; try apply keeps_loadFromUrl.
  all: match goal with
       | Hs : exists st0, I st0 /\ ?s = historyStack st0 |- _ =>
           let st0 := fresh "st0" in
           let HI0 := fresh "HI0" in
           let st1 := fresh "st1" in
           let HI1 := fresh "HI1" in
           destruct Hs as (st0 & HI0 & ->); intros st1 HI1;
           rewrite List.removelast_firstn_len; now apply (stable_cut I HS)
       end.
Qed.

Lemma keeps_run a : keeps I (run env a) (fun _ => True).
Proof.
  destruct a; simpl.
  - apply keeps_loadFromUrl.
  - apply keeps_handleSubcrateOpen.
  - apply keeps_goToBreadcrumb.
  - apply keeps_goBack.
Qed.

Lemma keeps_selectEntity ident : keeps I (selectEntity ident) (fun _ => True).
Proof.
  unfold selectEntity. keep; try view. apply keeps_updateSelectedEntityView.
Qed.

Lemma keeps_loadFromPastedJson text :
  keeps I (loadFromPastedJson env parseJson text) (fun _ => True).
Proof.
  unfold loadFromPastedJson. keep; try view.
  apply keeps_processCrateData. intros _ Hsrc. now destruct Hsrc.
Qed.

Lemma keeps_handleFileUpload upload :
  keeps I (handleFileUpload env parseJson postUpload upload) (fun _ => True).
Proof.
  unfold handleFileUpload. keep; try view.
  all: (apply keeps_processCrateData || apply keeps_fetchMetadata).
  all: intros _ Hsrc; now destruct Hsrc.
Qed.

Lemma keeps_handleSearchSelect result :
  keeps I (handleSearchSelect env recordAsJson result) (fun _ => True).
Proof.
  unfold handleSearchSelect. keep; try view.
  all: try apply keeps_selectEntity.
  all: try (apply keeps_processCrateData; discriminate).
Qed.

Lemma keeps_handle e :
  keeps I (handle env parseJson postUpload recordAsJson e) (fun _ => True).
Proof.
  destruct e; simpl.
  - keep. apply keeps_run.
  - apply keeps_loadFromPastedJson.
  - apply keeps_handleFileUpload.
  - keep. apply keeps_handleSearchSelect.
  - apply keeps_selectEntity.
Qed.

Lemma handle_stable e st :
  I st -> I (fst (handle env parseJson postUpload recordAsJson e st)).
Proof. intros HI. now apply keeps_handle. Qed.

Lemma session_stable events :
  forall st, I st ->
    I (session (handle env parseJson postUpload recordAsJson) events st).
Proof.
  unfold session. induction events as [|e es IH]; intros st HI; simpl; [exact HI|].
  apply IH. now apply handle_stable.
Qed.

End Stable.

(** *** Three stable properties *)

Lemma stable_rootCrateUrl (r : string) :
  stable (fun st => rootCrateUrl st = Some r).
Proof.
  constructor; simpl; try congruence; auto.
Qed.

Lemma stable_cached (k : string) (c : CachedCrate) :
  stable (fun st => crateCache st !! k = Some c).
Proof.
  constructor; simpl; try congruence; auto.
  intros u c' st st0 HI HI0 Hnone.
  rewrite lookup_insert_ne; [exact HI|]. intros ->. congruence.
Qed.

Lemma stable_navigable :
  stable (fun st => Forall navigable (historyStack st)).
Proof.
  constructor; simpl; auto.
  - intros st st' HI _ _ ->. exact HI.
  - intros item st HI Hitem. apply Forall_app. split; [exact HI|].
    constructor; [exact Hitem|constructor].
  - intros n st st0 _ HI0. now apply Forall_take.
Qed.

End SessionFacts.

(** X9.  Once a root locator is recorded, it stays: navigation in either
    build, pasting a crate, uploading a file, picking a search result and
    selecting an entity all leave it as it is, over any series of them and
    whether they succeed or fail. *)
Theorem root_locator_fixed
    (env : App.Env) (parseJson : string -> Res json)
    (postUpload : CrateLoader.File -> App.UploadResponse)
    (recordAsJson : App.CachedCrate -> json)
    (events : list App.Event) (st : App.AppState) (r : string) :
  App.rootCrateUrl st = Some r ->
  App.rootCrateUrl
    (App.session (App.handle env parseJson postUpload recordAsJson) events st)
  = Some r.
Proof.
  apply (SessionFacts.session_stable env parseJson postUpload recordAsJson
           (fun s => App.rootCrateUrl s = Some r)
           (SessionFacts.stable_rootCrateUrl r)).
Qed.

Lemma root_locator_fixed_witness :
  App.rootCrateUrl
    (App.session
       (App.handle App.Example.stateless (fun _ => Throw "Unexpected token")
          (fun _ => App.UploadRejected "Failed to fetch") App.json_)
       [App.Navigate (App.HandleSubcrateOpen "sub/"); App.Paste "{"]
       (App.Example.atRoot App.Example.stateless))
  = Some App.Example.rootLocator.
Proof.
  apply root_locator_fixed. vm_compute. reflexivity.
Defined.

(** X10.  A record of the cache is never replaced or dropped by
    navigation, by a paste, by an upload, by picking a search result or by
    selecting an entity: whatever happens in a series of these, a locator
    that was cached stays cached with the same document, entities,
    expansion, hints and name. *)
Theorem cache_entries_kept
    (env : App.Env) (parseJson : string -> Res json)
    (postUpload : CrateLoader.File -> App.UploadResponse)
    (recordAsJson : App.CachedCrate -> json)
    (events : list App.Event) (st : App.AppState)
    (k : string) (c : App.CachedCrate) :
  App.crateCache st !! k = Some c ->
  App.crateCache
    (App.session (App.handle env parseJson postUpload recordAsJson) events st)
    !! k = Some c.
Proof.
  apply (SessionFacts.session_stable env parseJson postUpload recordAsJson
           (fun s => App.crateCache s !! k = Some c)
           (SessionFacts.stable_cached k c)).
Qed.

Lemma cache_entries_kept_witness :
  exists c,
    App.crateCache (App.Example.atRoot App.Example.stateless)
      !! App.Example.rootLocator = Some c /\
    App.crateCache
      (App.session
         (App.handle App.Example.stateless (fun _ => Throw "Unexpected token")
            (fun _ => App.UploadRejected "Failed to fetch") App.json_)
         [App.Navigate (App.HandleSubcrateOpen "sub/"); App.Navigate App.GoBack]
         (App.Example.atRoot App.Example.stateless))
      !! App.Example.rootLocator = Some c.
Proof.
  destruct (App.crateCache (App.Example.atRoot App.Example.stateless)
              !! App.Example.rootLocator) as [c|] eqn:Hc.
  - exists c. split; [reflexivity|].
    apply cache_entries_kept. exact Hc.
  - vm_compute in Hc. discriminate.
Defined.

(** X11.  Every breadcrumb can be followed: from the start of a session
    on, after any series of navigations, pastes, uploads, search picks and
    selections, each item of the history stack carries a locator that is
    neither missing nor empty, so that [goToBreadcrumb] on an item of the
    stack and [goBack] on a non-empty stack never give up for want of a
    locator. *)
Theorem breadcrumbs_navigable
    (env : App.Env) (parseJson : string -> Res json)
    (postUpload : CrateLoader.File -> App.UploadResponse)
    (recordAsJson : App.CachedCrate -> json)
    (events : list App.Event) :
  Forall App.navigable
    (App.historyStack
       (App.session (App.handle env parseJson postUpload recordAsJson) events
          App.initialState)).
Proof.
  apply (SessionFacts.session_stable env parseJson postUpload recordAsJson
           (fun s => Forall App.navigable (App.historyStack s))
           SessionFacts.stable_navigable).
  constructor.
Qed.

(** ** How operations end *)

Module ReportFacts.
Import App.
Local Open Scope app_scope.

Section WithEnv.
Variable env : Env.

(** The statements inside the [try] of [processCrateData] write neither the
    error message nor the loading flag nor the base locator. *)
Lemma processCrateData_body_quiet doc sourceName sourceUrl isFirstCrate
    (I : AppState -> Prop) :
  (forall st st', I st -> errorMsg st' = errorMsg st ->
     isLoading st' = isLoading st -> baseUrl st' = baseUrl st ->
     inputUrl st' = inputUrl st -> I st') ->
  keeps I (processCrateData_body env doc sourceName sourceUrl isFirstCrate)
        (fun _ => True).
Proof.
  intros Hview.
  assert (Hset : forall f : AppState -> AppState,
             (forall st, errorMsg (f st) = errorMsg st /\
                         isLoading (f st) = isLoading st /\
                         baseUrl (f st) = baseUrl st /\
                         inputUrl (f st) = inputUrl st) ->
             forall st, I st -> I (f st)).
  { intros f Hf st HI. destruct (Hf st) as (H1 & H2 & H3 & H4).
    now apply (Hview st). }
  assert (Hsel : keeps I updateSelectedEntityView (fun _ => True)).
  { unfold updateSelectedEntityView. SessionFacts.keep.
    apply Hset. intros st. simpl. auto. }
  assert (Hix : keeps I (indexEntities isFirstCrate sourceUrl) (fun _ => True)).
  { intros st HI. unfold indexEntities.
    destruct (if isFirstCrate then _ else _) as [ix r]. simpl.
    split; [|auto]. now apply (Hview st). }
  assert (Hbread : keeps I (updateBreadcrumbsForCrate sourceUrl) (fun _ => True)).
  { unfold updateBreadcrumbsForCrate. SessionFacts.keep;
      apply Hset; intros st; simpl; auto. }
  unfold processCrateData_body. SessionFacts.keep.
  all: try exact Hsel.
  all: try exact Hix.
  all: try exact Hbread.
  all: apply Hset; intros st; simpl; auto.
Qed.

(** [processCrateData] never throws: it completes, or it reports. *)
Lemma processCrateData_report doc sourceName sourceUrl isFirstCrate st :
  match processCrateData env doc sourceName sourceUrl isFirstCrate st with
  | (st', Ok completed) =>
      isLoading st' = isLoading st /\ baseUrl st' = baseUrl st /\
      inputUrl st' = inputUrl st /\
      if completed then errorMsg st' = errorMsg st
      else exists e,
          errorMsg st' = Some ("Failed to process RO-Crate JSON: " ++ e)
  | (_, Throw _) => False
  | (_, NoFuel) => True
  end.
Proof.
  pose proof (processCrateData_body_quiet doc sourceName sourceUrl isFirstCrate
                (fun s => errorMsg s = errorMsg st /\ isLoading s = isLoading st /\
                          baseUrl s = baseUrl st /\ inputUrl s = inputUrl st))
    as Hq.
  assert (Hk : keeps (fun s => errorMsg s = errorMsg st /\
                               isLoading s = isLoading st /\
                               baseUrl s = baseUrl st /\ inputUrl s = inputUrl st)
                 (processCrateData_body env doc sourceName sourceUrl isFirstCrate)
                 (fun _ => True)).
  { apply Hq. intros s s' (?&?&?&?) ? ? ? ?. repeat split; congruence. }
  destruct (Hk st) as [(H1 & H2 & H3 & H4) _]; [repeat split|].
  unfold processCrateData, tryCatch, bind at 1.
  destruct (processCrateData_body env doc sourceName sourceUrl isFirstCrate st)
    as [st1 [[]| e |]]; simpl in *; auto.
  repeat split; auto. eauto.
Qed.

Lemma processed_report doc sourceName sourceUrl isFirstCrate st :
  match bind (processCrateData env doc sourceName sourceUrl isFirstCrate)
             (fun completed => ret (processed sourceUrl completed)) st with
  | (st', Ok o) =>
      isLoading st' = isLoading st /\ baseUrl st' = baseUrl st /\
      inputUrl st' = inputUrl st /\
      match o with
      | Navigated _ => errorMsg st' = errorMsg st
      | ProcessFailed =>
          exists e, errorMsg st' = Some ("Failed to process RO-Crate JSON: " ++ e)
      | _ => False
      end
  | (_, Throw _) => False
  | (_, NoFuel) => True
  end.
Proof.
  pose proof (processCrateData_report doc sourceName sourceUrl isFirstCrate st) as Hp.
  unfold bind, ret.
  destruct (processCrateData env doc sourceName sourceUrl isFirstCrate st)
    as [st' [[]| |]]; simpl; auto.
Qed.

Lemma fetchMetadata_report crateId sourceName sourceUrl isFirstCrate st :
  match fetchMetadata env crateId sourceName sourceUrl isFirstCrate st with
  | (st', Ok o) =>
      isLoading st' = isLoading st /\ baseUrl st' = baseUrl st /\
      inputUrl st' = inputUrl st /\
      match o with
      | Navigated _ => errorMsg st' = errorMsg st
      | ProcessFailed =>
          exists e, errorMsg st' = Some ("Failed to process RO-Crate JSON: " ++ e)
      | _ => False
      end
  | (st', Throw _) => st' = st
  | (_, NoFuel) => True
  end.
Proof.
  unfold fetchMetadata.
  destruct (httpGet env _) as [m|[] status [metadataJson| |]]; simpl; auto.
  pose proof (processed_report metadataJson sourceName sourceUrl isFirstCrate st) as Hp.
  destruct (bind _ _ st) as [st' [o| |]]; auto. destruct Hp.
Qed.

Ltac reporting :=
  match goal with
  | |- context [processCrateData env ?d ?n ?s ?f ?x] =>
      let Hp := fresh "Hp" in
      pose proof (processCrateData_report d n s f x) as Hp;
      destruct (processCrateData env d n s f x) as [? [[]| |]];
      simpl in *; try contradiction
  | |- context [fetchMetadata env ?c ?n ?s ?f ?x] =>
      let Hp := fresh "Hp" in
      pose proof (fetchMetadata_report c n s f x) as Hp;
      destruct (fetchMetadata env c n s f x) as [? [[]| |]];
      simpl in *; try contradiction
  end.

Ltac conclude :=
  repeat match goal with
         | H : _ /\ _ |- _ => destruct H
         | H : exists _, _ |- _ => destruct H
         end;
  try contradiction; subst; simpl in *; repeat split; eauto; try congruence.

Lemma loadFromUrl_report st :
  match loadFromUrl env st with
  | (st', Ok o) =>
      (isLoading st' = false \/ isLoading st' = isLoading st) /\
      match o with
      | Navigated _ => errorMsg st' = None
      | FetchFailed e => errorMsg st' = Some ("Error loading URL: " ++ e)
      | ProcessFailed =>
          exists e, errorMsg st' = Some ("Failed to process RO-Crate JSON: " ++ e)
      | Ignored => st' = st
      end
  | (_, Throw _) => False
  | (_, NoFuel) => True
  end.
Proof.
  unfold loadFromUrl, bind, get, modify, tryCatch, ret, throw, liftRes.
  destruct (strNonEmpty (inputUrl st)) eqn:Hin; simpl; [|auto].
  destruct (cachedJson _) as [doc|]; simpl.
  - reporting; conclude.
  - destruct (isStateless env) eqn:Hmode; simpl.
    + destruct (CrateLoader.fetchCrateFromUrl _ _ _) as [doc| |]; simpl; auto.
      reporting; conclude.
    + destruct (postCrateUrl env (inputUrl st)) as [m|[crateId| |]|status [c|]];
        simpl; auto; reporting; conclude.
Qed.

(** A load from a locator that is not empty is not ignored. *)
Lemma loadFromUrl_followed st :
  match loadFromUrl env st with
  | (_, Ok Ignored) => strNonEmpty (inputUrl st) = false
  | _ => True
  end.
Proof.
  unfold loadFromUrl, bind, get, modify, tryCatch, ret, throw, liftRes.
  destruct (strNonEmpty (inputUrl st)) eqn:Hin; simpl; [|auto].
  destruct (cachedJson _) as [doc|]; simpl.
  - reporting; conclude.
  - destruct (isStateless env) eqn:Hmode; simpl.
    + destruct (CrateLoader.fetchCrateFromUrl _ _ _) as [doc| |]; simpl; auto.
      reporting; conclude.
    + destruct (postCrateUrl env (inputUrl st)) as [m|[crateId| |]|status [c|]];
        simpl; auto; reporting; conclude.
Qed.

Lemma handleSubcrateOpen_report subcrateId st :
  match handleSubcrateOpen env subcrateId st with
  | (st', Ok o) =>
      (isLoading st' = false \/ isLoading st' = isLoading st) /\
      match o with
      | Navigated _ => errorMsg st' = None
      | FetchFailed e => errorMsg st' = Some ("Error loading subcrate: " ++ e)
      | ProcessFailed =>
          exists e, errorMsg st' = Some ("Failed to process RO-Crate JSON: " ++ e)
      | Ignored => st' = st
      end
  | (_, Throw _) => False
  | (_, NoFuel) => True
  end.
Proof.
  unfold handleSubcrateOpen, bind, get, modify, tryCatch, ret, throw, liftRes.
  destruct (strNonEmpty (baseUrl st)) eqn:Hbase; simpl; [|auto].
  destruct (resolveSubcrate env (baseUrl st) subcrateId)
    as [subcrateBaseUrl metadataFilename]. simpl.
  generalize (AppFacts.pushCurrent_stack st).
  generalize (historyStack (pushCurrent st)) as pushed.
  intros pushed ->. simpl.
  destruct (isStateless env) eqn:Hmode; simpl.
  - destruct (cachedJson _) as [doc|]; simpl.
    + reporting; conclude.
    + destruct (CrateLoader.fetchCrateFromUrl _ _ _) as [doc| |]; simpl; auto.
      reporting; conclude.
  - reporting; conclude.
Qed.

Lemma run_report a st :
  match run env a st with
  | (st', Ok o) =>
      (isLoading st' = false \/ isLoading st' = isLoading st) /\
      match o with
      | Navigated _ => errorMsg st' = None
      | FetchFailed e => errorMsg st' = Some (failurePrefix a ++ e)
      | ProcessFailed =>
          exists e, errorMsg st' = Some ("Failed to process RO-Crate JSON: " ++ e)
      | Ignored => errorMsg st' = errorMsg st
      end
  | (_, Throw _) => False
  | (_, NoFuel) => True
  end.
Proof.
  destruct a as [|subcrateId|index|]; simpl.
  - pose proof (loadFromUrl_report st) as H.
    destruct (loadFromUrl env st) as [st' [[]| |]]; auto;
      destruct H as [H1 H2]; split; auto. now subst.
  - pose proof (handleSubcrateOpen_report subcrateId st) as H.
    destruct (handleSubcrateOpen env subcrateId st) as [st' [[]| |]]; auto;
      destruct H as [H1 H2]; split; auto. now subst.
  - unfold goToBreadcrumb, bind at 1, get. simpl.
    destruct (historyStack st !! index) as [target|]; simpl; [|auto].
    destruct (truthyUrl (url target)) as [u|]; simpl; [|auto].
    unfold bind at 1, modify. unfold bind at 1.
    pose proof (loadFromUrl_report
                  (set_inputUrl u (set_historyStack (firstn index (historyStack st)) st)))
      as H.
    destruct (loadFromUrl env _) as [st' [[]| |]]; auto;
      destruct H as [H1 H2]; split; auto. now subst.
  - unfold goBack, bind at 1, get. simpl.
    destruct (rev (historyStack st)) as [|parent r]; simpl; [auto|].
    unfold bind at 1, modify.
    destruct (truthyUrl (url parent)) as [u|]; simpl; [|auto].
    unfold bind at 1, modify.
    pose proof (loadFromUrl_report
                  (set_inputUrl u (set_historyStack (removelast (historyStack st)) st)))
      as H.
    destruct (loadFromUrl env _) as [st' [[]| |]]; auto;
      destruct H as [H1 H2]; split; auto. now subst.
Qed.

End WithEnv.
End ReportFacts.

(** X12.  Navigation never throws, and how it ended can be read off the
    state.  After an operation that completed the error message is clear.
    A failed fetch leaves the message of the failure under the prefix of the
    operation, a failed processing leaves one under the prefix of the
    processing, and an operation that was ignored leaves the message alone.
    In no case is the loading flag left set by an operation that did not
    find it set. *)
Theorem failures_are_reported (env : App.Env) (a : App.Action) (st : App.AppState) :
  match App.run env a st with
  | (st', Ok o) =>
      (App.isLoading st' = false \/ App.isLoading st' = App.isLoading st) /\
      match o with
      | App.Navigated _ => App.errorMsg st' = None
      | App.FetchFailed e => App.errorMsg st' = Some (App.failurePrefix a ++ e)
      | App.ProcessFailed =>
          exists e,
            App.errorMsg st' = Some ("Failed to process RO-Crate JSON: " ++ e)
      | App.Ignored => App.errorMsg st' = App.errorMsg st
      end
  | (_, Throw _) => False
  | (_, NoFuel) => True
  end.
Proof. apply ReportFacts.run_report. Qed.

(** ** Revisiting a cached package *)

Module CacheFacts.
Import App.
Local Open Scope app_scope.

(** With the record of the locator in the cache, the processing runs on the
    record: the document and the name it is given are not looked at, and of
    the collaborators only the [ROCrate] constructor is called. *)
Lemma processCrateData_cached env env' doc doc' sourceName sourceName'
    u c isFirstCrate st :
  strNonEmpty u = true ->
  crateCache st !! u = Some c ->
  newROCrate env = newROCrate env' ->
  processCrateData env doc sourceName (Some u) isFirstCrate st =
  processCrateData env' doc' sourceName' (Some u) isFirstCrate st.
Proof.
  intros Hu Hc Hnew.
  unfold processCrateData, tryCatch, processCrateData_body, bind, get, modify,
    liftRes, ret.
  simpl. rewrite Hu.
  destruct isFirstCrate; simpl; rewrite Hc, Hnew; reflexivity.
Qed.

(** What a completed processing of a cached locator shows. *)
Lemma processCrateData_restores env doc sourceName u c isFirstCrate st st' :
  strNonEmpty u = true ->
  crateCache st !! u = Some c ->
  processCrateData env doc sourceName (Some u) isFirstCrate st = (st', Ok true) ->
  allEntities st' = entities c /\
  expandedCrate st' = cachedExpandedCrate c /\
  linkedDataHints st' = cachedLinkedDataHints c /\
  currentCrateName st' = crateName c /\
  fullCrateJson st' = Some (json_ c) /\
  currentUrl st' = Some u /\
  selectedEntityId st' = "./" /\
  crateCache st' = crateCache st.
Proof.
  intros Hu Hc.
  unfold processCrateData, tryCatch, bind at 1.
  destruct (processCrateData_body env doc sourceName (Some u) isFirstCrate st)
    as [s1 [[]| |]] eqn:Hbody; simpl; try discriminate.
  intros [= <-].
  unfold processCrateData_body in Hbody. simpl in Hbody. rewrite Hu in Hbody.
  apply AppFacts.bind_Ok in Hbody. destruct Hbody as (a & s & Hs & H).
  assert (Hcache : crateCache s = crateCache st).
  { destruct isFirstCrate.
    - apply AppFacts.modify_Ok in Hs. now subst s.
    - apply AppFacts.ret_Ok in Hs. now destruct Hs as [-> _]. }
  AppFacts.step H. rewrite Hcache, Hc in H.
  do 9 AppFacts.step H.
  apply AppFacts.bind_Ok in H. destruct H as (aix & six & Hix & H).
  apply AppFacts.indexEntities_Ok in Hix. destruct Hix as [ix ->].
  AppFacts.step H.
  apply AppFacts.bind_Ok in H. destruct H as (asel & ssel & Hsel & H).
  apply AppFacts.updateSelectedEntityView_Ok in Hsel. destruct Hsel as [v ->].
  apply AppFacts.updateBreadcrumbsForCrate_Ok in H. subst s1.
  repeat match goal with
         | |- context [match ?x with _ => _ end] => destruct x
         end; simpl; rewrite ?Hcache; repeat split; reflexivity.
Qed.

Section Revisit.
Variables env env' : Env.
Hypothesis Hurl : newURL env = newURL env'.
Hypothesis Hcrate : newROCrate env = newROCrate env'.

Lemma directoryUrl_eq x : directoryUrl env x = directoryUrl env' x.
Proof. unfold directoryUrl. now rewrite Hurl. Qed.

Lemma loadFromUrl_cached st c :
  crateCache st !! inputUrl st = Some c ->
  truthy (json_ c) = true ->
  strNonEmpty (inputUrl st) = true ->
  loadFromUrl env st = loadFromUrl env' st.
Proof.
  intros Hc Hjson Hin.
  unfold loadFromUrl, bind, get, modify, ret. simpl.
  rewrite Hin. simpl. rewrite Hc. simpl. rewrite Hjson.
  rewrite directoryUrl_eq.
  rewrite (processCrateData_cached env env' (json_ c) (json_ c)
             "Remote Crate (Cached)" "Remote Crate (Cached)" (inputUrl st) c);
    [reflexivity|exact Hin|exact Hc|exact Hcrate].
Qed.

End Revisit.
End CacheFacts.

(** X13.  Loading a locator whose record is in the cache needs no network:
    the run is the same under any two environments that agree on [URL]
    parsing and on the [ROCrate] constructor, whatever their fetches, their
    indexing service, their expansion service and their build mode are.
    When the load completes, the entities, the expansion, the hints, the
    name and the document shown are those of the record, the root entity is
    selected, and the cache is as it was. *)
Theorem cached_revisit
    (env env' : App.Env) (st : App.AppState) (c : App.CachedCrate) :
  App.newURL env = App.newURL env' ->
  App.newROCrate env = App.newROCrate env' ->
  strNonEmpty (App.inputUrl st) = true ->
  App.crateCache st !! App.inputUrl st = Some c ->
  truthy (App.json_ c) = true ->
  App.loadFromUrl env st = App.loadFromUrl env' st /\
  forall st' t,
    App.loadFromUrl env st = (st', Ok (App.Navigated t)) ->
    t = Some (App.inputUrl st) /\
    App.allEntities st' = App.entities c /\
    App.expandedCrate st' = App.cachedExpandedCrate c /\
    App.linkedDataHints st' = App.cachedLinkedDataHints c /\
    App.currentCrateName st' = App.crateName c /\
    App.fullCrateJson st' = Some (App.json_ c) /\
    App.currentUrl st' = Some (App.inputUrl st) /\
    App.selectedEntityId st' = "./" /\
    App.crateCache st' = App.crateCache st.
Proof.
  intros Hurl Hcrate Hin Hc Hjson.
  split; [now apply (CacheFacts.loadFromUrl_cached env env' Hurl Hcrate st c)|].
  intros st' t.
  unfold App.loadFromUrl, App.bind at 1, App.get. simpl. rewrite Hin. simpl.
  unfold App.bind at 1, App.modify. unfold App.bind at 1, App.get.
  unfold App.bind at 1, App.get.
  simpl. rewrite Hc. simpl. rewrite Hjson.
  unfold App.bind at 1, App.modify.
  intros H. apply AppFacts.bind_Ok in H. destruct H as (completed & s & Hp & H).
  apply AppFacts.ret_Ok in H. destruct H as [-> Ho].
  destruct completed; [|discriminate]. injection Ho as Ht. subst t.
  split; [reflexivity|].
  apply (CacheFacts.processCrateData_restores env (App.json_ c)
           "Remote Crate (Cached)" (App.inputUrl st) c _ _ _ Hin) in Hp.
  - exact Hp.
  - exact Hc.
Qed.

Lemma cached_revisit_witness :
  App.loadFromUrl App.Example.stateless
    (App.set_inputUrl App.Example.rootLocator App.Example.atSub)
  = App.loadFromUrl App.Example.stateful
      (App.set_inputUrl App.Example.rootLocator App.Example.atSub).
Proof.
  destruct (App.crateCache
              (App.set_inputUrl App.Example.rootLocator App.Example.atSub)
              !! App.Example.rootLocator) as [c|] eqn:Hc.
  - apply (cached_revisit App.Example.stateless App.Example.stateful
             (App.set_inputUrl App.Example.rootLocator App.Example.atSub) c).
    + reflexivity.
    + reflexivity.
    + reflexivity.
    + exact Hc.
    + vm_compute in Hc. injection Hc as <-. reflexivity.
  - vm_compute in Hc. discriminate.
Defined.

(** ** Files *)

Module FileFacts.
Import CrateLoader.

Lemma rethrow_Ok {A} (prefix : string) (r : Res A) (a : A) :
  rethrow prefix r = Ok a -> r = Ok a.
Proof. destruct r; simpl; congruence. Qed.

Lemma rethrow_Throw {A} (prefix : string) (r : Res A) (m : string) :
  rethrow prefix r = Throw m -> exists m', m = prefix ++ m' /\ r = Throw m'.
Proof. destruct r; simpl; try discriminate. intros [= <-]. eauto. Qed.

Lemma validated_Ok (r : Res json) (doc : json) :
  (let* data := r in let* _ := validateRoCrateJson data in Ok data) = Ok doc ->
  r = Ok doc /\ validateRoCrateJson doc = Ok tt.
Proof.
  destruct r as [data| |]; simpl; try discriminate.
  destruct (validateRoCrateJson data) as [[]| |] eqn:Hv; simpl; try discriminate.
  intros [= <-]. auto.
Qed.

Section Parsing.
Variable parseJson : string -> Res json.

Lemma extractFromZip_validated (f : File) (doc : json) :
  extractFromZip parseJson f = Ok doc -> validateRoCrateJson doc = Ok tt.
Proof.
  unfold extractFromZip. intros H. apply rethrow_Ok in H.
  destruct (loadAsync f) as [zip| |]; simpl in H; try discriminate.
  match type of H with
  | match ?x with _ => _ end = _ => destruct x as [found|]
  end; try discriminate.
  destruct (asyncText found) as [text| |]; simpl in H; try discriminate.
  now apply validated_Ok in H.
Qed.

Lemma loadCrateFromFile_validated (f : File) (doc : json) :
  loadCrateFromFile parseJson f = Ok doc -> validateRoCrateJson doc = Ok tt.
Proof.
  unfold loadCrateFromFile. intros H. apply rethrow_Ok in H.
  destruct (_ || _).
  - now apply extractFromZip_validated in H.
  - destruct (readFileAsText f) as [text| |]; simpl in H; try discriminate.
    now apply validated_Ok in H.
Qed.

End Parsing.
End FileFacts.

(** X14.  Loading from a file hands out validated documents only, from a
    plain file as from an archive, and every failure is rethrown under the
    prefix of the loader; a failure inside an archive carries the prefix of
    the archive reader after it. *)
Theorem file_loader_validates
    (parseJson : string -> Res json) (f : CrateLoader.File) :
  match CrateLoader.loadCrateFromFile parseJson f with
  | Ok doc => CrateLoader.validateRoCrateJson doc = Ok tt
  | Throw m =>
      exists m', m = "Error loading RO-Crate from file: " ++ m' /\
        (String.eqb (CrateLoader.fileType f) "application/zip"
         || endsWith (CrateLoader.fileName f) ".zip" = true ->
         exists m'', m' = "Error extracting RO-Crate from ZIP: " ++ m'')
  | NoFuel => True
  end.
Proof.
  destruct (CrateLoader.loadCrateFromFile parseJson f) as [doc|m|] eqn:H; [| |exact I].
  - now apply FileFacts.loadCrateFromFile_validated in H.
  - unfold CrateLoader.loadCrateFromFile in H.
    apply FileFacts.rethrow_Throw in H. destruct H as (m' & -> & H).
    exists m'. split; [reflexivity|]. intros Hzip. rewrite Hzip in H.
    unfold CrateLoader.extractFromZip in H.
    apply FileFacts.rethrow_Throw in H. destruct H as (m'' & -> & _). eauto.
Qed.

Lemma file_loader_validates_witness :
  exists m'',
    CrateLoader.loadCrateFromFile (fun _ => Throw "Unexpected end of JSON input")
      {| CrateLoader.fileName := "crate.zip"; CrateLoader.fileType := "";
         CrateLoader.reading := CrateLoader.Loaded None;
         CrateLoader.loadAsync := Throw "Corrupted zip" |}
    = Throw ("Error loading RO-Crate from file: "
             ++ "Error extracting RO-Crate from ZIP: " ++ m'').
Proof.
  pose proof (file_loader_validates (fun _ => Throw "Unexpected end of JSON input")
                {| CrateLoader.fileName := "crate.zip"; CrateLoader.fileType := "";
                   CrateLoader.reading := CrateLoader.Loaded None;
                   CrateLoader.loadAsync := Throw "Corrupted zip" |}) as H.
  destruct (CrateLoader.loadCrateFromFile _ _) as [doc|m|] eqn:E;
    [discriminate E| |discriminate E].
  destruct H as (m' & -> & Hzip).
  destruct (Hzip eq_refl) as [m'' ->]. exists m''. reflexivity.
Defined.

(** ** Crates without a locator *)

Module DetachedFacts.
Import App.
Local Open Scope app_scope.

Section WithEnv.
Variable env : Env.

(** Processing a crate that has no locator writes neither the cache nor the
    recorded root nor the base locator, however it ends. *)
Lemma processCrateData_detached doc sourceName isFirstCrate
    (cache : gmap string CachedCrate) (root : option string) (base : string) :
  keeps (fun s => crateCache s = cache /\ rootCrateUrl s = root /\ baseUrl s = base)
        (processCrateData env doc sourceName None isFirstCrate) (fun _ => True).
Proof.
  set (I := fun s => crateCache s = cache /\ rootCrateUrl s = root /\ baseUrl s = base).
  assert (Hsel : keeps I updateSelectedEntityView (fun _ => True)).
  { unfold updateSelectedEntityView. SessionFacts.keep. }
  assert (Hix : keeps I (indexEntities isFirstCrate None) (fun _ => True)).
  { intros st HI. unfold indexEntities.
    destruct (if isFirstCrate then _ else _) as [ix r]. simpl. auto. }
  assert (Hbread : keeps I (updateBreadcrumbsForCrate None) (fun _ => True)).
  { unfold updateBreadcrumbsForCrate. simpl. SessionFacts.keep. }
  unfold processCrateData, processCrateData_body. simpl.
  SessionFacts.keep; first [exact Hsel | exact Hix | exact Hbread].
Qed.

Lemma indexEntities_primary isFirstCrate st st' u :
  indexEntities isFirstCrate None st = (st', Ok u) ->
  st' = set_searchIndex
          (fst ((if isFirstCrate then SearchService.buildSearchIndex
                 else SearchService.addToIndex)
                  (searchIndex st) (allEntities st) "primary")) st.
Proof.
  unfold indexEntities. simpl.
  destruct isFirstCrate;
    match goal with |- context [let '(_, _) := ?x in _] => destruct x end;
    now intros [= <- _].
Qed.

(** What a completed processing of a crate without a locator leaves. *)
Lemma processCrateData_fresh doc sourceName isFirstCrate st st' :
  processCrateData env doc sourceName None isFirstCrate st = (st', Ok true) ->
  graphOf doc = Ok (allEntities st') /\
  fullCrateJson st' = Some doc /\
  currentUrl st' = None /\
  historyStack st' = [] /\
  selectedEntityId st' = "./" /\
  errorMsg st' = errorMsg st /\
  searchIndex st' =
    fst ((if isFirstCrate then SearchService.buildSearchIndex
          else SearchService.addToIndex)
           (searchIndex st) (allEntities st') "primary").
Proof.
  unfold processCrateData, tryCatch, bind at 1.
  destruct (processCrateData_body env doc sourceName None isFirstCrate st)
    as [s1 [[]| |]] eqn:Hbody; simpl; try discriminate.
  intros [= <-].
  unfold processCrateData_body in Hbody. simpl in Hbody.
  apply AppFacts.bind_Ok in Hbody. destruct Hbody as (a & s & Hs & H).
  assert (s = st) as ->.
  { destruct isFirstCrate; apply AppFacts.ret_Ok in Hs; now destruct Hs. }
  do 11 AppFacts.step H.
  apply AppFacts.bind_Ok in H. destruct H as (aix & six & Hix & H).
  apply indexEntities_primary in Hix. subst six.
  destruct (expandAndHint env doc) as [[expandedRef hintsRef] [expanded hints]].
  do 6 AppFacts.step H.
  apply AppFacts.bind_Ok in H. destruct H as (asel & ssel & Hsel & H).
  apply AppFacts.updateSelectedEntityView_Ok in Hsel. destruct Hsel as [v ->].
  apply AppFacts.updateBreadcrumbsForCrate_Ok in H. subst s1.
  simpl. repeat split; auto.
Qed.

Lemma processCrateData_detached_at doc sourceName isFirstCrate st :
  let st' := fst (processCrateData env doc sourceName None isFirstCrate st) in
  crateCache st' = crateCache st /\ rootCrateUrl st' = rootCrateUrl st /\
  baseUrl st' = baseUrl st.
Proof.
  apply (processCrateData_detached doc sourceName isFirstCrate
           (crateCache st) (rootCrateUrl st) (baseUrl st) st). auto.
Qed.

Lemma fetchMetadata_detached crateId sourceName isFirstCrate st :
  let st' := fst (fetchMetadata env crateId sourceName None isFirstCrate st) in
  crateCache st' = crateCache st /\ rootCrateUrl st' = rootCrateUrl st /\
  baseUrl st' = baseUrl st.
Proof.
  unfold fetchMetadata.
  destruct (httpGet env _) as [m|[] status [metadataJson| |]]; simpl; auto.
  pose proof (processCrateData_detached_at metadataJson sourceName isFirstCrate st)
    as Hd.
  unfold bind, ret.
  destruct (processCrateData env metadataJson sourceName None isFirstCrate st)
    as [s [completed| |]]; simpl in *; auto.
Qed.

Lemma handleSubcrateOpen_detached subcrateId st :
  baseUrl st = "" -> handleSubcrateOpen env subcrateId st = (st, Ok Ignored).
Proof.
  intros Hbase. unfold handleSubcrateOpen, bind, get. simpl. now rewrite Hbase.
Qed.

Section Paste.
Variable parseJson : string -> Res json.

Lemma loadFromPastedJson_run text st :
  strNonEmpty (trim text) = true ->
  let st0 := set_baseUrl "" (set_errorMsg None (set_isLoading true st)) in
  loadFromPastedJson env parseJson text st =
  match parseJson text with
  | Ok doc =>
      match processCrateData env doc "Pasted Crate" None true st0 with
      | (s, Ok _) => (set_isLoading false s, Ok tt)
      | (s, Throw e) =>
          (set_isLoading false
             (set_errorMsg (Some ("Paste error: " ++ messageOrError e)) s), Ok tt)
      | (s, NoFuel) => (s, NoFuel)
      end
  | Throw e =>
      (set_isLoading false
         (set_errorMsg (Some ("Paste error: " ++ messageOrError e)) st0), Ok tt)
  | NoFuel => (st0, NoFuel)
  end.
Proof.
  intros Htext. unfold loadFromPastedJson. rewrite Htext. simpl.
  unfold bind, modify, tryCatch, liftRes, ret. simpl.
  destruct (parseJson text) as [doc|e|]; try reflexivity.
  destruct (processCrateData env doc "Pasted Crate" None true _)
    as [s [completed|e|]]; reflexivity.
Qed.

End Paste.

End WithEnv.
End DetachedFacts.

(** X15.  A pasted crate has no locator.  Whatever the text and however the
    processing ends, the paste leaves the cache and the recorded root as
    they were.  Unless the text is blank it clears the base locator, so that
    opening a nested package afterwards does nothing.  When the paste ends
    without an error message, the text parsed, the document shown is the
    parsed one and the entities are its graph, no locator is current, the
    breadcrumbs are empty, and the search index has been rebuilt over these
    entities alone.  A text of white space only, of any of the white space
    characters of the language, is not a paste: nothing changes. *)
Theorem pasted_crate_is_detached
    (env : App.Env) (parseJson : string -> Res json)
    (text : string) (st : App.AppState) :
  let r := App.loadFromPastedJson env parseJson text st in
  App.crateCache (fst r) = App.crateCache st /\
  App.rootCrateUrl (fst r) = App.rootCrateUrl st /\
  (strNonEmpty (trim text) = true ->
   App.baseUrl (fst r) = "" /\
   (forall subcrateId,
       App.handleSubcrateOpen env subcrateId (fst r) = (fst r, Ok App.Ignored)) /\
   (snd r = Ok tt -> App.errorMsg (fst r) = None ->
    exists doc,
      parseJson text = Ok doc /\
      App.fullCrateJson (fst r) = Some doc /\
      App.graphOf doc = Ok (App.allEntities (fst r)) /\
      App.currentUrl (fst r) = None /\
      App.historyStack (fst r) = [] /\
      App.isLoading (fst r) = false /\
      App.searchIndex (fst r) =
        fst (SearchService.buildSearchIndex (App.searchIndex st)
               (App.allEntities (fst r)) "primary"))) /\
  (SearchService.blank text -> r = (st, Ok tt)).
Proof.
  intros r. subst r.
  assert (Hblank : SearchService.blank text ->
            App.loadFromPastedJson env parseJson text st = (st, Ok tt)).
  { intros Hb. unfold App.loadFromPastedJson.
    now rewrite (TextFacts.trim_blank _ Hb). }
  match goal with
  | |- ?A /\ ?B /\ ?C /\ _ =>
      cut (A /\ B /\ C);
      [intros (H1 & H2 & H3);
       split; [exact H1|split; [exact H2|split; [exact H3|exact Hblank]]]|]
  end.
  destruct (strNonEmpty (trim text)) eqn:Htext.
  2:{ unfold App.loadFromPastedJson. rewrite Htext. simpl.
      split; [reflexivity|]. split; [reflexivity|]. discriminate. }
  rewrite (DetachedFacts.loadFromPastedJson_run env parseJson text st Htext).
  cbv zeta.
  set (st0 := App.set_baseUrl "" (App.set_errorMsg None (App.set_isLoading true st))).
  assert (Hbase : forall s, App.baseUrl s = "" ->
            forall subcrateId,
              App.handleSubcrateOpen env subcrateId s = (s, Ok App.Ignored)).
  { intros s Hs subcrateId. now apply DetachedFacts.handleSubcrateOpen_detached. }
  destruct (parseJson text) as [doc|e|].
  - pose proof (DetachedFacts.processCrateData_detached_at env doc "Pasted Crate"
                  true st0) as (Hc & Hr & Hb).
    pose proof (DetachedFacts.processCrateData_fresh env doc "Pasted Crate" true st0)
      as Hfresh.
    pose proof (ReportFacts.processCrateData_report env doc "Pasted Crate" None
                  true st0) as Hrep.
    destruct (App.processCrateData env doc "Pasted Crate" None true st0)
      as [s [completed|e|]]; simpl in *; try contradiction.
    + split; [exact Hc|]. split; [exact Hr|]. intros _.
      split; [exact Hb|]. split; [now apply Hbase|].
      intros _ Herr. exists doc.
      destruct completed.
      * destruct (Hfresh s eq_refl) as (H1 & H2 & H3 & H4 & _ & _ & H7).
        repeat split; auto.
      * destruct Hrep as (_ & _ & _ & e & He). congruence.
    + split; [exact Hc|]. split; [exact Hr|]. intros _.
      split; [exact Hb|]. split; [now apply Hbase|]. discriminate.
  - simpl. split; [reflexivity|]. split; [reflexivity|]. intros _.
    split; [reflexivity|]. split; [now apply Hbase|].
    intros _ Herr. discriminate Herr.
  - simpl. split; [reflexivity|]. split; [reflexivity|]. intros _.
    split; [reflexivity|]. split; [now apply Hbase|]. discriminate.
Qed.

(** A paste in the root package of the session, and a paste of a no-break
    space and a line separator. *)
Lemma pasted_crate_is_detached_witness :
  App.handleSubcrateOpen App.Example.stateless "sub/"
    (fst (App.loadFromPastedJson App.Example.stateless
            (fun _ => Ok App.Example.rootDoc) "{}"
            (App.Example.atRoot App.Example.stateless)))
  = (fst (App.loadFromPastedJson App.Example.stateless
            (fun _ => Ok App.Example.rootDoc) "{}"
            (App.Example.atRoot App.Example.stateless)),
     Ok App.Ignored) /\
  App.loadFromPastedJson App.Example.stateless
    (fun _ => Ok App.Example.rootDoc)
    (utf8 [194; 160] ++ utf8 [226; 128; 168])
    (App.Example.atRoot App.Example.stateless)
  = (App.Example.atRoot App.Example.stateless, Ok tt).
Proof.
  split.
  - destruct (pasted_crate_is_detached App.Example.stateless
                (fun _ => Ok App.Example.rootDoc) "{}"
                (App.Example.atRoot App.Example.stateless)) as (_ & _ & H & _).
    destruct (H eq_refl) as (_ & Hsub & _). apply Hsub.
  - destruct (pasted_crate_is_detached App.Example.stateless
                (fun _ => Ok App.Example.rootDoc)
                (utf8 [194; 160] ++ utf8 [226; 128; 168])
                (App.Example.atRoot App.Example.stateless)) as (_ & _ & _ & H).
    apply H. unfold SearchService.blank. vm_compute. repeat constructor.
Defined.

Module UploadFacts.
Import App.
Local Open Scope app_scope.

Section WithEnv.
Variable env : Env.
Variable parseJson : string -> Res json.
Variable postUpload : CrateLoader.File -> UploadResponse.

Lemma handleFileUpload_stateless f st :
  isStateless env = true ->
  let st0 := set_baseUrl "" (set_errorMsg None (set_isLoading true st)) in
  handleFileUpload env parseJson postUpload (Some f) st =
  match CrateLoader.loadCrateFromFile parseJson f with
  | Ok doc =>
      match processCrateData env doc (CrateLoader.fileName f) None true
              (set_currentUrl (Some (CrateLoader.fileName f))
                 (set_fullCrateJson (Some doc) st0)) with
      | (s, Ok _) => (set_isLoading false s, Ok tt)
      | (s, Throw e) =>
          (set_isLoading false (set_errorMsg (Some ("File error: " ++ e)) s), Ok tt)
      | (s, NoFuel) => (s, NoFuel)
      end
  | Throw e =>
      (set_isLoading false (set_errorMsg (Some ("File error: " ++ e)) st0), Ok tt)
  | NoFuel => (st0, NoFuel)
  end.
Proof.
  intros Hmode. unfold handleFileUpload.
  unfold bind, modify, tryCatch, liftRes, ret. simpl. rewrite Hmode.
  destruct (CrateLoader.loadCrateFromFile parseJson f) as [doc|e|]; try reflexivity.
  destruct (processCrateData env doc (CrateLoader.fileName f) None true _)
    as [s [completed|e|]]; reflexivity.
Qed.

(** In either build an upload leaves the cache and the recorded root as they
    were. *)
Lemma handleFileUpload_detached upload st :
  let st' := fst (handleFileUpload env parseJson postUpload upload st) in
  crateCache st' = crateCache st /\ rootCrateUrl st' = rootCrateUrl st.
Proof.
  destruct upload as [f|]; [|simpl; auto].
  unfold handleFileUpload, bind, modify, tryCatch, liftRes, ret, throw. simpl.
  destruct (isStateless env).
  - destruct (CrateLoader.loadCrateFromFile parseJson f) as [doc|e|]; simpl; auto.
    match goal with
    | |- context [processCrateData env ?d ?n None ?b ?x] =>
        pose proof (DetachedFacts.processCrateData_detached_at env d n b x)
          as (Hc & Hr & _);
        destruct (processCrateData env d n None b x) as [s [completed|e|]]
    end; simpl in *; auto.
  - destruct (postUpload f) as [m|status [errText|m|]|[crateId|m|]]; simpl; auto.
    match goal with
    | |- context [fetchMetadata env ?c ?n None ?b ?x] =>
        pose proof (DetachedFacts.fetchMetadata_detached env c n b x)
          as (Hc & Hr & _);
        destruct (fetchMetadata env c n None b x) as [s [o|e|]]
    end; simpl in *; auto.
Qed.

End WithEnv.
End UploadFacts.

(** X16.  An uploaded crate has no locator either.  In both builds the
    upload leaves the cache and the recorded root as they were.  In the
    stateless build it clears the base locator, so that opening a nested
    package afterwards does nothing; and when it ends without an error
    message, the file was loaded and validated, the document shown is the
    loaded one and the entities are its graph, no locator is current, the
    breadcrumbs are empty, and the search index has been rebuilt over these
    entities alone. *)
Theorem uploaded_crate_is_detached
    (env : App.Env) (parseJson : string -> Res json)
    (postUpload : CrateLoader.File -> App.UploadResponse)
    (f : CrateLoader.File) (st : App.AppState) :
  let r := App.handleFileUpload env parseJson postUpload (Some f) st in
  App.crateCache (fst r) = App.crateCache st /\
  App.rootCrateUrl (fst r) = App.rootCrateUrl st /\
  (App.isStateless env = true ->
   App.baseUrl (fst r) = "" /\
   (forall subcrateId,
       App.handleSubcrateOpen env subcrateId (fst r) = (fst r, Ok App.Ignored)) /\
   (snd r = Ok tt -> App.errorMsg (fst r) = None ->
    exists doc,
      CrateLoader.loadCrateFromFile parseJson f = Ok doc /\
      CrateLoader.validateRoCrateJson doc = Ok tt /\
      App.fullCrateJson (fst r) = Some doc /\
      App.graphOf doc = Ok (App.allEntities (fst r)) /\
      App.currentUrl (fst r) = None /\
      App.historyStack (fst r) = [] /\
      App.isLoading (fst r) = false /\
      App.searchIndex (fst r) =
        fst (SearchService.buildSearchIndex (App.searchIndex st)
               (App.allEntities (fst r)) "primary"))).
Proof.
  intros r. subst r.
  destruct (UploadFacts.handleFileUpload_detached env parseJson postUpload (Some f) st)
    as [Hcache Hroot].
  split; [exact Hcache|]. split; [exact Hroot|]. intros Hmode.
  rewrite (UploadFacts.handleFileUpload_stateless env parseJson postUpload f st Hmode).
  cbv zeta.
  set (st0 := App.set_baseUrl "" (App.set_errorMsg None (App.set_isLoading true st))).
  assert (Hbase : forall s, App.baseUrl s = "" ->
            forall subcrateId,
              App.handleSubcrateOpen env subcrateId s = (s, Ok App.Ignored)).
  { intros s Hs subcrateId. now apply DetachedFacts.handleSubcrateOpen_detached. }
  destruct (CrateLoader.loadCrateFromFile parseJson f) as [doc|e|] eqn:Hload.
  - set (st1 := App.set_currentUrl (Some (CrateLoader.fileName f))
                  (App.set_fullCrateJson (Some doc) st0)).
    pose proof (DetachedFacts.processCrateData_detached_at env doc
                  (CrateLoader.fileName f) true st1) as (_ & _ & Hb).
    pose proof (DetachedFacts.processCrateData_fresh env doc
                  (CrateLoader.fileName f) true st1) as Hfresh.
    pose proof (ReportFacts.processCrateData_report env doc
                  (CrateLoader.fileName f) None true st1) as Hrep.
    destruct (App.processCrateData env doc (CrateLoader.fileName f) None true st1)
      as [s [completed|e|]]; simpl in *; try contradiction.
    + split; [exact Hb|]. split; [now apply Hbase|].
      intros _ Herr. exists doc.
      destruct completed.
      * destruct (Hfresh s eq_refl) as (H1 & H2 & H3 & H4 & _ & _ & H7).
        split; [reflexivity|].
        split; [now apply (FileFacts.loadCrateFromFile_validated parseJson f)|].
        repeat split; auto.
      * destruct Hrep as (_ & _ & _ & e & He). congruence.
    + split; [exact Hb|]. split; [now apply Hbase|]. discriminate.
  - simpl. split; [reflexivity|]. split; [now apply Hbase|].
    intros _ Herr. discriminate Herr.
  - simpl. split; [reflexivity|]. split; [now apply Hbase|]. discriminate.
Qed.

Lemma uploaded_crate_is_detached_witness :
  App.handleSubcrateOpen App.Example.stateless "sub/"
    (fst (App.handleFileUpload App.Example.stateless
            (fun _ => Ok App.Example.rootDoc)
            (fun _ => App.UploadRejected "Failed to fetch")
            (Some {| CrateLoader.fileName := "ro-crate-metadata.json";
                     CrateLoader.fileType := "application/json";
                     CrateLoader.reading := CrateLoader.Loaded (Some "{}");
                     CrateLoader.loadAsync := Throw "not an archive" |})
            App.initialState))
  = (fst (App.handleFileUpload App.Example.stateless
            (fun _ => Ok App.Example.rootDoc)
            (fun _ => App.UploadRejected "Failed to fetch")
            (Some {| CrateLoader.fileName := "ro-crate-metadata.json";
                     CrateLoader.fileType := "application/json";
                     CrateLoader.reading := CrateLoader.Loaded (Some "{}");
                     CrateLoader.loadAsync := Throw "not an archive" |})
            App.initialState),
     Ok App.Ignored).
Proof.
  destruct (uploaded_crate_is_detached App.Example.stateless
              (fun _ => Ok App.Example.rootDoc)
              (fun _ => App.UploadRejected "Failed to fetch")
              {| CrateLoader.fileName := "ro-crate-metadata.json";
                 CrateLoader.fileType := "application/json";
                 CrateLoader.reading := CrateLoader.Loaded (Some "{}");
                 CrateLoader.loadAsync := Throw "not an archive" |}
              App.initialState) as (_ & _ & H).
  destruct (H eq_refl) as (_ & Hsub & _). apply Hsub.
Defined.

(** ** Selection *)

Module SelectionFacts.
Import App.
Local Open Scope app_scope.

(** [find] returns the first entity that carries the identifier. *)
Lemma findEntity_first ident ents r :
  findEntity ident ents = Ok r ->
  match r with
  | Some e =>
      exists before after,
        ents = (before ++ e :: after)%list /\
        isStr (getPropOpt e "@id") ident = true /\
        Forall (fun x => isStr (getPropOpt x "@id") ident = false) before
  | None => Forall (fun x => isStr (getPropOpt x "@id") ident = false) ents
  end.
Proof.
  revert r. induction ents as [|e rest IH]; intros r; simpl.
  - intros [= <-]. constructor.
  - destruct e as [| b | n | s | items | fields]; simpl; try discriminate;
      try (intros H; specialize (IH r H); destruct r as [x|];
           [destruct IH as (before & after & -> & Hx & Hb);
            eexists (_ :: before), after; repeat split; auto
           |constructor; auto]; fail).
    destruct (isStr (lookupField "@id" fields) ident) eqn:Hid.
    + intros [= <-]. exists [], rest. repeat split; auto.
    + intros H. specialize (IH r H). destruct r as [x|].
      * destruct IH as (before & after & -> & Hx & Hb).
        exists (JObj fields :: before), after. repeat split; auto.
      * constructor; auto.
Qed.

Lemma findEntity_truthy ident ents e :
  findEntity ident ents = Ok (Some e) -> truthy e = true.
Proof.
  induction ents as [|x rest IH]; simpl; [discriminate|].
  destruct x as [| b | n | s | items | fields]; simpl; try discriminate; auto.
  destruct (isStr (lookupField "@id" fields) ident); [|exact IH].
  now intros [= <-].
Qed.

Lemma findRootEntity_root ents e :
  FileTree.findRootEntity ents = Ok (Some e) ->
  In e ents /\ CrateLoader.isRootEntity e = true.
Proof.
  induction ents as [|x rest IH]; simpl; [discriminate|].
  destruct (getProp x "@id") as [i| |] eqn:Hi; simpl; try discriminate.
  destruct (isStr i "./" || isStr i ".") eqn:Hroot.
  - intros [= <-]. split; [now left|].
    unfold CrateLoader.isRootEntity.
    destruct x; simpl in *; try discriminate; injection Hi as <-; exact Hroot.
  - intros H. destruct (IH H). split; [now right|assumption].
Qed.

(** [find] returns the first entity whose identifier is the one of a
    root. *)
Lemma findRootEntity_first ents r :
  FileTree.findRootEntity ents = Ok r ->
  match r with
  | Some e =>
      truthy e = true /\
      exists before after,
        ents = (before ++ e :: after)%list /\
        CrateLoader.isRootEntity e = true /\
        Forall (fun x => CrateLoader.isRootEntity x = false) before
  | None => Forall (fun x => CrateLoader.isRootEntity x = false) ents
  end.
Proof.
  revert r. induction ents as [|x rest IH]; intros r; simpl.
  - intros [= <-]. constructor.
  - destruct (getProp x "@id") as [i| |] eqn:Hi; simpl; try discriminate.
    assert (Hroot : CrateLoader.isRootEntity x = (isStr i "./" || isStr i ".")).
    { unfold CrateLoader.isRootEntity.
      destruct x; simpl in *; try discriminate; now injection Hi as <-. }
    destruct (isStr i "./" || isStr i ".") eqn:Hr.
    + intros [= <-]. split.
      * destruct x; simpl in *; try discriminate; try reflexivity;
          injection Hi as <-; discriminate.
      * exists [], rest. repeat split; auto.
    + intros H. specialize (IH r H). destruct r as [e|].
      * destruct IH as (Ht & before & after & -> & He & Hb).
        split; [exact Ht|]. exists (x :: before), after. repeat split; auto.
      * constructor; auto.
Qed.

End SelectionFacts.

(** X17.  Selecting an identifier shows the entity that carries it: the
    first one of the active list with that ["@id"].  When no entity carries
    it and the identifier is ["./"] or ["."], the root dataset of the crate
    instance is shown if there is one; if there is none, the first entity of
    the list whose identifier is ["./"] or ["."] is shown; and if there is
    none either, nothing is.  When no entity carries the identifier and it
    is not one of the two, nothing is shown.  Nothing but the selection
    changes. *)
Theorem selected_entity_is_shown
    (ident : string) (st st' : App.AppState) :
  App.selectEntity ident st = (st', Ok tt) ->
  st' = App.set_selectedEntityData (App.selectedEntityData st')
          (App.set_selectedEntityId ident st) /\
  ((exists e before after,
       App.selectedEntityData st' = Some e /\
       App.allEntities st = (before ++ e :: after)%list /\
       isStr (getPropOpt e "@id") ident = true /\
       Forall (fun x => isStr (getPropOpt x "@id") ident = false) before) \/
   (Forall (fun x => isStr (getPropOpt x "@id") ident = false)
           (App.allEntities st) /\
    if String.eqb ident "./" || String.eqb ident "."
    then
      match App.truthyJson (App.rootDatasetOf st) with
      | Some root => App.selectedEntityData st' = Some root
      | None =>
          (exists e before after,
              App.selectedEntityData st' = Some e /\
              App.allEntities st = (before ++ e :: after)%list /\
              CrateLoader.isRootEntity e = true /\
              Forall (fun x => CrateLoader.isRootEntity x = false) before) \/
          (App.selectedEntityData st' = None /\
           Forall (fun x => CrateLoader.isRootEntity x = false)
                  (App.allEntities st))
      end
    else App.selectedEntityData st' = None)).
Proof.
  unfold App.selectEntity. intros H.
  AppFacts.step H. unfold App.updateSelectedEntityView in H.
  AppFacts.step H. AppFacts.step H. simpl in Hs.
  match goal with
  | Hf : App.findEntity _ _ = Ok ?x |- _ => rename x into found
  end.
  pose proof (SelectionFacts.findEntity_first _ _ _ Hs) as Hfirst.
  apply AppFacts.bind_Ok in H. destruct H as (entity & s1 & Hent & H).
  apply AppFacts.modify_Ok in H. subst st'. simpl.
  destruct found as [e|]; simpl in Hent.
  - rewrite (SelectionFacts.findEntity_truthy _ _ _ Hs) in Hent.
    apply AppFacts.ret_Ok in Hent. destruct Hent as [-> ->]. simpl.
    rewrite (SelectionFacts.findEntity_truthy _ _ _ Hs).
    split; [reflexivity|]. left.
    destruct Hfirst as (before & after & H1 & H2 & H3).
    exists e, before, after. auto.
  - assert (Hds : App.rootDatasetOf (App.set_selectedEntityId ident st)
                  = App.rootDatasetOf st) by reflexivity.
    rewrite Hds in Hent.
    destruct (String.eqb ident "./" || String.eqb ident ".") eqn:Hroot.
    + destruct (App.truthyJson (App.rootDatasetOf st)) as [root|] eqn:Hroot'.
      * apply AppFacts.ret_Ok in Hent. destruct Hent as [-> ->]. simpl.
        assert (Ht : truthy root = true).
        { unfold App.truthyJson in Hroot'.
          destruct (App.rootDatasetOf st) as [x|]; [|discriminate].
          destruct (truthy x) eqn:Hx; [|discriminate]. now injection Hroot' as <-. }
        rewrite Ht. split; [reflexivity|]. right. split; [exact Hfirst|reflexivity].
      * apply AppFacts.liftRes_Ok in Hent. destruct Hent as [-> Hfind].
        simpl in Hfind.
        pose proof (SelectionFacts.findRootEntity_first _ _ Hfind) as Hr.
        destruct entity as [e|]; simpl.
        -- destruct Hr as (Ht & before & after & H1 & H2 & H3). rewrite Ht.
           split; [reflexivity|]. right. split; [exact Hfirst|].
           left. exists e, before, after. auto.
        -- split; [reflexivity|]. right. split; [exact Hfirst|]. right. auto.
    + apply AppFacts.ret_Ok in Hent. destruct Hent as [-> ->]. simpl.
      split; [reflexivity|]. right. split; [exact Hfirst|reflexivity].
Qed.

(** In the root package of the session: the nested package is found by its
    identifier; and ["."], which no entity carries, shows the root entity
    ["./"], the crate instance of the session naming no root dataset. *)
Lemma selected_entity_is_shown_witness :
  (exists e,
      App.selectedEntityData
        (fst (App.selectEntity "sub/" (App.Example.atRoot App.Example.stateless)))
      = Some e /\
      isStr (getPropOpt e "@id") "sub/" = true) /\
  (exists e,
      App.selectedEntityData
        (fst (App.selectEntity "." (App.Example.atRoot App.Example.stateless)))
      = Some e /\
      CrateLoader.isRootEntity e = true).
Proof.
  split.
  - destruct (App.selectEntity "sub/" (App.Example.atRoot App.Example.stateless))
      as [st' [[]| |]] eqn:Hrun;
      [|vm_compute in Hrun; discriminate Hrun..].
    pose proof (selected_entity_is_shown "sub/" _ st' Hrun) as [_ Hshown].
    simpl.
    destruct Hshown as [(e & before & after & He & _ & Hid & _)|[_ Hnone]].
    + exists e. auto.
    + exfalso. simpl in Hnone. vm_compute in Hrun. injection Hrun as <-.
      discriminate Hnone.
  - destruct (App.selectEntity "." (App.Example.atRoot App.Example.stateless))
      as [st' [[]| |]] eqn:Hrun;
      [|vm_compute in Hrun; discriminate Hrun..].
    pose proof (selected_entity_is_shown "." _ st' Hrun) as [_ Hshown].
    simpl.
    destruct Hshown as [(e & before & after & He & _ & Hid & _)|[_ Hroot]].
    + exfalso. vm_compute in Hrun. injection Hrun as <-.
      injection He as <-. discriminate Hid.
    + assert (Hnone : App.truthyJson
                (App.rootDatasetOf (App.Example.atRoot App.Example.stateless))
                = None) by (vm_compute; reflexivity).
      simpl in Hroot. rewrite Hnone in Hroot.
      destruct Hroot as [(e & before & after & He & _ & Hr & _)|[He _]].
      * exists e. auto.
      * exfalso. vm_compute in Hrun. injection Hrun as <-. discriminate He.
Defined.


Module PickFacts.
Import App.
Local Open Scope app_scope.

Lemma bind_ret {A B} (a : A) (k : A -> M B) st : bind (ret a) k st = k a st.
Proof. reflexivity. Qed.

Lemma bind_get {A B} (f : AppState -> A) (k : A -> M B) st :
  bind (get f) k st = k (f st) st.
Proof. reflexivity. Qed.

Lemma bind_liftRes {A B} (a : A) (k : A -> M B) st :
  bind (liftRes (Ok a)) k st = k a st.
Proof. reflexivity. Qed.

Lemma fst_bind_ret {A B} (m : M A) (b : B) st :
  fst (bind m (fun _ => ret b) st) = fst (m st).
Proof. unfold bind, ret. destruct (m st) as [s [a| |]]; reflexivity. Qed.

End PickFacts.

(** X18.  Picking a search result never goes to the network and never
    reads the document it hands to the processing: the run is the same
    under any two environments that agree on [URL] parsing and on the
    [ROCrate] constructor.  When the crate of the result is the current
    locator, or an entity of the active list carries the identifier of the
    result, or no entity does and the crate is not in the cache, the state
    is left as selecting the entity leaves it. *)
Theorem search_pick_is_local
    (env env' : App.Env) (recordAsJson recordAsJson' : App.CachedCrate -> json)
    (result : App.Hit) (st : App.AppState) :
  App.newURL env = App.newURL env' ->
  App.newROCrate env = App.newROCrate env' ->
  App.handleSearchSelect env recordAsJson result st
  = App.handleSearchSelect env' recordAsJson' result st /\
  (App.currentUrl st = Some (App.hitCrateId result) \/
   App.someEntity (App.hitEntityId result) (App.allEntities st) = Ok true \/
   (App.someEntity (App.hitEntityId result) (App.allEntities st) = Ok false /\
    App.crateCache st !! App.hitCrateId result = None) ->
   fst (App.handleSearchSelect env recordAsJson result st)
   = fst (App.selectEntity (App.hitEntityId result) st)).
Proof.
  intros Hurl Hcrate. split.
  - unfold App.handleSearchSelect, App.bind, App.get, App.modify, App.ret,
      App.liftRes.
    destruct (match App.currentUrl st with
              | Some c => String.eqb c (App.hitCrateId result)
              | None => false
              end); [reflexivity|].
    destruct (App.someEntity (App.hitEntityId result) (App.allEntities st))
      as [[]| |]; try reflexivity.
    simpl.
    destruct (strNonEmpty (App.hitCrateId result)) eqn:Hne; [|reflexivity].
    destruct (App.crateCache st !! App.hitCrateId result) as [c|] eqn:Hc;
      [|reflexivity].
    rewrite (CacheFacts.directoryUrl_eq env env' Hurl).
    rewrite (CacheFacts.processCrateData_cached env env' (recordAsJson c)
               (recordAsJson' c) "Cached Crate" "Cached Crate"
               (App.hitCrateId result) c false
               (App.set_baseUrl (App.directoryUrl env' (App.hitCrateId result)) st)
               Hne Hc Hcrate).
    reflexivity.
  - intros Hlocal. unfold App.handleSearchSelect.
    rewrite !PickFacts.bind_get.
    destruct (match App.currentUrl st with
              | Some c => String.eqb c (App.hitCrateId result)
              | None => false
              end) eqn:Hcur.
    + rewrite PickFacts.bind_ret, PickFacts.bind_get. simpl.
      rewrite PickFacts.bind_ret. apply PickFacts.fst_bind_ret.
    + destruct Hlocal as [Hc|[Hsome|[Hsome Hnone]]].
      * rewrite Hc, String.eqb_refl in Hcur. discriminate.
      * rewrite Hsome, PickFacts.bind_liftRes, PickFacts.bind_get. simpl.
        rewrite PickFacts.bind_ret. apply PickFacts.fst_bind_ret.
      * rewrite Hsome, PickFacts.bind_liftRes, PickFacts.bind_get, Hnone. simpl.
        destruct (strNonEmpty (App.hitCrateId result));
          rewrite PickFacts.bind_ret; apply PickFacts.fst_bind_ret.
Qed.

Lemma search_pick_is_local_witness :
  fst (App.handleSearchSelect App.Example.stateless App.json_
         {| App.hitEntityId := "sub/"; App.hitCrateId := App.Example.rootLocator |}
         (App.Example.atRoot App.Example.stateless))
  = fst (App.selectEntity "sub/" (App.Example.atRoot App.Example.stateless)).
Proof.
  apply (search_pick_is_local App.Example.stateless App.Example.stateful
           App.json_ App.json_
           {| App.hitEntityId := "sub/"; App.hitCrateId := App.Example.rootLocator |}
           (App.Example.atRoot App.Example.stateless)).
  - reflexivity.
  - reflexivity.
  - left. vm_compute. reflexivity.
Defined.

(** X19.  Following a breadcrumb and going back cut the history before
    they load: the item followed is the one at the index, or the last one,
    and the items kept are those before it.  When the load completes, the
    locator of that item is current, and the stack holds the items kept, or
    nothing if the package reached is the recorded root.  When the fetch
    fails the cut is not undone: the item followed and the ones after it are
    gone from the stack, although the view still shows the package the user
    was in.  The operation is ignored only when the item has no locator. *)
Theorem breadcrumbs_cut_before_load
    (env : App.Env) (a : App.Action) (st st' : App.AppState) (o : App.Outcome) :
  App.run env a st = (st', Ok o) ->
  forall kept item,
    (exists index, a = App.GoToBreadcrumb index /\
                   App.historyStack st !! index = Some item /\
                   kept = firstn index (App.historyStack st)) \/
    (a = App.GoBack /\ App.historyStack st = (kept ++ [item])%list) ->
    match o with
    | App.Navigated t =>
        exists u,
          App.truthyUrl (App.url item) = Some u /\
          t = Some u /\ App.currentUrl st' = Some u /\
          App.historyStack st' = App.homeStack t (App.rootCrateUrl st') kept
    | App.FetchFailed _ =>
        (exists u, App.truthyUrl (App.url item) = Some u) /\
        App.historyStack st' = kept /\
        (App.isStateless env = true -> App.activeView st' = App.activeView st)
    | App.Ignored => App.truthyUrl (App.url item) = None
    | App.ProcessFailed => exists u, App.truthyUrl (App.url item) = Some u
    end.
Proof.
  intros Hrun kept item [(index & -> & Htarget & ->)|[-> Hstack]]; simpl in Hrun.
  - unfold App.goToBreadcrumb, App.bind at 1, App.get in Hrun. simpl in Hrun.
    rewrite Htarget in Hrun. simpl in Hrun.
    destruct (App.truthyUrl (App.url item)) as [u|] eqn:Hurl;
      simpl in Hrun; [|now injection Hrun as <- <-].
    unfold App.bind at 1, App.modify in Hrun. unfold App.bind at 1 in Hrun.
    pose proof (AppFacts.loadFromUrl_result env
                  (App.set_inputUrl u
                     (App.set_historyStack (firstn index (App.historyStack st)) st)))
      as Hload.
    pose proof (ReportFacts.loadFromUrl_followed env
                  (App.set_inputUrl u
                     (App.set_historyStack (firstn index (App.historyStack st)) st)))
      as Hfollowed.
    rewrite Hrun in Hload, Hfollowed. destruct o as [|e| |t].
    + simpl in Hfollowed. unfold App.truthyUrl in Hurl.
      destruct (App.url item) as [x|]; [|discriminate].
      destruct (strNonEmpty x) eqn:Hx; [|discriminate].
      injection Hurl as <-. congruence.
    + destruct Hload as (Hview & Hstack & _).
      split; [eauto|]. split; [exact Hstack|exact Hview].
    + eauto.
    + destruct Hload as (-> & Hcur & _ & Hstack).
      exists u. repeat split; auto.
  - unfold App.goBack, App.bind at 1, App.get in Hrun. simpl in Hrun.
    rewrite Hstack, rev_unit in Hrun. simpl in Hrun.
    unfold App.bind at 1, App.modify in Hrun.
    rewrite removelast_last in Hrun.
    destruct (App.truthyUrl (App.url item)) as [u|] eqn:Hurl;
      simpl in Hrun; [|now injection Hrun as <- <-].
    unfold App.bind at 1, App.modify in Hrun.
    pose proof (AppFacts.loadFromUrl_result env
                  (App.set_inputUrl u (App.set_historyStack kept st)))
      as Hload.
    pose proof (ReportFacts.loadFromUrl_followed env
                  (App.set_inputUrl u (App.set_historyStack kept st)))
      as Hfollowed.
    rewrite Hrun in Hload, Hfollowed. destruct o as [|e| |t].
    + simpl in Hfollowed. unfold App.truthyUrl in Hurl.
      destruct (App.url item) as [x|]; [|discriminate].
      destruct (strNonEmpty x) eqn:Hx; [|discriminate].
      injection Hurl as <-. congruence.
    + destruct Hload as (Hview & Hstack' & _).
      split; [eauto|]. split; [exact Hstack'|exact Hview].
    + eauto.
    + destruct Hload as (-> & Hcur & _ & Hstack').
      exists u. repeat split; auto.
Qed.

(** Going back from the nested package of the session: the locator of the
    one breadcrumb, the root, is current afterwards. *)
Lemma breadcrumbs_cut_before_load_witness :
  App.currentUrl (App.Example.after App.Example.stateless App.GoBack
                    App.Example.atSub) = Some App.Example.rootLocator.
Proof.
  destruct (App.run App.Example.stateless App.GoBack App.Example.atSub)
    as [st' [o| |]] eqn:Hrun; [|vm_compute in Hrun; discriminate Hrun..].
  pose proof (breadcrumbs_cut_before_load App.Example.stateless App.GoBack
                App.Example.atSub st' o Hrun []
                {| App.name := JStr "Root crate";
                   App.url := Some App.Example.rootLocator |}
                (or_intror (conj eq_refl eq_refl))) as H.
  unfold App.Example.after. rewrite Hrun. simpl.
  destruct o as [|e| |t];
    [vm_compute in Hrun; discriminate Hrun..|].
  destruct H as (u & Hu & _ & Hcur & _).
  rewrite Hcur. simpl in Hu. injection Hu as <-. reflexivity.
Defined.

(** ** The children of a node *)

Module ChildrenFacts.
Import FileTree.

Lemma foldersFirst_cons_folder x l :
  isFolderNode x = true -> foldersFirst l -> foldersFirst (x :: l).
Proof.
  intros Hx (fs & os & -> & Hfs & Hos).
  exists (x :: fs), os. repeat split; auto.
Qed.

Lemma foldersFirst_others l :
  Forall (fun n => isFolderNode n = false) l -> foldersFirst l.
Proof. intros H. exists [], l. repeat split; auto. Qed.

(** A list in which every folder stands before every node that is none. *)
Lemma foldersFirst_of_positions (l : list TreeNode) :
  (forall i j a b, l !! i = Some a -> l !! j = Some b ->
                   isFolderNode a = true -> isFolderNode b = false -> (i < j)%nat) ->
  foldersFirst l.
Proof.
  induction l as [|x rest IH]; intros Hpos.
  - now apply foldersFirst_others.
  - assert (Hrest : foldersFirst rest).
    { apply IH. intros i j a b Hi Hj Ha Hb.
      pose proof (Hpos (S i) (S j) a b Hi Hj Ha Hb). lia. }
    destruct (isFolderNode x) eqn:Hx; [now apply foldersFirst_cons_folder|].
    apply foldersFirst_others. constructor; [exact Hx|].
    apply List.Forall_forall. intros n Hn.
    destruct (isFolderNode n) eqn:Hf; [|reflexivity]. exfalso.
    apply list_elem_of_In, list_elem_of_lookup_1 in Hn. destruct Hn as [j Hj].
    pose proof (Hpos (S j) 0%nat n x Hj eq_refl Hf Hx). lia.
Qed.

Section WithBuilder.
Variable arraySort : ArraySort.
Variable localeCompare : string -> string -> Z.
Variable entityMap : gmap string json.
Hypothesis engine : conforming arraySort.

(** On nodes whose names are strings, and with a collation that orders the
    strings, the comparator of the builder is a consistent one. *)
Lemma compareNodes_consistent l :
  consistentCollation localeCompare -> Forall strNamed l ->
  consistentComparator (compareNodes localeCompare) l.
Proof.
  intros (Hrefl & Hsym & Heq & Hlt & Hgt) Hnamed.
  exists (fun a b =>
            if isFolderNode a && negb (isFolderNode b) then (-1)%Z
            else if negb (isFolderNode a) && isFolderNode b then 1%Z
            else localeCompare (jsToString (name a)) (jsToString (name b))).
  rewrite List.Forall_forall in Hnamed.
  split; [|split; [|split; [|split; [|split]]]].
  - intros a b Ha Hb. destruct (Hnamed a Ha) as [s Hs].
    unfold compareNodes, isFolderNode. rewrite Hs. simpl.
    destruct (isStr (type a) "Dataset"), (isStr (type b) "Dataset"); reflexivity.
  - intros a _. destruct (isFolderNode a); simpl; apply Hrefl.
  - intros a b _ _. destruct (isFolderNode a), (isFolderNode b); simpl;
      intros H; first [lia | now apply Hsym].
  - intros a b c _ _ _.
    destruct (isFolderNode a), (isFolderNode b), (isFolderNode c); simpl;
      intros H1 H2; first [lia | eapply Heq; eassumption].
  - intros a b c _ _ _.
    destruct (isFolderNode a), (isFolderNode b), (isFolderNode c); simpl;
      intros H1 H2; first [lia | eapply Hlt; eassumption].
  - intros a b c _ _ _.
    destruct (isFolderNode a), (isFolderNode b), (isFolderNode c); simpl;
      intros H1 H2; first [lia | eapply Hgt; eassumption].
Qed.

(** The comparator puts a folder before a node that is none. *)
Lemma compareNodes_folder_first a b :
  isFolderNode a = true -> isFolderNode b = false ->
  compareNodes localeCompare a b = Ok (-1)%Z.
Proof.
  unfold compareNodes, isFolderNode. now intros -> ->.
Qed.

Lemma sort_foldersFirst l out :
  consistentCollation localeCompare -> Forall strNamed l ->
  arraySort (compareNodes localeCompare) l = Ok out -> foldersFirst out.
Proof.
  intros Hcoll Hnamed Hsort. apply foldersFirst_of_positions.
  intros i j a b Hi Hj Ha Hb.
  apply (sort_orders _ engine _ _ _ (compareNodes_consistent l Hcoll Hnamed) Hsort
           i j a b (-1)%Z Hi Hj); [|lia].
  now apply compareNodes_folder_first.
Qed.

(** The loop over the parts pushes one child per identifier, in order. *)
Lemma collectChildren_ids (bld : string -> Res TreeNode) parts cs :
  (forall s c, bld s = Ok c -> id c = s) ->
  collectChildren bld parts = Ok cs ->
  List.map id cs = partIds parts.
Proof.
  intros Hid. unfold collectChildren. intros H.
  destruct (res_mapM (pushPart bld) parts) as [pushed| |] eqn:Hp;
    simpl in H; try discriminate.
  injection H as <-. apply res_mapM_inv in Hp.
  induction Hp as [|part one parts pushed Hone _ IH]; [reflexivity|].
  simpl. rewrite List.map_app, IH. f_equal.
  unfold pushPart in Hone.
  destruct (partId part) as [pid| |]; simpl in Hone; try discriminate.
  destruct pid; try (now injection Hone as <-).
  destruct (bld s) as [child| |] eqn:Hb; simpl in Hone; try discriminate.
  injection Hone as <-. simpl. now rewrite (Hid _ _ Hb).
Qed.

(** What a call of [buildTree] returns. *)
Lemma buildTree_fuel_node fuel entityId visited t :
  buildTree_fuel arraySort localeCompare entityMap fuel entityId visited = Ok t ->
  id t = entityId /\
  if decide (entityId ∈ visited)
  then type t = Some (JStr "Link") /\ children t = []
  else
    type t = typeOf (entityMap !! entityId) /\
    name t = getNodeName (entityMap !! entityId) entityId /\
    List.map id (children t) ≡ₚ partIds (partsOf (entityMap !! entityId)).
Proof.
  destruct fuel as [|fuel]; simpl; [discriminate|].
  destruct (decide (entityId ∈ visited)) as [Hin|Hout].
  - intros [= <-]. simpl. auto.
  - destruct (collectChildren _ _) as [cs| |] eqn:Hcs; simpl; try discriminate.
    destruct (arraySort (compareNodes localeCompare) cs) as [sorted| |] eqn:Hsort;
      simpl; try discriminate.
    intros [= <-]. simpl. repeat split.
    rewrite (sort_permutes _ engine _ _ _ Hsort).
    rewrite (collectChildren_ids _ _ _ (fun s c H =>
               TreeFacts.buildTree_fuel_id arraySort localeCompare entityMap
                 fuel s _ c H) Hcs).
    reflexivity.
Qed.

(** Every node of the tree was returned by a call of [buildTree] on its
    identifier. *)
Lemma nodes_built fuel :
  forall entityId visited t,
    buildTree_fuel arraySort localeCompare entityMap fuel entityId visited = Ok t ->
    forall q l, path t (q ++ [l]) ->
      exists fuel' visited',
        buildTree_fuel arraySort localeCompare entityMap fuel' (id l) visited' = Ok l.
Proof.
  induction fuel as [|fuel IH]; intros entityId visited t Ht q l Hpath;
    [discriminate|].
  destruct (TreeFacts.path_inv _ _ Hpath) as [Hone|(c & p' & Hp & Hc & Hpc)].
  - apply TreeFacts.snoc_single in Hone. destruct Hone as [-> ->].
    exists (S fuel), visited.
    now rewrite (TreeFacts.buildTree_fuel_id _ _ _ _ _ _ _ Ht).
  - destruct (TreeFacts.snoc_cons _ _ _ _ Hp (TreeFacts.path_nonempty _ _ Hpc))
      as (q' & -> & ->).
    simpl in Ht.
    destruct (decide (entityId ∈ visited)) as [Hin|Hout].
    + injection Ht as <-. destruct Hc.
    + destruct (collectChildren _ _) as [cs| |] eqn:Hcs; simpl in Ht;
        try discriminate.
      destruct (arraySort (compareNodes localeCompare) cs) as [sorted| |] eqn:Hsort;
        simpl in Ht; try discriminate.
      injection Ht as <-. simpl in Hc.
      apply (TreeFacts.sort_In _ engine _ _ _ Hsort) in Hc.
      destruct (TreeFacts.collectChildren_In _ _ _ _ Hcs Hc) as [s Hs].
      apply (IH _ _ _ Hs q' l Hpc).
Qed.

(** *** With names that are strings *)

Hypothesis collation : consistentCollation localeCompare.
Hypothesis names :
  map_Forall (fun _ e => stringOrFalsy (getPropOpt e "name")) entityMap.

Lemma buildTree_fuel_strNamed fuel entityId visited t :
  buildTree_fuel arraySort localeCompare entityMap fuel entityId visited = Ok t ->
  strNamed t.
Proof.
  destruct fuel as [|fuel]; simpl; [discriminate|].
  destruct (decide (entityId ∈ visited)) as [Hin|Hout].
  - intros [= <-]. eexists. reflexivity.
  - destruct (collectChildren _ _) as [cs| |]; simpl; try discriminate.
    destruct (arraySort (compareNodes localeCompare) cs) as [sorted| |];
      simpl; try discriminate.
    intros [= <-]. unfold strNamed. simpl. apply TreeFacts.getNodeName_string.
    destruct (entityMap !! entityId) as [e|] eqn:He; [|exact I].
    exact (names _ _ He).
Qed.

Lemma buildTree_fuel_folders fuel entityId visited t :
  buildTree_fuel arraySort localeCompare entityMap fuel entityId visited = Ok t ->
  foldersFirst (children t).
Proof.
  destruct fuel as [|fuel]; simpl; [discriminate|].
  destruct (decide (entityId ∈ visited)) as [Hin|Hout].
  - intros [= <-]. simpl. apply foldersFirst_others. constructor.
  - destruct (collectChildren _ _) as [cs| |] eqn:Hcs; simpl; try discriminate.
    destruct (arraySort (compareNodes localeCompare) cs) as [sorted| |] eqn:Hsort;
      simpl; try discriminate.
    intros [= <-]. simpl.
    apply (sort_foldersFirst cs); [exact collation| |exact Hsort].
    apply List.Forall_forall. intros c Hc.
    destruct (TreeFacts.collectChildren_In _ _ _ _ Hcs Hc) as [s Hs].
    now apply buildTree_fuel_strNamed in Hs.
Qed.

End WithBuilder.
End ChildrenFacts.

(** X20.  At every level of the hierarchy the folders are listed before
    everything else: in the children of every node of a tree that
    [buildTree] returns, no node of another type precedes a node of type
    Dataset.  This holds for every engine that sorts as the language
    requires, when the names of the entities are strings and the collation
    orders the strings, so that the comparator of the builder is a
    consistent one. *)
Theorem tree_lists_folders_first
    (arraySort : FileTree.ArraySort) (localeCompare : string -> string -> Z)
    (entityMap : gmap string json)
    (entityId : string) (visited : gset string) (t : FileTree.TreeNode) :
  FileTree.conforming arraySort ->
  FileTree.consistentCollation localeCompare ->
  map_Forall (fun _ e => FileTree.stringOrFalsy (getPropOpt e "name")) entityMap ->
  FileTree.buildTree arraySort localeCompare entityMap entityId visited = Ok t ->
  forall q l, FileTree.path t (q ++ [l]) ->
    FileTree.foldersFirst (FileTree.children l).
Proof.
  intros engine collation names Ht q l Hpath.
  destruct (ChildrenFacts.nodes_built _ _ _ engine _ _ _ _ Ht q l Hpath)
    as (fuel' & visited' & Hl).
  exact (ChildrenFacts.buildTree_fuel_folders _ _ _ engine collation names
           _ _ _ _ Hl).
Qed.

Lemma tree_lists_folders_first_witness :
  exists t,
    FileTree.buildTree FileTree.insertionSort FileTree.codeUnitCompare
      (<["./" := JObj [("@id", JStr "./");
                       ("hasPart", JArr [JObj [("@id", JStr "a.txt")];
                                         JObj [("@id", JStr "data/")]])]]>
         (<["a.txt" := JObj [("@id", JStr "a.txt"); ("@type", JStr "File")]]>
            (<["data/" := JObj [("@id", JStr "data/"); ("@type", JStr "Dataset")]]>
               ∅)))
      "./" ∅ = Ok t /\
    FileTree.foldersFirst (FileTree.children t).
Proof.
  destruct (FileTree.buildTree FileTree.insertionSort FileTree.codeUnitCompare
      (<["./" := JObj [("@id", JStr "./");
                       ("hasPart", JArr [JObj [("@id", JStr "a.txt")];
                                         JObj [("@id", JStr "data/")]])]]>
         (<["a.txt" := JObj [("@id", JStr "a.txt"); ("@type", JStr "File")]]>
            (<["data/" := JObj [("@id", JStr "data/"); ("@type", JStr "Dataset")]]>
               ∅)))
              "./" ∅) as [t| |] eqn:Ht;
    [|vm_compute in Ht; discriminate Ht..].
  exists t. split; [reflexivity|].
  refine (tree_lists_folders_first _ _ _ _ _ t SortFacts.insertionSort_conforming
            SortFacts.codeUnitCompare_consistent _ Ht [] t (FileTree.path_here t)).
  repeat apply map_Forall_insert_2; try exact I. apply map_Forall_empty.
Defined.

(** X21.  The children of a node are the parts its entity declares: in a
    tree that [buildTree] returns, every node is a terminal link, or its
    children carry, up to the order, exactly the identifiers its entity
    lists under [hasPart], each as often as it is listed, and its type and
    name are those read from the entity.  This holds for every engine that
    sorts as the language requires. *)
Theorem tree_children_are_parts
    (arraySort : FileTree.ArraySort) (localeCompare : string -> string -> Z)
    (entityMap : gmap string json)
    (entityId : string) (visited : gset string) (t : FileTree.TreeNode) :
  FileTree.conforming arraySort ->
  FileTree.buildTree arraySort localeCompare entityMap entityId visited = Ok t ->
  forall q l, FileTree.path t (q ++ [l]) ->
    FileTree.isLink l \/
    (List.map FileTree.id (FileTree.children l)
       ≡ₚ FileTree.partIds (FileTree.partsOf (entityMap !! FileTree.id l)) /\
     FileTree.type l = FileTree.typeOf (entityMap !! FileTree.id l) /\
     FileTree.name l
     = FileTree.getNodeName (entityMap !! FileTree.id l) (FileTree.id l)).
Proof.
  intros engine Ht q l Hpath.
  destruct (ChildrenFacts.nodes_built _ _ _ engine _ _ _ _ Ht q l Hpath)
    as (fuel' & visited' & Hl).
  destruct (ChildrenFacts.buildTree_fuel_node _ _ _ engine _ _ _ _ Hl) as [_ Hnode].
  destruct (decide (FileTree.id l ∈ visited')).
  - left. exact Hnode.
  - right. destruct Hnode as (Hty & Hname & Hperm). auto.
Qed.

Lemma tree_children_are_parts_witness :
  exists t,
    FileTree.buildTree FileTree.insertionSort FileTree.codeUnitCompare
      (list_to_map
         [("./", JObj [("@id", JStr "./");
                       ("hasPart", JArr [JObj [("@id", JStr "a.txt")];
                                         JObj [("@id", JStr "data/")]])]);
          ("a.txt", JObj [("@id", JStr "a.txt"); ("@type", JStr "File")]);
          ("data/", JObj [("@id", JStr "data/"); ("@type", JStr "Dataset")])])
      "./" ∅ = Ok t /\
    (FileTree.isLink t \/
     List.map FileTree.id (FileTree.children t) ≡ₚ ["a.txt"; "data/"]).
Proof.
  destruct (FileTree.buildTree FileTree.insertionSort FileTree.codeUnitCompare
              (list_to_map
         [("./", JObj [("@id", JStr "./");
                       ("hasPart", JArr [JObj [("@id", JStr "a.txt")];
                                         JObj [("@id", JStr "data/")]])]);
          ("a.txt", JObj [("@id", JStr "a.txt"); ("@type", JStr "File")]);
          ("data/", JObj [("@id", JStr "data/"); ("@type", JStr "Dataset")])])
              "./" ∅) as [t| |] eqn:Ht;
    [|vm_compute in Ht; discriminate Ht..].
  exists t. split; [reflexivity|].
  destruct (tree_children_are_parts _ _ _ _ _ t SortFacts.insertionSort_conforming
              Ht [] t (FileTree.path_here t))
    as [Hlink|(Hperm & _)]; [now left|right].
  rewrite Hperm.
  rewrite (TreeFacts.buildTree_fuel_id _ _ _ _ _ _ _ Ht). vm_compute. reflexivity.
Defined.

(** ** The name of the descriptor *)

Module DescriptorFacts.
Import App.

Lemma lookupField_setField_same k v (fields : jobject) :
  lookupField k (setField k v fields) = Some v.
Proof.
  induction fields as [|[k' v'] rest IH]; simpl.
  - now rewrite String.eqb_refl.
  - destruct (String.eqb k k') eqn:E; simpl.
    + now rewrite String.eqb_refl.
    + now rewrite E.
Qed.

Lemma lookupField_setField_other k k' v (fields : jobject) :
  k' <> k -> lookupField k' (setField k v fields) = lookupField k' fields.
Proof.
  intros Hne. induction fields as [|[k0 v0] rest IH]; simpl.
  - destruct (String.eqb_spec k' k); [contradiction|reflexivity].
  - destruct (String.eqb_spec k k0) as [->|Hk]; simpl.
    + destruct (String.eqb_spec k' k0); [contradiction|reflexivity].
    + destruct (String.eqb k' k0); [reflexivity|exact IH].
Qed.

Lemma isDescriptor_setId v (e : jobject) :
  isDescriptor (JObj (setField "@id" v e)) = isDescriptor (JObj e).
Proof.
  unfold isDescriptor. simpl.
  now rewrite !lookupField_setField_other by discriminate.
Qed.

Lemma renameDescriptor_spec items r :
  renameDescriptor items = Ok r ->
  match r with
  | None => True
  | Some newGraph =>
      exists before e after,
        items = (before ++ JObj e :: after)%list /\
        newGraph = (before
                      ++ JObj (setField "@id" (JStr "ro-crate-metadata.json") e)
                      :: after)%list /\
        Forall (fun x => isDescriptor x = Ok false) before /\
        isDescriptor (JObj e) = Ok true
  end.
Proof.
  revert r. induction items as [|entity rest IH]; intros r; simpl.
  - now intros [= <-].
  - destruct (isDescriptor entity) as [[]| |] eqn:Hd; simpl; try discriminate.
    + destruct entity as [| b | n | s | items' | fields]; try (now intros [= <-]).
      destruct (isStr (lookupField "@id" fields) "ro-crate-metadata.json");
        intros [= <-]; [exact I|].
      exists [], fields, rest. repeat split; auto.
    + destruct (renameDescriptor rest) as [rest'| |]; simpl; try discriminate.
      intros [= <-]. specialize (IH rest' eq_refl).
      destruct rest' as [g|]; simpl; [|exact I].
      destruct IH as (before & e & after & -> & -> & Hb & He).
      exists (entity :: before), e, after. repeat split; auto.
Qed.

Lemma renameDescriptor_renamed before e after :
  Forall (fun x => isDescriptor x = Ok false) before ->
  isDescriptor (JObj e) = Ok true ->
  renameDescriptor
    (before ++ JObj (setField "@id" (JStr "ro-crate-metadata.json") e) :: after)
  = Ok None.
Proof.
  intros Hb He. induction Hb as [|x before Hx _ IH]; simpl.
  - rewrite isDescriptor_setId, He. simpl.
    now rewrite lookupField_setField_same.
  - rewrite Hx. simpl. now rewrite IH.
Qed.

End DescriptorFacts.

(** X22.  Normalizing the name of the descriptor changes at most one thing:
    the document comes back as it is, or with the ["@id"] of the first
    descriptor entity of its graph set to ["ro-crate-metadata.json"], every
    other entity and every other property being as before and in the same
    place.  Normalizing a second time changes nothing. *)
Theorem normalizeDescriptorName_once (doc doc' : json) :
  App.normalizeDescriptorName doc = Ok doc' ->
  (doc' = doc \/
   exists fields before e after,
     doc = JObj fields /\
     lookupField "@graph" fields = Some (JArr (before ++ JObj e :: after)) /\
     Forall (fun x => App.isDescriptor x = Ok false) before /\
     App.isDescriptor (JObj e) = Ok true /\
     doc' = JObj (App.setField "@graph"
                    (JArr (before
                             ++ JObj (App.setField "@id"
                                        (JStr "ro-crate-metadata.json") e)
                             :: after))
                    fields)) /\
  App.normalizeDescriptorName doc' = Ok doc'.
Proof.
  unfold App.normalizeDescriptorName at 1.
  destruct (truthy doc) eqn:Htruthy; simpl.
  2:{ intros [= <-]. split; [now left|].
      unfold App.normalizeDescriptorName. now rewrite Htruthy. }
  destruct (getProp doc "@graph") as [graph| |] eqn:Hgraph; simpl; try discriminate.
  destruct (truthyOpt graph) eqn:Hg; simpl.
  2:{ intros [= <-]. split; [now left|].
      unfold App.normalizeDescriptorName. rewrite Htruthy, Hgraph. simpl.
      now rewrite Hg. }
  destruct doc as [| b | n | s | items | fields]; try discriminate;
    try (destruct graph as [[]|]; discriminate).
  destruct graph as [[| b | n | s | items | gfields]|]; try discriminate.
  simpl in Hgraph. injection Hgraph as Hgraph.
  destruct (App.renameDescriptor items) as [[newGraph|]| |] eqn:Hren;
    simpl; try discriminate.
  - intros [= <-].
    apply DescriptorFacts.renameDescriptor_spec in Hren.
    destruct Hren as (before & e & after & -> & -> & Hb & He).
    split.
    + right. exists fields, before, e, after. auto.
    + unfold App.normalizeDescriptorName. simpl.
      rewrite DescriptorFacts.lookupField_setField_same. simpl.
      now rewrite DescriptorFacts.renameDescriptor_renamed.
  - intros [= <-]. split; [now left|].
    unfold App.normalizeDescriptorName. simpl. rewrite Hgraph. simpl.
    now rewrite Hren.
Qed.

Lemma normalizeDescriptorName_once_witness :
  App.normalizeDescriptorName
    (JObj [("@graph",
            JArr [JObj [("@id", JStr "./")];
                  JObj [("@id", JStr "custom-ro-crate-metadata.json");
                        ("@type", JStr "CreativeWork");
                        ("conformsTo",
                         JObj [("@id", JStr "https://w3id.org/ro/crate/1.1")]);
                        ("about", JObj [("@id", JStr "./")])]])])
  = Ok (JObj [("@graph",
               JArr [JObj [("@id", JStr "./")];
                     JObj [("@id", JStr "ro-crate-metadata.json");
                           ("@type", JStr "CreativeWork");
                           ("conformsTo",
                            JObj [("@id", JStr "https://w3id.org/ro/crate/1.1")]);
                           ("about", JObj [("@id", JStr "./")])]])]) /\
  App.normalizeDescriptorName
    (JObj [("@graph",
            JArr [JObj [("@id", JStr "./")];
                  JObj [("@id", JStr "ro-crate-metadata.json");
                        ("@type", JStr "CreativeWork");
                        ("conformsTo",
                         JObj [("@id", JStr "https://w3id.org/ro/crate/1.1")]);
                        ("about", JObj [("@id", JStr "./")])]])])
  = Ok (JObj [("@graph",
               JArr [JObj [("@id", JStr "./")];
                     JObj [("@id", JStr "ro-crate-metadata.json");
                           ("@type", JStr "CreativeWork");
                           ("conformsTo",
                            JObj [("@id", JStr "https://w3id.org/ro/crate/1.1")]);
                           ("about", JObj [("@id", JStr "./")])]])]).
Proof.
  assert (H : App.normalizeDescriptorName
    (JObj [("@graph",
            JArr [JObj [("@id", JStr "./")];
                  JObj [("@id", JStr "custom-ro-crate-metadata.json");
                        ("@type", JStr "CreativeWork");
                        ("conformsTo",
                         JObj [("@id", JStr "https://w3id.org/ro/crate/1.1")]);
                        ("about", JObj [("@id", JStr "./")])]])])
  = Ok (JObj [("@graph",
               JArr [JObj [("@id", JStr "./")];
                     JObj [("@id", JStr "ro-crate-metadata.json");
                           ("@type", JStr "CreativeWork");
                           ("conformsTo",
                            JObj [("@id", JStr "https://w3id.org/ro/crate/1.1")]);
                           ("about", JObj [("@id", JStr "./")])]])]))
    by reflexivity.
  split; [exact H|].
  exact (proj2 (normalizeDescriptorName_once _ _ H)).
Defined.

(** ** The file name in a reference to a nested package *)

Module ReferenceFacts.
Import App.

Lemma splitOn_nonempty sep s : splitOn sep s <> [].
Proof.
  induction s as [|c r IH]; simpl; [discriminate|].
  destruct (Ascii.eqb c sep); [discriminate|].
  destruct (splitOn sep r); [contradiction|discriminate].
Qed.

Lemma splitOn_app sep a b :
  splitOn sep (a ++ String sep b) = (splitOn sep a ++ splitOn sep b)%list.
Proof.
  induction a as [|c d IH]; simpl.
  - now rewrite Ascii.eqb_refl.
  - destruct (Ascii.eqb c sep); [now rewrite IH|].
    rewrite IH. pose proof (splitOn_nonempty sep d) as Hne.
    destruct (splitOn sep d) as [|w ws]; [contradiction|reflexivity].
Qed.

Lemma splitOn_plain sep s :
  ~ In sep (list_ascii_of_string s) -> splitOn sep s = [s].
Proof.
  induction s as [|c r IH]; simpl; intros Hnot; [reflexivity|].
  destruct (Ascii.eqb_spec c sep) as [->|Hne]; [destruct Hnot; now left|].
  rewrite IH; [reflexivity|]. intros Hin. apply Hnot. now right.
Qed.

(** [s.split(sep).join(sep)] is [s]. *)
Lemma join_splitOn sep s : join (String sep "") (splitOn sep s) = s.
Proof.
  induction s as [|c r IH]; [reflexivity|]. simpl.
  pose proof (splitOn_nonempty sep r) as Hne.
  destruct (Ascii.eqb_spec c sep) as [->|Hc].
  - destruct (splitOn sep r) as [|w ws]; [contradiction|].
    change (join (String sep "") ("" :: w :: ws))
      with ("" ++ String sep "" ++ join (String sep "") (w :: ws)).
    now rewrite IH.
  - destruct (splitOn sep r) as [|w ws]; [contradiction|].
    destruct ws as [|y ws].
    + simpl in *. now rewrite IH.
    + change (join (String sep "") (String c w :: y :: ws))
        with (String c (w ++ String sep "" ++ join (String sep "") (y :: ws))).
      change (join (String sep "") (w :: y :: ws))
        with (w ++ String sep "" ++ join (String sep "") (y :: ws)) in IH.
      now rewrite IH.
Qed.

Lemma append_assoc (a b c : string) : (a ++ b) ++ c = a ++ (b ++ c).
Proof.
  induction a as [|x a IH]; [reflexivity|].
  change (String x ((a ++ b) ++ c) = String x (a ++ (b ++ c))). now rewrite IH.
Qed.

Lemma append_nil_r (a : string) : a ++ "" = a.
Proof.
  induction a as [|x a IH]; [reflexivity|].
  change (String x (a ++ "") = String x a). now rewrite IH.
Qed.

Lemma revString_app a b : revString (a ++ b) = revString b ++ revString a.
Proof.
  induction a as [|x a IH]; simpl; [now rewrite append_nil_r|].
  rewrite IH. apply append_assoc.
Qed.

Lemma prefix_app a b : String.prefix a (a ++ b) = true.
Proof.
  induction a as [|x a IH]; simpl; [now destruct b|].
  destruct (Ascii.ascii_dec x x); [exact IH|contradiction].
Qed.

Lemma endsWith_app a b : endsWith (a ++ b) b = true.
Proof. unfold endsWith. rewrite revString_app. apply prefix_app. Qed.

Lemma toLowerCase_app a b : toLowerCase (a ++ b) = toLowerCase a ++ toLowerCase b.
Proof. induction a as [|x a IH]; simpl; [reflexivity|now rewrite IH]. Qed.

Lemma length_app (a b : string) :
  String.length (a ++ b) = (String.length a + String.length b)%nat.
Proof. induction a as [|x a IH]; simpl; [reflexivity|now rewrite IH]. Qed.

Lemma last_snoc {A} (l : list A) (x d : A) : List.last (l ++ [x]) d = x.
Proof.
  induction l as [|y l IH]; [reflexivity|].
  simpl. destruct (l ++ [x])%list eqn:E; [now destruct l|exact IH].
Qed.

(** The pattern [/([^\/]+ro-crate-metadata\.json)$/i] on a path whose last
    segment is a prefix followed by the standard name: it captures the
    segment when the prefix is not empty, and does not match otherwise. *)
Lemma matchMetadataFilename_segment dir p :
  ~ In "/"%char (list_ascii_of_string p) ->
  matchMetadataFilename (dir ++ "/" ++ p ++ metadataSuffix) =
  if strNonEmpty p then Some (p ++ metadataSuffix) else None.
Proof.
  intros Hp. unfold matchMetadataFilename.
  change (dir ++ "/" ++ p ++ metadataSuffix)
    with (dir ++ String "/" (p ++ metadataSuffix)).
  rewrite splitOn_app.
  rewrite (splitOn_plain "/" (p ++ metadataSuffix)).
  - rewrite last_snoc, toLowerCase_app.
    change (toLowerCase metadataSuffix) with metadataSuffix.
    rewrite endsWith_app, length_app. simpl.
    destruct p as [|c p]; simpl; [reflexivity|].
    destruct (Nat.ltb_spec 22 (S (String.length p + 22))); [reflexivity|lia].
  - intros Hin. rewrite TextFacts.bytes_app in Hin. apply in_app_or in Hin.
    destruct Hin as [Hin|Hin]; [now apply Hp|].
    vm_compute in Hin. intuition discriminate.
Qed.

Lemma withTrailingSlash_nonempty s : CrateLoader.withTrailingSlash s <> "".
Proof.
  unfold CrateLoader.withTrailingSlash.
  destruct (endsWith s "/") eqn:E; destruct s; try discriminate.
Qed.

Lemma append_nonempty_r a b : b <> "" -> a ++ b <> "".
Proof. destruct a; simpl; [auto|discriminate]. Qed.

Lemma append_nonempty_l a b : a <> "" -> a ++ b <> "".
Proof. destruct a; simpl; [contradiction|discriminate]. Qed.

End ReferenceFacts.

(** X23.  A reference to a nested package that names a metadata file.
    When the file name is the standard one preceded by a prefix, as in
    [genomics-ro-crate-metadata.json], the reference is resolved to the
    directory of the file and the file name is kept for the fetch.  When it
    is the standard name itself, the pattern does not match: the whole
    locator, file name included, is taken for the directory of the nested
    package, and the standard name is the file to fetch from it. *)
Theorem resolveSubcrate_file_reference
    (env : App.Env) (base subcrateId : string) (full u : App.URLObj)
    (dir p : string) :
  App.newURL env subcrateId (Some base) = Some full ->
  App.newURL env (App.href full) None = Some u ->
  ~ In "/"%char (list_ascii_of_string p) ->
  App.pathname u = dir ++ "/" ++ p ++ App.metadataSuffix ->
  App.resolveSubcrate env base subcrateId =
  if strNonEmpty p
  then (App.href (App.setPathname (CrateLoader.withTrailingSlash dir) u),
        p ++ App.metadataSuffix)
  else (CrateLoader.withTrailingSlash (App.href full), App.metadataSuffix).
Proof.
  intros Hfull Hu Hp Hpath. unfold App.resolveSubcrate.
  rewrite Hfull, Hu, Hpath, (ReferenceFacts.matchMetadataFilename_segment dir p Hp).
  destruct (strNonEmpty p) eqn:Hne.
  - change (dir ++ "/" ++ p ++ App.metadataSuffix)
      with (dir ++ String "/" (p ++ App.metadataSuffix)).
    rewrite ReferenceFacts.splitOn_app.
    rewrite (ReferenceFacts.splitOn_plain "/" (p ++ App.metadataSuffix)).
    + rewrite removelast_last.
      change "/" with (String "/"%char "") at 1.
      rewrite ReferenceFacts.join_splitOn.
      destruct (String.eqb_spec
                  (App.href (App.setPathname (CrateLoader.withTrailingSlash dir) u))
                  "") as [E|_]; [|reflexivity].
      exfalso. revert E. unfold App.href. simpl.
      apply ReferenceFacts.append_nonempty_r, ReferenceFacts.append_nonempty_l.
      apply ReferenceFacts.withTrailingSlash_nonempty.
    + intros Hin. rewrite TextFacts.bytes_app in Hin. apply in_app_or in Hin.
      destruct Hin as [Hin|Hin]; [now apply Hp|].
      vm_compute in Hin. intuition discriminate.
  - destruct (String.eqb_spec (CrateLoader.withTrailingSlash (App.href full)) "")
      as [E|_]; [|reflexivity].
    now apply ReferenceFacts.withTrailingSlash_nonempty in E.
Qed.

Lemma resolveSubcrate_file_reference_witness :
  App.resolveSubcrate
    {| App.isStateless := true; App.indexingServiceUrl := "";
       App.corsProxyUrl := "";
       App.httpGet := fun _ => CrateLoader.NetworkFailure "Failed to fetch";
       App.postCrateUrl := fun _ => App.PostRejected "Failed to fetch";
       App.encodeURIComponent := fun s => s;
       App.newURL := fun _ _ =>
         Some (App.mkURL "https://example.org"
                 "/crate/sub/ro-crate-metadata.json" "");
       App.expand := LinkHints.rejectingExpand;
       App.newROCrate := App.Example.rocrate |}
    "https://example.org/crate/" "sub/ro-crate-metadata.json"
  = ("https://example.org/crate/sub/ro-crate-metadata.json/",
     "ro-crate-metadata.json").
Proof.
  apply (resolveSubcrate_file_reference _ _ _
           (App.mkURL "https://example.org" "/crate/sub/ro-crate-metadata.json" "")
           (App.mkURL "https://example.org" "/crate/sub/ro-crate-metadata.json" "")
           "/crate/sub" "").
  - reflexivity.
  - reflexivity.
  - intros [].
  - reflexivity.
Defined.

(** ** From validation to the hierarchy *)

Module RootFacts.
Import App.
Local Open Scope app_scope.

(** The search for the root entity stops at the first one. *)
Lemma findRootEntity_finds graph :
  Forall (fun e => e <> JNull) graph ->
  existsb CrateLoader.isRootEntity graph = true ->
  exists root,
    In root graph /\
    FileTree.findRootEntity graph = Ok (Some root) /\
    CrateLoader.isRootEntity root = true.
Proof.
  induction 1 as [|e rest He _ IH]; simpl; [discriminate|].
  assert (Hid : getProp e "@id" = Ok (getPropOpt e "@id")).
  { destruct e; try reflexivity. contradiction. }
  rewrite Hid. simpl.
  change (isStr (getPropOpt e "@id") "./" || isStr (getPropOpt e "@id") ".")
    with (CrateLoader.isRootEntity e).
  destruct (CrateLoader.isRootEntity e) eqn:Hroot; simpl.
  - intros _. exists e. auto.
  - intros Hrest. destruct (IH Hrest) as (root & Hin & Hfind & Hr).
    exists root. auto.
Qed.

(** The loop of the index reads the identifier of every entity: it does not
    get past a [null]. *)
Lemma pushEntries_nonnull entities crate :
  forall acc data,
    SearchService.pushEntries entities crate acc = (data, Ok tt) ->
    Forall (fun e => e <> JNull) entities.
Proof.
  induction entities as [|e rest IH]; intros acc data H; [constructor|].
  simpl in H.
  destruct (SearchService.indexEntry e crate) as [items| |] eqn:He;
    try discriminate.
  constructor; [|now apply (IH _ _ H)].
  intros ->. discriminate He.
Qed.

Lemma indexEntities_nonnull isFirstCrate sourceUrl st st' u :
  indexEntities isFirstCrate sourceUrl st = (st', Ok u) ->
  Forall (fun e => e <> JNull) (allEntities st).
Proof.
  unfold indexEntities, SearchService.addToIndex, SearchService.buildSearchIndex.
  intros H.
  destruct isFirstCrate; [|destruct (SearchService.fuseInstance (searchIndex st))];
    match type of H with
    | context [SearchService.pushEntries ?l ?c ?acc] =>
        destruct (SearchService.pushEntries l c acc) as [data [[]| |]] eqn:Hp;
        try discriminate; now apply pushEntries_nonnull in Hp
    end.
Qed.

Section WithEnv.
Variable env : Env.

(** A completed processing of a package that was not in the cache shows the
    graph of the document, in which no entity is [null]. *)
Lemma processCrateData_graph doc sourceName sourceUrl isFirstCrate st st' :
  match truthyUrl sourceUrl with
  | Some u => crateCache st !! u = None
  | None => True
  end ->
  processCrateData env doc sourceName sourceUrl isFirstCrate st = (st', Ok true) ->
  graphOf doc = Ok (allEntities st') /\
  Forall (fun e => e <> JNull) (allEntities st') /\
  exists inst, crate st' = Some inst /\
    exists normalized, normalizeDescriptorName doc = Ok normalized /\
                       newROCrate env normalized = Ok inst.
Proof.
  intros Hc.
  unfold processCrateData, tryCatch, bind at 1.
  destruct (processCrateData_body env doc sourceName sourceUrl isFirstCrate st)
    as [s1 [[]| |]] eqn:Hbody; simpl; try discriminate.
  intros [= <-].
  unfold processCrateData_body in Hbody.
  apply AppFacts.bind_Ok in Hbody. destruct Hbody as (a & s & Hs & H).
  assert (Hcache : crateCache s = crateCache st).
  { destruct isFirstCrate; [destruct (truthyUrl sourceUrl)|].
    - apply AppFacts.modify_Ok in Hs. now subst s.
    - apply AppFacts.ret_Ok in Hs. now destruct Hs as [-> _].
    - apply AppFacts.ret_Ok in Hs. now destruct Hs as [-> _]. }
  AppFacts.step H. rewrite Hcache in H.
  assert (Hmiss : match truthyUrl sourceUrl with
                  | Some u => crateCache st !! u
                  | None => None
                  end = None).
  { destruct (truthyUrl sourceUrl); [exact Hc|reflexivity]. }
  rewrite Hmiss in H.
  do 10 AppFacts.step H.
  apply AppFacts.bind_Ok in H. destruct H as (aix & six & Hix & H).
  pose proof (indexEntities_nonnull _ _ _ _ _ Hix) as Hnn.
  apply AppFacts.indexEntities_Ok in Hix. destruct Hix as [ix ->].
  destruct (expandAndHint env doc) as [[expandedRef hintsRef] [expanded hints]].
  do 5 AppFacts.step H.
  match goal with
  | Hg : graphOf doc = Ok ?g, Hn : normalizeDescriptorName doc = Ok ?n,
    Hi : newROCrate env ?n = Ok ?i |- _ =>
      rename g into graph; rename n into normalized; rename i into inst;
      rename Hg into Hgraph; rename Hn into Hnorm; rename Hi into Hinst
  end.
  apply AppFacts.bind_Ok in H. destruct H as (ac & sc & Hsc & H).
  assert (Hents : allEntities sc = graph /\ crate sc = Some inst).
  { destruct (truthyUrl sourceUrl).
    - apply AppFacts.modify_Ok in Hsc. subst sc. split; reflexivity.
    - apply AppFacts.ret_Ok in Hsc. destruct Hsc as [-> _]. split; reflexivity. }
  apply AppFacts.bind_Ok in H. destruct H as (asel & ssel & Hsel & H).
  apply AppFacts.updateSelectedEntityView_Ok in Hsel. destruct Hsel as [v ->].
  apply AppFacts.updateBreadcrumbsForCrate_Ok in H.
  assert (Hfinal : allEntities s1 = graph /\ crate s1 = Some inst).
  { subst s1.
    destruct (truthyUrl sourceUrl) as [c|];
      [destruct (truthyUrl (rootCrateUrl _)) as [r|];
       [destruct (String.eqb c r)|]|]; simpl; exact Hents. }
  destruct Hfinal as [-> ->]. simpl in Hnn.
  split; [exact Hgraph|]. split; [exact Hnn|]. eauto.
Qed.

End WithEnv.

(** [normalizeDescriptorName] returns only on a graph that is an array or
    falsy, so that the assignment of the entity list, which comes after it,
    never meets another one: past the normalization [graphOf] throws only
    where the document is [null]. *)
Lemma graphOf_of_normalized doc normalized :
  normalizeDescriptorName doc = Ok normalized ->
  (exists graph, graphOf doc = Ok graph) \/ doc = JNull.
Proof.
  unfold normalizeDescriptorName, graphOf.
  destruct doc as [| b | n | s | items | fields]; simpl; eauto.
  destruct (lookupField "@graph" fields) as [[| b | n | s | items | gfields]|];
    simpl; eauto.
  - destruct b; simpl; [discriminate|eauto].
  - destruct (negb (String.eqb n "0")); simpl; [discriminate|eauto].
  - destruct (negb (String.eqb s "")); simpl; [discriminate|eauto].
  - discriminate.
Qed.

(** What validation says of the graph. *)
Lemma validated_graph doc :
  CrateLoader.validateRoCrateJson doc = Ok tt ->
  exists graph,
    getPropOpt doc "@graph" = Some (JArr graph) /\
    graphOf doc = Ok graph /\
    graph <> [] /\
    existsb CrateLoader.isRootEntity graph = true.
Proof.
  unfold CrateLoader.validateRoCrateJson.
  destruct doc as [| b | n | s | items | fields]; try discriminate.
  destruct (negb (hasKey "@context" fields)); [discriminate|].
  destruct (lookupField "@graph" fields) as [[| b | n | s | graph | gfields]|] eqn:Hg;
    try discriminate.
  destruct (length graph =? 0)%nat eqn:Hlen; [discriminate|].
  destruct (existsb CrateLoader.isRootEntity graph) eqn:Hroot; [|discriminate].
  intros _. exists graph. split; [exact Hg|]. split; [|split].
  - unfold graphOf. simpl. now rewrite Hg.
  - intros ->. discriminate.
  - exact Hroot.
Qed.

(** The entity map holds entities of the list under their identifiers, and
    an entry for every identifier that is a string. *)
Lemma fillEntityMap_lookup entities :
  forall m0 m k e,
    FileTree.fillEntityMap entities m0 = Ok m ->
    m !! k = Some e ->
    m0 !! k = Some e \/ (In e entities /\ getPropOpt e "@id" = Some (JStr k)).
Proof.
  induction entities as [|x rest IH]; intros m0 m k e H Hk; simpl in H.
  - injection H as <-. now left.
  - destruct (getProp x "@id") as [i| |] eqn:Hi; simpl in H; try discriminate.
    assert (Hid : getPropOpt x "@id" = i).
    { destruct x; simpl in *; try discriminate; congruence. }
    assert (Hother : FileTree.fillEntityMap rest m0 = Ok m ->
              m0 !! k = Some e \/ (In e (x :: rest) /\ getPropOpt e "@id" = Some (JStr k))).
    { intros H'. destruct (IH _ _ _ _ H' Hk) as [?|[? ?]]; [now left|right].
      split; [now right|assumption]. }
    destruct i as [[| | | key | |]|]; try (now apply Hother).
    destruct (IH _ _ _ _ H Hk) as [Hm|[Hin He]].
    + rewrite lookup_insert in Hm. case_decide as Hkey.
      * injection Hm as <-. subst key. right. split; [now left|exact Hid].
      * now left.
    + right. split; [now right|exact He].
Qed.

Lemma fillEntityMap_has entities :
  forall m0 m k,
    FileTree.fillEntityMap entities m0 = Ok m ->
    is_Some (m0 !! k) \/
    (exists e, In e entities /\ getPropOpt e "@id" = Some (JStr k)) ->
    is_Some (m !! k).
Proof.
  induction entities as [|x rest IH]; intros m0 m k H Hk; simpl in H.
  - injection H as <-. destruct Hk as [Hk|(e & [] & _)]. exact Hk.
  - destruct (getProp x "@id") as [i| |] eqn:Hi; simpl in H; try discriminate.
    assert (Hid : getPropOpt x "@id" = i).
    { destruct x; simpl in *; try discriminate; congruence. }
    assert (Hother : forall m1, FileTree.fillEntityMap rest m1 = Ok m ->
              (is_Some (m0 !! k) -> is_Some (m1 !! k)) ->
              i <> Some (JStr k) -> is_Some (m !! k)).
    { intros m1 H' Hm1 Hne. apply (IH _ _ _ H').
      destruct Hk as [Hk|(e & [<-|Hin] & He)]; [left; auto| |right; eauto].
      congruence. }
    destruct i as [[| | | key | |]|];
      try (apply (Hother _ H); [auto|discriminate]).
    destruct (decide (key = k)) as [->|Hne].
    + apply (IH _ _ _ H). left. rewrite lookup_insert_eq. eauto.
    + apply (Hother _ H); [|congruence].
      intros Hs. now rewrite lookup_insert_ne.
Qed.

(** The root node of a walk that starts with nothing visited. *)
Lemma buildTree_root arraySort localeCompare entityMap entityId t :
  FileTree.buildTree arraySort localeCompare entityMap entityId ∅ = Ok t ->
  FileTree.id t = entityId /\
  FileTree.data t = match entityMap !! entityId with
                    | Some e => if truthy e then Some e else Some JNull
                    | None => Some JNull
                    end.
Proof.
  unfold FileTree.buildTree. rewrite TreeFacts.buildTree_fuel_step by set_solver.
  destruct (FileTree.collectChildren _ _) as [cs| |]; simpl; try discriminate.
  destruct (arraySort _ cs) as [sorted| |]; simpl; try discriminate.
  intros [= <-]. split; reflexivity.
Qed.

Lemma truthyJson_None v : truthyJson v = None <-> truthyOpt v = false.
Proof.
  unfold truthyJson, truthyOpt. destruct v as [x|]; [|tauto].
  destruct (truthy x); split; intros; congruence.
Qed.

End RootFacts.

(** X24.  A document that passed validation, once [processCrateData] has
    completed on it, is shown by its own entities: the entity list is the
    graph of the document, which is not empty and holds no [null], and
    [fileTree] finds a root entity for it, the root dataset of the crate
    instance or else the first entity of the graph whose identifier is
    ["./"] or ["."].  When [fileTree] returns a tree, its root node carries
    the identifier of that root entity, and whenever the graph holds an
    entity under that identifier, which it does when the root was found in
    the graph, the node holds such an entity of the graph: the tree is not
    the placeholder that stands for a missing root. *)
Theorem validated_document_has_root
    (env : App.Env) (arraySort : FileTree.ArraySort)
    (localeCompare : string -> string -> Z)
    (doc : json) (sourceName : string) (sourceUrl : option string)
    (isFirstCrate : bool) (st st' : App.AppState) :
  CrateLoader.validateRoCrateJson doc = Ok tt ->
  match App.truthyUrl sourceUrl with
  | Some u => App.crateCache st !! u = None
  | None => True
  end ->
  App.processCrateData env doc sourceName sourceUrl isFirstCrate st
    = (st', Ok true) ->
  exists graph root,
    getPropOpt doc "@graph" = Some (JArr graph) /\
    App.allEntities st' = graph /\
    graph <> [] /\
    Forall (fun e => e <> JNull) graph /\
    FileTree.rootEntityOf (App.rootDatasetOf st') graph = Ok (Some root) /\
    match App.truthyJson (App.rootDatasetOf st') with
    | Some dataset => root = dataset
    | None =>
        exists before after,
          graph = (before ++ root :: after)%list /\
          CrateLoader.isRootEntity root = true /\
          Forall (fun x => CrateLoader.isRootEntity x = false) before
    end /\
    forall t,
      App.fileTreeOf arraySort localeCompare st' = Ok t ->
      getPropOpt root "@id" = Some (JStr (FileTree.id t)) /\
      (App.truthyJson (App.rootDatasetOf st') = None \/
       (exists x, In x graph /\
                  getPropOpt x "@id" = Some (JStr (FileTree.id t))) ->
       exists e, In e graph /\
                 getPropOpt e "@id" = Some (JStr (FileTree.id t)) /\
                 FileTree.data t = Some e).
Proof.
  intros Hvalid Hmiss Hrun.
  destruct (RootFacts.validated_graph doc Hvalid) as (graph & Hg & Hgraph & Hne & Hroot).
  destruct (RootFacts.processCrateData_graph env doc sourceName sourceUrl
              isFirstCrate st st' Hmiss Hrun) as (Hshown & Hnn & _).
  rewrite Hgraph in Hshown. injection Hshown as Hents. rewrite <- Hents in Hnn.
  assert (Hfound : exists root,
             FileTree.rootEntityOf (App.rootDatasetOf st') graph = Ok (Some root) /\
             match App.truthyJson (App.rootDatasetOf st') with
             | Some dataset => root = dataset
             | None => FileTree.findRootEntity graph = Ok (Some root)
             end).
  { unfold FileTree.rootEntityOf, App.truthyJson, truthyOpt.
    destruct (App.rootDatasetOf st') as [r|]; [destruct (truthy r)|].
    - exists r. split; reflexivity.
    - destruct (RootFacts.findRootEntity_finds graph Hnn Hroot)
        as (root & _ & Hfind & _).
      exists root. auto.
    - destruct (RootFacts.findRootEntity_finds graph Hnn Hroot)
        as (root & _ & Hfind & _).
      exists root. auto. }
  destruct Hfound as (root & Hentity & Hfind).
  assert (Hfirst : App.truthyJson (App.rootDatasetOf st') = None ->
            exists before after,
              graph = (before ++ root :: after)%list /\
              CrateLoader.isRootEntity root = true /\
              Forall (fun x => CrateLoader.isRootEntity x = false) before).
  { intros Hn. rewrite Hn in Hfind.
    destruct (SelectionFacts.findRootEntity_first _ _ Hfind) as (_ & H). exact H. }
  exists graph, root.
  split; [exact Hg|]. split; [now symmetry|]. split; [exact Hne|].
  split; [exact Hnn|]. split; [exact Hentity|]. split.
  - destruct (App.truthyJson (App.rootDatasetOf st')); [exact Hfind|now apply Hfirst].
  - intros t Ht. unfold App.fileTreeOf, FileTree.fileTree in Ht.
    rewrite <- Hents, Hentity in Ht. simpl in Ht.
    destruct (FileTree.fillEntityMap graph ∅) as [m| |] eqn:Hm; simpl in Ht;
      try discriminate.
    destruct (getPropOpt root "@id") as [[| | | rootId | |]|] eqn:Hid;
      try discriminate.
    destruct (RootFacts.buildTree_root _ _ _ _ _ Ht) as [Hidt Hdata].
    rewrite Hidt. split; [reflexivity|]. intros Hhas.
    assert (Hx : exists x, In x graph /\ getPropOpt x "@id" = Some (JStr rootId)).
    { destruct Hhas as [Hn|Hx]; [|exact Hx].
      destruct (Hfirst Hn) as (before & after & Hsplit & _).
      exists root. split; [|exact Hid].
      rewrite Hsplit. apply in_or_app. right. now left. }
    destruct (RootFacts.fillEntityMap_has graph ∅ m rootId Hm) as [e He].
    { right. exact Hx. }
    destruct (RootFacts.fillEntityMap_lookup graph ∅ m rootId e Hm He)
      as [Hempty|[Hine Hide]]; [rewrite lookup_empty in Hempty; discriminate|].
    exists e. split; [exact Hine|]. split; [exact Hide|].
    rewrite Hdata, He.
    destruct e; simpl in Hide; try discriminate. reflexivity.
Qed.

(** The described package, processed in a fresh session: the crate instance
    names the root dataset, and the root node holds the entity of the graph
    under its identifier. *)
Lemma validated_document_has_root_witness :
  exists st' t e,
    App.processCrateData App.Example.described App.Example.describedDoc
      "Remote Crate" (Some App.Example.describedLocator) true App.initialState
      = (st', Ok true) /\
    App.rootDatasetOf st' = Some App.Example.describedRoot /\
    App.fileTreeOf FileTree.insertionSort FileTree.codeUnitCompare st' = Ok t /\
    FileTree.id t = "./" /\
    FileTree.data t = Some e /\
    In e (App.allEntities st') /\
    getPropOpt e "@id" = Some (JStr "./").
Proof.
  set (run := App.processCrateData App.Example.described
                App.Example.describedDoc "Remote Crate"
                (Some App.Example.describedLocator) true App.initialState).
  assert (Hrun : run = (fst run, Ok true)) by (vm_compute; reflexivity).
  assert (Hmiss : match App.truthyUrl (Some App.Example.describedLocator) with
                  | Some u => App.crateCache App.initialState !! u = None
                  | None => True
                  end) by (vm_compute; reflexivity).
  destruct (validated_document_has_root App.Example.described
              FileTree.insertionSort FileTree.codeUnitCompare
              App.Example.describedDoc "Remote Crate"
              (Some App.Example.describedLocator)
              true App.initialState (fst run) eq_refl Hmiss Hrun)
    as (graph & root & _ & Hents & _ & _ & _ & _ & Htree).
  destruct (App.fileTreeOf FileTree.insertionSort FileTree.codeUnitCompare
              (fst run)) as [t| |] eqn:Ht;
    try (vm_compute in Ht; discriminate Ht).
  assert (Hid : FileTree.id t = "./").
  { vm_compute in Ht. injection Ht as <-. reflexivity. }
  destruct (Htree t eq_refl) as [_ Hdata].
  destruct Hdata as (e & Hin & He & Hd).
  { right. rewrite Hid, <- Hents.
    exists (JObj [("@id", JStr "./"); ("@type", JStr "Dataset");
                  ("name", JStr "Described crate");
                  ("hasPart", JArr [JObj [("@id", JStr "data.csv")]])]).
    split; [vm_compute; auto|reflexivity]. }
  exists (fst run), t, e. rewrite Hents, <- Hid.
  split; [exact Hrun|]. split; [vm_compute; reflexivity|]. auto 6.
Defined.

(** ** The view and the cache *)

Module CoherenceFacts.
Import App.
Local Open Scope app_scope.

Section WithEnv.
Variable env : Env.

(** A completed processing of a locator that was not in the cache files
    what it shows. *)
Lemma processCrateData_caches doc sourceName u isFirstCrate st st' :
  strNonEmpty u = true ->
  crateCache st !! u = None ->
  processCrateData env doc sourceName (Some u) isFirstCrate st = (st', Ok true) ->
  shownFromCache u st' /\ currentUrl st' = Some u.
Proof.
  intros Hu Hc.
  unfold processCrateData, tryCatch, bind at 1.
  destruct (processCrateData_body env doc sourceName (Some u) isFirstCrate st)
    as [s1 [[]| |]] eqn:Hbody; simpl; try discriminate.
  intros [= <-].
  unfold processCrateData_body in Hbody. simpl in Hbody. rewrite Hu in Hbody.
  apply AppFacts.bind_Ok in Hbody. destruct Hbody as (a & s & Hs & H).
  assert (Hcache : crateCache s = crateCache st).
  { destruct isFirstCrate.
    - apply AppFacts.modify_Ok in Hs. now subst s.
    - apply AppFacts.ret_Ok in Hs. now destruct Hs as [-> _]. }
  AppFacts.step H. rewrite Hcache, Hc in H.
  do 10 AppFacts.step H.
  apply AppFacts.bind_Ok in H. destruct H as (aix & six & Hix & H).
  apply AppFacts.indexEntities_Ok in Hix. destruct Hix as [ix ->].
  destruct (expandAndHint env doc) as [[expandedRef hintsRef] [expanded hints]]
    eqn:Hexp.
  assert (Hhints : hintsRef = hints).
  { unfold expandAndHint in Hexp.
    destruct (expand env doc) as [ex| |]; [|now injection Hexp as <- <- <- <-..].
    destruct (LinkHints.buildLinkedDataHints (expand env) doc ex);
      now injection Hexp as <- <- <- <-. }
  subst hintsRef.
  do 6 AppFacts.step H.
  apply AppFacts.bind_Ok in H. destruct H as (asel & ssel & Hsel & H).
  apply AppFacts.updateSelectedEntityView_Ok in Hsel. destruct Hsel as [v ->].
  apply AppFacts.updateBreadcrumbsForCrate_Ok in H. subst s1.
  simpl. rewrite Hu.
  match goal with
  | |- context [match truthyUrl ?r with _ => _ end] =>
      destruct (truthyUrl r) as [r0|]; [destruct (String.eqb u r0)|]
  end;
    (split; [|reflexivity]);
    (eexists; split; [simpl; apply lookup_insert_eq|simpl; auto]).
Qed.

Lemma processCrateData_shown doc sourceName u isFirstCrate st :
  strNonEmpty u = true ->
  match processCrateData env doc sourceName (Some u) isFirstCrate st with
  | (st', Ok true) => shownFromCache u st' /\ currentUrl st' = Some u
  | _ => True
  end.
Proof.
  intros Hu.
  destruct (processCrateData env doc sourceName (Some u) isFirstCrate st)
    as [st' [[]| |]] eqn:Hrun; auto.
  destruct (crateCache st !! u) as [c|] eqn:Hc.
  - destruct (CacheFacts.processCrateData_restores env doc sourceName u c
                isFirstCrate st st' Hu Hc Hrun)
      as (H1 & _ & H3 & H4 & H5 & H6 & _ & H8).
    split; [|exact H6]. exists c. rewrite H8. auto.
  - now apply (processCrateData_caches doc sourceName u isFirstCrate st st').
Qed.

Lemma fetchMetadata_shown crateId sourceName u isFirstCrate st :
  strNonEmpty u = true ->
  match fetchMetadata env crateId sourceName (Some u) isFirstCrate st with
  | (st', Ok (Navigated t)) =>
      t = Some u /\ shownFromCache u st' /\ currentUrl st' = Some u
  | _ => True
  end.
Proof.
  intros Hu. unfold fetchMetadata.
  destruct (httpGet env _) as [m|[] status [metadataJson| |]]; simpl; auto.
  pose proof (processCrateData_shown metadataJson sourceName u isFirstCrate st Hu)
    as Hp.
  unfold bind, ret.
  destruct (processCrateData env metadataJson sourceName (Some u) isFirstCrate st)
    as [st' [[]| |]]; simpl; auto.
Qed.

Ltac showing Hu :=
  match goal with
  | |- context [processCrateData env ?d ?n (Some ?u) ?f ?x] =>
      let Hp := fresh "Hp" in
      pose proof (processCrateData_shown d n u f x Hu) as Hp;
      destruct (processCrateData env d n (Some u) f x) as [? [[]| |]];
      simpl in *; auto
  | |- context [fetchMetadata env ?c ?n (Some ?u) ?f ?x] =>
      let Hp := fresh "Hp" in
      pose proof (fetchMetadata_shown c n u f x Hu) as Hp;
      destruct (fetchMetadata env c n (Some u) f x) as [? [[]| |]];
      simpl in *; auto
  end.

Ltac shown :=
  repeat match goal with
         | H : _ /\ _ |- _ => destruct H
         end;
  subst; eexists; repeat split; eauto.

Lemma loadFromUrl_shown st :
  match loadFromUrl env st with
  | (st', Ok (Navigated t)) =>
      exists u, t = Some u /\ currentUrl st' = Some u /\ shownFromCache u st'
  | _ => True
  end.
Proof.
  unfold loadFromUrl, bind, get, modify, tryCatch, ret, throw, liftRes.
  destruct (strNonEmpty (inputUrl st)) eqn:Hin; simpl; [|exact I].
  destruct (cachedJson _) as [doc|]; simpl.
  - showing Hin. shown.
  - destruct (isStateless env) eqn:Hmode; simpl.
    + destruct (CrateLoader.fetchCrateFromUrl _ _ _) as [doc| |]; simpl; auto.
      showing Hin. shown.
    + destruct (postCrateUrl env (inputUrl st)) as [m|[crateId| |]|status [c|]];
        simpl; auto; showing Hin; shown.
Qed.

Lemma withTrailingSlash_strNonEmpty s :
  strNonEmpty (CrateLoader.withTrailingSlash s) = true.
Proof.
  pose proof (ReferenceFacts.withTrailingSlash_nonempty s) as H.
  unfold strNonEmpty. destruct (String.eqb_spec (CrateLoader.withTrailingSlash s) "");
    [contradiction|reflexivity].
Qed.

Lemma handleSubcrateOpen_shown subcrateId st :
  match handleSubcrateOpen env subcrateId st with
  | (st', Ok (Navigated t)) =>
      exists u, t = Some u /\ currentUrl st' = Some u /\ shownFromCache u st'
  | _ => True
  end.
Proof.
  unfold handleSubcrateOpen, bind, get, modify, tryCatch, ret, throw, liftRes.
  destruct (strNonEmpty (baseUrl st)) eqn:Hbase; simpl; [|exact I].
  destruct (resolveSubcrate env (baseUrl st) subcrateId)
    as [subcrateBaseUrl metadataFilename]. simpl.
  pose proof (withTrailingSlash_strNonEmpty subcrateBaseUrl) as Hkey.
  destruct (isStateless env) eqn:Hmode; simpl.
  - destruct (cachedJson _) as [doc|]; simpl.
    + showing Hkey. shown.
    + destruct (CrateLoader.fetchCrateFromUrl _ _ _) as [doc| |]; simpl; auto.
      showing Hkey. shown.
  - showing Hkey. shown.
Qed.

End WithEnv.
End CoherenceFacts.

(** X25.  After every navigation that completes, what is shown is what the
    cache holds under the locator arrived at: the locator is current and is
    in the cache, and the entities, the name, the hints and the document of
    the view are those of its record, whether the package was fetched or
    restored, in either build. *)
Theorem view_matches_cache
    (env : App.Env) (a : App.Action) (st st' : App.AppState)
    (t : option string) :
  App.run env a st = (st', Ok (App.Navigated t)) ->
  exists u,
    t = Some u /\ App.currentUrl st' = Some u /\ App.shownFromCache u st'.
Proof.
  destruct a as [|subcrateId|index|]; simpl; intros Hrun.
  - pose proof (CoherenceFacts.loadFromUrl_shown env st) as H.
    now rewrite Hrun in H.
  - pose proof (CoherenceFacts.handleSubcrateOpen_shown env subcrateId st) as H.
    now rewrite Hrun in H.
  - unfold App.goToBreadcrumb, App.bind at 1, App.get in Hrun. simpl in Hrun.
    destruct (App.historyStack st !! index) as [target|]; simpl in Hrun;
      [|discriminate].
    destruct (App.truthyUrl (App.url target)) as [u|]; simpl in Hrun;
      [|discriminate].
    unfold App.bind at 1, App.modify in Hrun. unfold App.bind at 1 in Hrun.
    match type of Hrun with
    | App.loadFromUrl env ?x = _ =>
        pose proof (CoherenceFacts.loadFromUrl_shown env x) as H
    end.
    now rewrite Hrun in H.
  - unfold App.goBack, App.bind at 1, App.get in Hrun. simpl in Hrun.
    destruct (rev (App.historyStack st)) as [|parent r]; simpl in Hrun;
      [discriminate|].
    unfold App.bind at 1, App.modify in Hrun.
    destruct (App.truthyUrl (App.url parent)) as [u|]; simpl in Hrun;
      [|discriminate].
    unfold App.bind at 1, App.modify in Hrun.
    match type of Hrun with
    | App.loadFromUrl env ?x = _ =>
        pose proof (CoherenceFacts.loadFromUrl_shown env x) as H
    end.
    now rewrite Hrun in H.
Qed.

Lemma view_matches_cache_witness :
  exists u,
    App.currentUrl App.Example.atSub = Some u /\
    App.shownFromCache u App.Example.atSub.
Proof.
  destruct (App.run App.Example.stateless (App.HandleSubcrateOpen "sub/")
              (App.Example.atRoot App.Example.stateless))
    as [st' [[| | |t]| |]] eqn:Hrun;
    try (vm_compute in Hrun; discriminate Hrun).
  destruct (view_matches_cache _ _ _ _ _ Hrun) as (u & _ & Hcur & Hshown).
  unfold App.Example.atSub, App.Example.after. rewrite Hrun. simpl.
  exists u. auto.
Defined.
